(** * Tic-tac-toe kernel of mainwindow.cpp: board model, turn controller, minimax search

    A shallow embedding of the [GameBoard] class (mainwindow.h, mainwindow.cpp)
    and of the two static helpers [evalIsWinner] and [evalIsFull] that the
    search uses, followed by the game dialog with its records and metrics,
    the replay dialog, the text of the moves in the database, and signing
    in.  Of the widgets only what the code reads back or what [makeMove]
    paints is kept; layout and the performance monitor carry no game state
    and are left out. *)

From Stdlib Require Import ZArith Ascii String Bool Lia Sorted.
From Stdlib Require Import DecimalString DecimalPos DecimalZ.
From stdpp Require Import base option list.

Local Open Scope char_scope.

(** ** Data model *)

(** [std::vector<std::vector<char>>].  [initializeBoard] assigns three rows of
    three cells and nothing ever resizes them. *)
Abbreviation Board := (list (list ascii)).

(** Shape of every board the program builds. *)
Definition wf_board (b : Board) : Prop :=
  length b = 3 /\ Forall (fun row => length row = 3) b.

(** [b[i][j]].  The source indexes with the unchecked [operator[]]; all its
    accesses are guarded by range tests or by loops over 0..2.  Outside the
    stored cells the embedding reads [None]. *)
Definition cell (b : Board) (i j : nat) : option ascii :=
  b !! i ≫= (.!! j).

(** [b[i][j] == c] *)
Definition holds (b : Board) (i j : nat) (c : ascii) : bool :=
  match cell b i j with
  | Some d => Ascii.eqb d c
  | None => false
  end.

(** [b[i][j] = c] *)
Definition set_cell (b : Board) (i j : nat) (c : ascii) : Board :=
  alter (<[j := c]>) i b.

(** [QPoint]: [findBestMove] stores the row in [x] and the column in [y]. *)
Record QPoint := mkQPoint { qx : Z; qy : Z }.

(** The data members of [GameBoard] that carry game state. *)
Record GameBoard := mkGameBoard {
  board : Board;
  currentPlayer : ascii;
  gameActive : bool;
  gameMode : Z
}.

(** ** Loops *)

(** A [for] loop whose body can [return true] out of the enclosing function. *)
Fixpoint for_any (idx : list nat) (body : nat -> bool) : bool :=
  match idx with
  | [] => false
  | i :: rest => if body i then true else for_any rest body
  end.

(** A [for] loop that threads the local variables [S] through its body; the
    body fails only when a call inside it does. *)
Fixpoint for_each {I S : Type} (idx : list I) (body : I -> S -> option S)
    (s : S) : option S :=
  match idx with
  | [] => Some s
  | i :: rest =>
      match body i s with
      | Some s' => for_each rest body s'
      | None => None
      end
  end.

(** [for (int i = 0; i < n; i++)] *)
Definition for_range {S : Type} (n : nat) (body : nat -> S -> option S)
    (s : S) : option S :=
  for_each (seq 0 n) body s.

(** ** Helper functions for minimax evaluation *)

Definition evalIsWinner (b : Board) (player : ascii) : bool :=
  if for_any (seq 0 3) (fun i =>
       if holds b i 0 player && holds b i 1 player && holds b i 2 player
       then true
       else if holds b 0 i player && holds b 1 i player && holds b 2 i player
       then true
       else false)
  then true
  else if holds b 0 0 player && holds b 1 1 player && holds b 2 2 player
  then true
  else if holds b 0 2 player && holds b 1 1 player && holds b 2 0 player
  then true
  else false.

Definition evalIsFull (b : Board) : bool :=
  forallb (fun row => forallb (fun c => negb (Ascii.eqb c " ")) row) b.

(** ** GameBoard *)

(** [board.assign(3, std::vector<char>(3, ' '))] *)
Definition empty_board : Board :=
  replicate 3 (replicate 3 " ").

(** The constructor, which runs [initializeBoard] and through it
    [resetBoard]. *)
Definition GameBoard_new (mode : Z) : GameBoard :=
  mkGameBoard empty_board "X" true mode.

(** [resetBoard] writes Empty into the nine cells and restarts with X. *)
Definition resetBoard (g : GameBoard) : GameBoard :=
  mkGameBoard empty_board "X" true (gameMode g).

(** [makeMove]: the returned flag and the object after the call. *)
Definition makeMove (g : GameBoard) (row col : Z) (player : ascii)
    : bool * GameBoard :=
  if (0 <=? row)%Z && (row <? 3)%Z && (0 <=? col)%Z && (col <? 3)%Z
     && holds (board g) (Z.to_nat row) (Z.to_nat col) " " && gameActive g
  then (true,
        mkGameBoard (set_cell (board g) (Z.to_nat row) (Z.to_nat col) player)
                    (currentPlayer g) (gameActive g) (gameMode g))
  else (false, g).

Definition checkWinner (g : GameBoard) (player : ascii) : bool :=
  if for_any (seq 0 3) (fun i =>
       if holds (board g) i 0 player && holds (board g) i 1 player
          && holds (board g) i 2 player
       then true
       else if holds (board g) 0 i player && holds (board g) 1 i player
               && holds (board g) 2 i player
       then true
       else false)
  then true
  else if holds (board g) 0 0 player && holds (board g) 1 1 player
          && holds (board g) 2 2 player
  then true
  else if holds (board g) 0 2 player && holds (board g) 1 1 player
          && holds (board g) 2 0 player
  then true
  else false.

Definition isFull (g : GameBoard) : bool :=
  forallb (fun row => forallb (fun c => negb (Ascii.eqb c " ")) row) (board g).

Definition isEmpty (g : GameBoard) (row col : Z) : bool :=
  (0 <=? row)%Z && (row <? 3)%Z && (0 <=? col)%Z && (col <? 3)%Z
  && holds (board g) (Z.to_nat row) (Z.to_nat col) " ".

Definition disableBoard (g : GameBoard) : GameBoard :=
  mkGameBoard (board g) (currentPlayer g) false (gameMode g).

Definition enableBoard (g : GameBoard) : GameBoard :=
  mkGameBoard (board g) (currentPlayer g) true (gameMode g).

(** ** Search *)

(** [minimax] takes [currentBoard] by value: every call works on a copy of
    its own, places a mark, recurses on a further copy and retracts the mark.
    The result pairs the returned score with the final contents of that local
    copy.  [fuel] bounds the nesting of calls; [None] means it ran out. *)
Fixpoint minimax_rec (fuel : nat) (currentBoard : Board) (player : ascii)
    {struct fuel} : option (Z * Board) :=
  match fuel with
  | O => None
  | S fuel' =>
      if evalIsWinner currentBoard "O" then Some (10%Z, currentBoard)
      else if evalIsWinner currentBoard "X" then Some ((-10)%Z, currentBoard)
      else if evalIsFull currentBoard then Some (0%Z, currentBoard)
      else if Ascii.eqb player "O" then
        for_range 3 (fun i => for_range 3 (fun j '(bestScore, cb) =>
          if holds cb i j " " then
            let cb1 := set_cell cb i j "O" in
            match minimax_rec fuel' cb1 "X" with
            | Some (score, _) =>
                let cb2 := set_cell cb1 i j " " in
                Some (Z.max bestScore score, cb2)
            | None => None
            end
          else Some (bestScore, cb)))
          ((-1000)%Z, currentBoard)
      else
        for_range 3 (fun i => for_range 3 (fun j '(bestScore, cb) =>
          if holds cb i j " " then
            let cb1 := set_cell cb i j "X" in
            match minimax_rec fuel' cb1 "O" with
            | Some (score, _) =>
                let cb2 := set_cell cb1 i j " " in
                Some (Z.min bestScore score, cb2)
            | None => None
            end
          else Some (bestScore, cb)))
          (1000%Z, currentBoard)
  end.

(** Ten nested calls: the outermost one and one per cell of the grid. *)
Definition call_budget : nat := 10.

Definition minimax (currentBoard : Board) (player : ascii) : option Z :=
  fst <$> minimax_rec call_budget currentBoard player.

(** The scan of [findBestMove] over its local [boardCopy]: the final
    [bestScore], [bestMove] and [boardCopy]. *)
Definition findBestMove_scan (boardCopy : Board)
    : option (Z * QPoint * Board) :=
  for_range 3 (fun i => for_range 3 (fun j '(bestScore, bestMove, bc) =>
    if holds bc i j " " then
      let bc1 := set_cell bc i j "O" in
      match minimax bc1 "X" with
      | Some score =>
          let bc2 := set_cell bc1 i j " " in
          if (score >? bestScore)%Z
          then Some (score, mkQPoint (Z.of_nat i) (Z.of_nat j), bc2)
          else Some (bestScore, bestMove, bc2)
      | None => None
      end
    else Some (bestScore, bestMove, bc)))
    ((-1000)%Z, mkQPoint (-1) (-1), boardCopy).

(** [findBestMove]: the returned point and the object after the call. *)
Definition findBestMove (g : GameBoard) : option (QPoint * GameBoard) :=
  match findBestMove_scan (board g) with
  | Some (_, bestMove, _) => Some (bestMove, g)
  | None => None
  end.

(** ** Turn controller *)

(** [switchPlayer] flips the current player.  Its call of [triggerAiMove]
    only arms a 100 ms timer for [aiMove]; no member changes. *)
Definition switchPlayer (g : GameBoard) : GameBoard :=
  mkGameBoard (board g)
              (if Ascii.eqb (currentPlayer g) "X" then "O" else "X")
              (gameActive g) (gameMode g).

(** The slot [GameDialog::onGameOver], as far as it touches the board. *)
Definition GameDialog_onGameOver (g : GameBoard) : GameBoard :=
  enableBoard (resetBoard g).

(** [gameActive = false;] *)
Definition deactivate (g : GameBoard) : GameBoard :=
  mkGameBoard (board g) (currentPlayer g) false (gameMode g).

Section Controller.

(** Whether [GameDialog::startGame] built the board and connected
    [onGameOver] to its [gameOver] signal.  A board built on its own, as
    in test_gameboard.cpp, has no slot connected.  [moveMade] feeds
    [GameDialog::recordMove], which does not touch the board. *)
Variable dialog : bool.

(** [emit gameOver(...)], for the members of the board: a direct connection
    runs the slot at once.  The slot of the dialog shows a message box
    first, and timer slots can run while the box is open ([fire] below has
    those events); it ends with [resetBoard] and [enableBoard], which
    overwrite the cells, the current player and the flag, so this is the
    board when the [emit] returns, whatever ran in between
    ([app_board_reachable]). *)
Definition emit_gameOver (g : GameBoard) : GameBoard :=
  if dialog then GameDialog_onGameOver g else g.

(** The outcome evaluation after a move.  [onCellClicked] and [aiMove] each
    write it out; the two copies differ only in the name they pass to
    [gameOver].  Both end with [disableBoard(); gameActive = false;]. *)
Definition evaluate_outcome (g : GameBoard) : GameBoard :=
  if checkWinner g (currentPlayer g)
  then deactivate (disableBoard (emit_gameOver g))
  else if isFull g
  then deactivate (disableBoard (emit_gameOver g))
  else switchPlayer g.

(** [onCellClicked] when the sender is [buttons[i][j]].  The search through
    [buttons] finds it exactly when [i] and [j] are below 3; otherwise
    [row] stays -1 and the slot returns. *)
Definition onCellClicked (g : GameBoard) (i j : nat) : GameBoard :=
  if negb (gameActive g) then g
  else if negb ((i <? 3)%nat && (j <? 3)%nat) then g
  else
    match makeMove g (Z.of_nat i) (Z.of_nat j) (currentPlayer g) with
    | (true, g1) => evaluate_outcome g1
    | (false, g1) => g1
    end.

(** [aiMove], the slot of the timer armed by [triggerAiMove]. *)
Definition aiMove (g : GameBoard) : option GameBoard :=
  if negb (gameActive g) || negb (Ascii.eqb (currentPlayer g) "O")
     || negb (gameMode g =? 2)%Z
  then Some g
  else
    match findBestMove g with
    | None => None
    | Some (bestMove, g0) =>
        if negb (qx bestMove =? -1)%Z && negb (qy bestMove =? -1)%Z
        then
          let '(_, g1) :=
            makeMove g0 (qx bestMove) (qy bestMove) (currentPlayer g0) in
          Some (evaluate_outcome g1)
        else Some g0
    end.

(** One event of the controller: a click on a grid button, or the timer
    slot.  [switchPlayer] only arms the timer through [triggerAiMove]; the
    timer lives in the event loop, so [aiMove] is an event of its own and
    re-checks mode, side and activity when it runs.  Each slot is taken from
    its call to its return; with the slot of the dialog connected, the events
    that occur in between, inside the message box, are those of [fire]. *)
Inductive step : GameBoard -> GameBoard -> Prop :=
| step_click g i j : step g (onCellClicked g i j)
| step_ai g g' : aiMove g = Some g' -> step g g'.

Inductive reachable (g0 : GameBoard) : GameBoard -> Prop :=
| reach_start : reachable g0 g0
| reach_step g g' : reachable g0 g -> step g g' -> reachable g0 g'.

End Controller.

(** ** Play with the computer moving first *)

(** A board in computer-opponent mode on which O is to move. *)
Definition ai_first_start : GameBoard :=
  mkGameBoard empty_board "O" true 2.

(** Play on a board without a dialog: the timer slot moves for O, and any
    click moves for X (a click on an occupied cell is rejected by
    [makeMove] and changes nothing). *)
Inductive ai_first_play : GameBoard -> Prop :=
| play_start : ai_first_play ai_first_start
| play_ai g g' :
    ai_first_play g -> currentPlayer g = "O" -> aiMove false g = Some g' ->
    ai_first_play g'
| play_human g i j :
    ai_first_play g -> currentPlayer g = "X" ->
    ai_first_play (onCellClicked false g i j).

(** The position after the computer has opened on the first cell of the scan
    and X has answered in the centre. *)
Definition ai_first_reply : GameBoard :=
  mkGameBoard [ ["O"; " "; " "]; [" "; "X"; " "]; [" "; " "; " "] ] "O" true 2.

(** ** Vocabulary of the specification *)

(** The cells of the grid in the order both search loops scan them. *)
Definition scan_cells : list (nat * nat) :=
  i ← seq 0 3; j ← seq 0 3; [(i, j)].

(** Row-major order of two cells. *)
Definition scanned_before (c c' : nat * nat) : Prop :=
  (c.1 < c'.1)%nat \/ (c.1 = c'.1 /\ (c.2 < c'.2)%nat).

(** The eight winning lines: three rows, three columns, two diagonals. *)
Definition winning_lines : list (list (nat * nat)) :=
  [ [(0,0); (0,1); (0,2)]; [(1,0); (1,1); (1,2)]; [(2,0); (2,1); (2,2)];
    [(0,0); (1,0); (2,0)]; [(0,1); (1,1); (2,1)]; [(0,2); (1,2); (2,2)];
    [(0,0); (1,1); (2,2)]; [(0,2); (1,1); (2,0)] ]%nat.

(** All cells of the line hold [player]'s mark. *)
Definition line_owned (b : Board) (player : ascii) (line : list (nat * nat))
    : bool :=
  forallb (fun c => holds b c.1 c.2 player) line.

Definition has_line (b : Board) (player : ascii) : bool :=
  existsb (line_owned b player) winning_lines.

(** Number of Empty cells among the nine scanned ones. *)
Definition blanks (b : Board) : nat :=
  length (List.filter (fun c => holds b c.1 c.2 " ") scan_cells).

(** Exhaustive check of [ai_first_play] from [g]: X never owns a line,
    whatever cell X clicks, for as long as the game runs. *)
Fixpoint o_first_safe (n : nat) (g : GameBoard) : bool :=
  negb (checkWinner g "X") &&
  (if negb (gameActive g) then true
   else
     match n with
     | O => false
     | S n' =>
         if Ascii.eqb (currentPlayer g) "O" then
           match aiMove false g with
           | Some g' => o_first_safe n' g'
           | None => false
           end
         else
           forallb (fun c =>
             if holds (board g) c.1 c.2 " "
             then o_first_safe n' (onCellClicked false g c.1 c.2)
             else true) scan_cells
     end).

(** ** The loop bodies of the search, named for the proofs *)

(** Body of the scan in [minimax]: [rec] is the recursive call, [mark] the
    mark placed and [pick] is [std::max] or [std::min]. *)
Definition explore (rec : Board -> option (Z * Board)) (mark : ascii)
    (pick : Z -> Z -> Z) (c : nat * nat) (st : Z * Board)
    : option (Z * Board) :=
  let '(bestScore, cb) := st in
  if holds cb c.1 c.2 " " then
    match rec (set_cell cb c.1 c.2 mark) with
    | Some (score, _) =>
        Some (pick bestScore score,
              set_cell (set_cell cb c.1 c.2 mark) c.1 c.2 " ")
    | None => None
    end
  else Some (bestScore, cb).

(** Body of the scan in [findBestMove]. *)
Definition choose (c : nat * nat) (st : Z * QPoint * Board)
    : option (Z * QPoint * Board) :=
  let '(bestScore, bestMove, bc) := st in
  if holds bc c.1 c.2 " " then
    match minimax (set_cell bc c.1 c.2 "O") "X" with
    | Some score =>
        let bc2 := set_cell (set_cell bc c.1 c.2 "O") c.1 c.2 " " in
        if (score >? bestScore)%Z
        then Some (score, mkQPoint (Z.of_nat c.1) (Z.of_nat c.2), bc2)
        else Some (bestScore, bestMove, bc2)
    | None => None
    end
  else Some (bestScore, bestMove, bc).

(** The score a call returns, 0 standing in when it returns none. *)
Definition value_of (r : option (Z * Board)) : Z :=
  match r with
  | Some (v, _) => v
  | None => 0%Z
  end.

(** The three scores of a finished game. *)
Definition leaf_score (v : Z) : Prop :=
  v = (-10)%Z \/ v = 0%Z \/ v = 10%Z.

(** The score [findBestMove] computes for an Empty cell [c]. *)
Definition score_at (b : Board) (c : nat * nat) : Z :=
  value_of (minimax_rec call_budget (set_cell b c.1 c.2 "O") "X").

(** What one step of the scan in [findBestMove] does to [bestScore] and
    [bestMove] on board [b]. *)
Definition keep_best (b : Board) (st : Z * QPoint) (c : nat * nat)
    : Z * QPoint :=
  if holds b c.1 c.2 " " then
    if (score_at b c >? st.1)%Z
    then (score_at b c, mkQPoint (Z.of_nat c.1) (Z.of_nat c.2))
    else st
  else st.

(** The position of the worked example: X X . / O O . / . . . with O to move. *)
Definition example_board : Board :=
  [ ["X"; "X"; " "]; ["O"; "O"; " "]; [" "; " "; " "] ].

Definition example_game : GameBoard :=
  mkGameBoard example_board "O" true 2.

(** A finished position on which X owns the top row. *)
Definition x_row_board : Board :=
  [ ["X"; "X"; "X"]; ["O"; "O"; " "]; [" "; " "; " "] ].

(** What the controller maintains: the current player is X or O, nobody
    owns a line while the game is active, and never both players at once. *)
Definition controller_inv (g : GameBoard) : Prop :=
  (currentPlayer g = "X" \/ currentPlayer g = "O") /\
  (gameActive g = true ->
     checkWinner g "X" = false /\ checkWinner g "O" = false) /\
  checkWinner g "X" && checkWinner g "O" = false.

(** After the current player's move the other player owns no line. *)
Definition mover_only (g : GameBoard) : Prop :=
  (currentPlayer g = "X" /\ checkWinner g "O" = false) \/
  (currentPlayer g = "O" /\ checkWinner g "X" = false).

(** ** The rest of [GameBoard] *)

(** [getAvailableMoves]: the Empty cells of [b], pushed in scan order. *)
Definition getAvailableMoves (b : Board) : list QPoint :=
  foldl (fun moves i =>
    foldl (fun moves j =>
      if holds b i j " "
      then moves ++ [mkQPoint (Z.of_nat i) (Z.of_nat j)]
      else moves) moves (seq 0 3)) [] (seq 0 3).

(** The style sheets the board gives a grid button: the one of
    [resetBoard], and the two of [updateButtonText]. *)
Inductive ButtonStyle := StyleReset | StyleX | StyleOther.

(** What the board sets on a [QPushButton] of the grid. *)
Record Button := mkButton {
  buttonText : string;
  buttonEnabled : bool;
  buttonStyle : ButtonStyle
}.

(** The buttons as [resetBoard] leaves them. *)
Definition buttons_reset : list (list Button) :=
  replicate 3 (replicate 3 (mkButton EmptyString true StyleReset)).

(** [buttons[i][j]] *)
Definition button (buttons : list (list Button)) (i j : nat) : option Button :=
  buttons !! i ≫= (.!! j).

(** [updateButtonText]: the text, [setEnabled(false)], and the style sheet
    for X or the other one. *)
Definition updateButtonText (buttons : list (list Button)) (row col : nat)
    (text : ascii) : list (list Button) :=
  alter (alter (fun _ =>
    mkButton (String text EmptyString) false
             (if Ascii.eqb text "X" then StyleX else StyleOther)) col)
    row buttons.

(** [makeMove] together with the buttons: [updateButtonText] is called right
    after the cell is written, and only then. *)
Definition makeMove_buttons (g : GameBoard) (buttons : list (list Button))
    (row col : Z) (player : ascii) : bool * GameBoard * list (list Button) :=
  match makeMove g row col player with
  | (true, g1) =>
      (true, g1, updateButtonText buttons (Z.to_nat row) (Z.to_nat col) player)
  | (false, g1) => (false, g1, buttons)
  end.

(** Number of cells of the grid that hold [p]. *)
Definition marks (b : Board) (p : ascii) : nat :=
  length (List.filter (fun c => holds b c.1 c.2 p) scan_cells).

(** Every stored cell is Empty, X or O. *)
Definition legal_marks (b : Board) : Prop :=
  Forall (Forall (fun ch => ch = " " \/ ch = "X" \/ ch = "O")) b.

(** The point [findBestMove] builds for cell [c]. *)
Definition point_of (c : nat * nat) : QPoint :=
  mkQPoint (Z.of_nat c.1) (Z.of_nat c.2).

(** The board right after the current player has placed a mark: 3x3, legal
    marks, and the mover one mark ahead (X) or level (O). *)
Definition moved_inv (g : GameBoard) : Prop :=
  wf_board (board g) /\ legal_marks (board g) /\
  ((currentPlayer g = "X" /\ marks (board g) "X" = S (marks (board g) "O")) \/
   (currentPlayer g = "O" /\ marks (board g) "X" = marks (board g) "O")).

(** What the controller maintains about the position. *)
Definition position_inv (g : GameBoard) : Prop :=
  wf_board (board g) /\ legal_marks (board g) /\
  (marks (board g) "X" = marks (board g) "O" \/
   marks (board g) "X" = S (marks (board g) "O")) /\
  (gameActive g = true ->
     isFull g = false /\
     ((currentPlayer g = "X" /\ marks (board g) "X" = marks (board g) "O") \/
      (currentPlayer g = "O" /\
       marks (board g) "X" = S (marks (board g) "O")))).

(** Play in computer-opponent mode on a board without a dialog, from [g0]:
    the timer slot moves when O is the current player, a click moves when X
    is. *)
Inductive turn_play (g0 : GameBoard) : GameBoard -> Prop :=
| turn_start : turn_play g0 g0
| turn_ai g g' :
    turn_play g0 g -> currentPlayer g = "O" -> aiMove false g = Some g' ->
    turn_play g0 g'
| turn_human g i j :
    turn_play g0 g -> currentPlayer g = "X" ->
    turn_play g0 (onCellClicked false g i j).

(** Exhaustive check that [ok] holds on every board of [turn_play] from
    [g]. *)
Fixpoint play_check (ok : GameBoard -> bool) (n : nat) (g : GameBoard)
    : bool :=
  ok g &&
  (if negb (gameActive g) then true
   else
     match n with
     | O => false
     | S n' =>
         if Ascii.eqb (currentPlayer g) "O" then
           match aiMove false g with
           | Some g' => play_check ok n' g'
           | None => false
           end
         else
           forallb (fun c =>
             if holds (board g) c.1 c.2 " "
             then play_check ok n' (onCellClicked false g c.1 c.2)
             else true) scan_cells
     end).

(** X owns no line, and a game that has ended was won by O or filled the
    board. *)
Definition computer_not_beaten (g : GameBoard) : bool :=
  negb (checkWinner g "X") &&
  (gameActive g || checkWinner g "O" || isFull g).

(** The score of the position after [mark] is placed on cell [c] of [cb]
    and [next] is to move. *)
Definition child_score (cb : Board) (mark next : ascii) (c : nat * nat) : Z :=
  value_of (minimax_rec call_budget (set_cell cb c.1 c.2 mark) next).

(** ** Records of a game, metrics, and the game dialog *)

Record Move := mkMove { row : Z; col : Z; player : ascii }.

Record GameRecord := mkGameRecord {
  mode : string;
  winner : string;
  moves : list Move;
  timestamp : string
}.

(** The counters of [GameMetrics].  [gameDurations] and [gameTimer] hold
    clock readings only.  The counters are [int]; they are taken as integers,
    since one of them overflows only after 2^31 games. *)
Record GameMetrics := mkGameMetrics {
  totalGames : Z;
  playerWins : Z;
  aiWins : Z;
  draws : Z
}.

Definition GameMetrics_new : GameMetrics := mkGameMetrics 0 0 0 0.

Definition endGame (gm : GameMetrics) (winnerName : string) : GameMetrics :=
  if ((winnerName =? "You") || (winnerName =? "Player 1")
      || (winnerName =? "Player 2"))%string
  then mkGameMetrics (totalGames gm + 1) (playerWins gm + 1) (aiWins gm) (draws gm)
  else if (winnerName =? "AI")%string
  then mkGameMetrics (totalGames gm + 1) (playerWins gm) (aiWins gm + 1) (draws gm)
  else mkGameMetrics (totalGames gm + 1) (playerWins gm) (aiWins gm) (draws gm + 1).

(** The members of [GameDialog] that carry game state.  [dialogMode] and
    [dialogMoves] are its [gameMode] and [moves]; [gameBoard] is [None] for
    the null pointer the constructor leaves. *)
Record GameDialog := mkGameDialog {
  gameBoard : option GameBoard;
  dialogMode : Z;
  dialogMoves : list Move
}.

(** The dialog together with the static members [MainWindow::gameHistory]
    and [MainWindow::gameMetrics] that its slots write. *)
Record Session := mkSession {
  gameDialog : GameDialog;
  gameHistory : list GameRecord;
  gameMetrics : GameMetrics
}.

(** [GameDialog::startGame]: a new board in the given mode, no moves.
    [gameMetrics.startGame()] only starts a timer. *)
Definition startGame (s : Session) (m : Z) : Session :=
  mkSession (mkGameDialog (Some (GameBoard_new m)) m [])
            (gameHistory s) (gameMetrics s).

(** [GameDialog::recordMove], the slot of [moveMade]. *)
Definition recordMove (d : GameDialog) (r c : Z) (p : ascii) : GameDialog :=
  mkGameDialog (gameBoard d) (dialogMode d) (dialogMoves d ++ [mkMove r c p]).

(** [GameDialog::onGameOver], the slot of [gameOver], from the line after
    [QMessageBox::information] on: [s] is the session as it is when the
    message box has been closed, [now] the text of the date and time then.
    [saveGameHistory] writes the record to the database and changes no
    member. *)
Definition onGameOver (now : string) (s : Session) (winnerName : string)
    : Session :=
  let record :=
    mkGameRecord (if (dialogMode (gameDialog s) =? 1)%Z then "PvP" else "PvAI")
                 winnerName (dialogMoves (gameDialog s)) now in
  mkSession
    (mkGameDialog (GameDialog_onGameOver <$> gameBoard (gameDialog s))
                  (dialogMode (gameDialog s)) [])
    (gameHistory s ++ [record])
    (endGame (gameMetrics s) winnerName).

(** The object [gameBoard] points to, after one of its slots has run. *)
Definition with_board (s : Session) (g : GameBoard) : Session :=
  mkSession (mkGameDialog (Some g) (dialogMode (gameDialog s))
                          (dialogMoves (gameDialog s)))
            (gameHistory s) (gameMetrics s).

(** [disableBoard(); gameActive = false;] on the dialog's board. *)
Definition board_over (s : Session) : Session :=
  mkSession (mkGameDialog ((fun g => deactivate (disableBoard g))
                             <$> gameBoard (gameDialog s))
                          (dialogMode (gameDialog s))
                          (dialogMoves (gameDialog s)))
            (gameHistory s) (gameMetrics s).

(** [emit gameOver(winnerName)] calls [onGameOver] at once, and [onGameOver]
    begins by showing a modal message box: the emitting slot waits inside
    [QMessageBox::information] until the box is closed, and meanwhile the
    event loop of the box delivers timer events.  The two slots below
    therefore return the session as it is at the [emit] together with the
    name they pass, or [None] for the name when they return without an
    [emit]; what follows the [emit] is run by [fire] when the box closes. *)

(** [GameBoard::onCellClicked] on the dialog's board, with [moveMade] and
    [gameOver] connected as [startGame] connects them. *)
Definition session_onCellClicked (s : Session) (i j : nat)
    : Session * option string :=
  match gameBoard (gameDialog s) with
  | None => (s, None)
  | Some g =>
      if negb (gameActive g) then (s, None)
      else if negb ((i <? 3)%nat && (j <? 3)%nat) then (s, None)
      else
        match makeMove g (Z.of_nat i) (Z.of_nat j) (currentPlayer g) with
        | (true, g1) =>
            let s1 :=
              mkSession (recordMove (gameDialog (with_board s g1))
                           (Z.of_nat i) (Z.of_nat j) (currentPlayer g1))
                        (gameHistory s) (gameMetrics s) in
            if checkWinner g1 (currentPlayer g1) then
              let winnerName :=
                if (gameMode g1 =? 1)%Z
                then (if Ascii.eqb (currentPlayer g1) "X"
                      then "Player 1" else "Player 2")%string
                else (if Ascii.eqb (currentPlayer g1) "X"
                      then "You" else "AI")%string in
              (s1, Some winnerName)
            else if isFull g1 then (s1, Some "Draw"%string)
            else (with_board s1 (switchPlayer g1), None)
        | (false, _) => (s, None)
        end
  end.

(** [GameBoard::aiMove] on the dialog's board, with the same connections.
    [moveMade] is emitted whatever [makeMove] returned. *)
Definition session_aiMove (s : Session) : option (Session * option string) :=
  match gameBoard (gameDialog s) with
  | None => Some (s, None)
  | Some g =>
      if negb (gameActive g) || negb (Ascii.eqb (currentPlayer g) "O")
         || negb (gameMode g =? 2)%Z
      then Some (s, None)
      else
        match findBestMove g with
        | None => None
        | Some (bestMove, g0) =>
            if negb (qx bestMove =? -1)%Z && negb (qy bestMove =? -1)%Z
            then
              let '(_, g1) :=
                makeMove g0 (qx bestMove) (qy bestMove) (currentPlayer g0) in
              let s1 :=
                mkSession (recordMove (gameDialog (with_board s g1))
                             (qx bestMove) (qy bestMove) (currentPlayer g1))
                          (gameHistory s) (gameMetrics s) in
              if checkWinner g1 (currentPlayer g1)
              then Some (s1, Some "AI"%string)
              else if isFull g1
              then Some (s1, Some "Draw"%string)
              else Some (with_board s1 (switchPlayer g1), None)
            else Some (with_board s g0, None)
        end
  end.

(** The dialog as its constructor leaves it, with the history [h0] that
    signing in has loaded. *)
Definition Session_new (h0 : list GameRecord) : Session :=
  mkSession (mkGameDialog None 0 []) h0 GameMetrics_new.

(** The application while the game dialog is up: the session, and the
    message boxes of [onGameOver] that are open, innermost first, each with
    the name its [onGameOver] was called with.  For every open box one slot
    of the board waits at its [emit]. *)
Record App := mkApp {
  session : Session;
  openBoxes : list string
}.

Definition App_new (h0 : list GameRecord) : App :=
  mkApp (Session_new h0) [].

(** A slot of the board has returned, or waits at its [emit] in a new
    message box. *)
Definition after_slot (a : App) (r : Session * option string) : App :=
  match r with
  | (s, Some winnerName) => mkApp s (winnerName :: openBoxes a)
  | (s, None) => mkApp s (openBoxes a)
  end.

(** What the event loop delivers: a mode button of the dialog, which runs
    [startGame]; a click on a grid button; the timer armed by
    [triggerAiMove]; the closing of the innermost message box, at the time
    [now]. *)
Inductive Event :=
| StartGame (m : Z)
| CellClick (i j : nat)
| AiTimer
| BoxClosed (now : string).

(** One event; [None] when the event cannot occur, or when the search of
    [aiMove] does not return.  A message box is modal: while one is open no
    click reaches the dialog or the board, but timers go on firing.  When
    the innermost box is closed, the rest of its [onGameOver] runs and then
    the rest of the slot that waited at the [emit], which in both slots is
    [disableBoard(); gameActive = false;]. *)
Definition fire (a : App) (e : Event) : option App :=
  match e with
  | StartGame m =>
      match openBoxes a with
      | [] => Some (mkApp (startGame (session a) m) [])
      | _ :: _ => None
      end
  | CellClick i j =>
      match openBoxes a with
      | [] => Some (after_slot a (session_onCellClicked (session a) i j))
      | _ :: _ => None
      end
  | AiTimer => after_slot a <$> session_aiMove (session a)
  | BoxClosed now =>
      match openBoxes a with
      | winnerName :: rest =>
          Some (mkApp (board_over (onGameOver now (session a) winnerName)) rest)
      | [] => None
      end
  end.

Inductive app_reachable (a0 : App) : App -> Prop :=
| areach_start : app_reachable a0 a0
| areach_step a e a' :
    app_reachable a0 a -> fire a e = Some a' -> app_reachable a0 a'.

(** The events [es], one after the other. *)
Definition run (es : list Event) (a : App) : option App :=
  for_each es (fun e a => fire a e) a.

(** Replaying recorded moves through [makeMove]; [None] when one of them is
    rejected. *)
Fixpoint replay (ms : list Move) (g : GameBoard) : option GameBoard :=
  match ms with
  | [] => Some g
  | m :: rest =>
      match makeMove g (row m) (col m) (player m) with
      | (true, g1) => replay rest g1
      | (false, _) => None
      end
  end.

(** A record agrees with the game it was taken from: its moves are moves
    of X and O, replaying them on a new board is accepted move by move and
    ends on a board where the player of the last move owns a line and the
    record names that player, or on a full board without a line, recorded
    as a draw. *)
Definition record_consistent (r : GameRecord) : Prop :=
  exists m ms lm g,
    moves r = ms ++ [lm] /\
    Forall (fun mv => player mv = "X" \/ player mv = "O") (moves r) /\
    replay (moves r) (GameBoard_new m) = Some g /\
    mode r = (if (m =? 1)%Z then "PvP" else "PvAI")%string /\
    ((checkWinner g (player lm) = true /\
      ((player lm = "X" /\
        winner r = (if (m =? 1)%Z then "Player 1" else "You")%string) \/
       (player lm = "O" /\
        winner r = (if (m =? 1)%Z then "Player 2" else "AI")%string))) \/
     (checkWinner g "X" = false /\ checkWinner g "O" = false /\
      isFull g = true /\ winner r = "Draw"%string)).

(** A record without moves, under the computer's name. *)
Definition record_emptied (r : GameRecord) : Prop :=
  moves r = [] /\ winner r = "AI"%string /\ mode r = "PvAI"%string.

(** The position of the game in progress in [s], as its moves record it. *)
Definition moves_match_board (s : Session) : Prop :=
  match gameBoard (gameDialog s) with
  | None => dialogMoves (gameDialog s) = []
  | Some g =>
      gameMode g = dialogMode (gameDialog s) /\
      Forall (fun mv => player mv = "X" \/ player mv = "O")
             (dialogMoves (gameDialog s)) /\
      replay (dialogMoves (gameDialog s)) (GameBoard_new (gameMode g))
      = Some (mkGameBoard (board g) "X" true (gameMode g))
  end.

(** The name [onCellClicked] passes to [gameOver] when [p] has won in
    board mode [m]. *)
Definition winner_name (m : Z) (p : ascii) : string :=
  if (m =? 1)%Z
  then (if Ascii.eqb p "X" then "Player 1" else "Player 2")%string
  else (if Ascii.eqb p "X" then "You" else "AI")%string.

(** What both slots do after the move that produced [g1]: record it, then
    end the game under [winName] or as a draw, or pass the turn. *)
Definition conclude (s : Session) (g1 : GameBoard) (r c : Z)
    (winName : string) : Session * option string :=
  let s1 :=
    mkSession (recordMove (gameDialog (with_board s g1)) r c (currentPlayer g1))
              (gameHistory s) (gameMetrics s) in
  if checkWinner g1 (currentPlayer g1) then (s1, Some winName)
  else if isFull g1 then (s1, Some "Draw"%string)
  else (with_board s1 (switchPlayer g1), None).

(** The session while a slot waits at [emit gameOver(winnerName)] and no
    timer slot has changed anything since: the flag is still set, the last
    recorded move is the mover's, and the mover owns a line, or nobody does
    and the board is full. *)
Definition game_ended (s : Session) (winnerName : string) : Prop :=
  exists g ms lm,
    gameBoard (gameDialog s) = Some g /\ gameActive g = true /\
    dialogMoves (gameDialog s) = ms ++ [lm] /\
    player lm = currentPlayer g /\
    ((checkWinner g (currentPlayer g) = true /\
      winnerName = winner_name (gameMode g) (currentPlayer g)) \/
     (checkWinner g "X" = false /\ checkWinner g "O" = false /\
      isFull g = true /\ winnerName = "Draw"%string)).

(** The session in a message box inside which a timer slot has ended the
    game once more: that slot's own [onGameOver] has emptied the board and
    the recorded moves, and the slot has disabled the board. *)
Definition game_cleared (s : Session) (winnerName : string) : Prop :=
  gameBoard (gameDialog s) = Some (mkGameBoard empty_board "X" false 2) /\
  dialogMoves (gameDialog s) = [] /\ winnerName = "AI"%string.

(** What the application maintains, [h0] being the history it started
    with. *)
Definition app_inv (h0 : list GameRecord) (a : App) : Prop :=
  (exists news,
     gameHistory (session a) = h0 ++ news /\
     Forall (fun r => record_consistent r \/ record_emptied r) news /\
     gameMetrics (session a)
     = fold_left endGame (map winner news) GameMetrics_new) /\
  moves_match_board (session a) /\
  (forall g, gameBoard (gameDialog (session a)) = Some g ->
     wf_board (board g) /\ legal_marks (board g) /\
     (currentPlayer g = "X" \/ currentPlayer g = "O")) /\
  match openBoxes a with
  | [] =>
      forall g, gameBoard (gameDialog (session a)) = Some g ->
        controller_inv g /\ position_inv g
  | winnerName :: rest =>
      (game_ended (session a) winnerName
       \/ game_cleared (session a) winnerName) /\
      Forall (fun w => w = "AI"%string) rest /\
      (rest <> [] -> dialogMode (gameDialog (session a)) = 2%Z)
  end.

(** A game against the computer in which the clicks come faster than the
    timer: O's marks are clicked too, the sixth click completes O's top row,
    and the timer fires while the message box is open. *)
Definition hasty_clicks : list Event :=
  [ StartGame 2; CellClick 1 1; CellClick 0 0; CellClick 1 0; CellClick 0 1;
    CellClick 2 2; CellClick 0 2 ].

Definition hasty_moves : list Move :=
  [ mkMove 1 1 "X"; mkMove 0 0 "O"; mkMove 1 0 "X"; mkMove 0 1 "O";
    mkMove 2 2 "X"; mkMove 0 2 "O" ].

(** After [hasty_clicks]: the message box of the sixth click is open. *)
Definition hasty_box : App :=
  mkApp
    (mkSession
       (mkGameDialog
          (Some (mkGameBoard
                   [ ["O"; "O"; "O"]; ["X"; "X"; " "]; [" "; " "; "X"] ]
                   "O" true 2))
          2 hasty_moves)
       [] GameMetrics_new)
    [ "AI"%string ].

(** Then the timer has fired inside that box, and its slot waits in a box
    of its own. *)
Definition hasty_inner : App :=
  mkApp
    (mkSession
       (mkGameDialog
          (Some (mkGameBoard
                   [ ["O"; "O"; "O"]; ["X"; "X"; "O"]; [" "; " "; "X"] ]
                   "O" true 2))
          2 (hasty_moves ++ [mkMove 1 2 "O"]))
       [] GameMetrics_new)
    [ "AI"%string; "AI"%string ].

(** Then both boxes have been closed, one at noon and one at one. *)
Definition hasty_app : App :=
  mkApp
    (mkSession
       (mkGameDialog (Some (mkGameBoard empty_board "X" false 2)) 2 [])
       [ mkGameRecord "PvAI" "AI" (hasty_moves ++ [mkMove 1 2 "O"]) "noon";
         mkGameRecord "PvAI" "AI" [] "one" ]
       (mkGameMetrics 2 0 2 0))
    [].

(** ** The replay dialog *)

(** The members of [ReplayDialog] that carry state: the moves, the index of
    the next one, the texts of the nine labels, and whether the timer
    runs. *)
Record ReplayDialog := mkReplayDialog {
  movesToReplay : list Move;
  moveIndex : Z;
  cellLabels : list string;
  timerActive : bool
}.

(** The constructor: [initializeBoard] makes nine labels with empty text and
    the timer is started. *)
Definition ReplayDialog_new (ms : list Move) : ReplayDialog :=
  mkReplayDialog ms 0 (replicate 9 ""%string) true.

(** Arithmetic on [int], 32 bits wide: a result outside -2^31 .. 2^31-1 is
    reduced into that range, the way the compiled program wraps around. *)
Definition int_wrap (z : Z) : Z :=
  ((z + 2147483648) mod 4294967296 - 2147483648)%Z.

Definition int_mul (a b : Z) : Z := int_wrap (a * b).

Definition int_add (a b : Z) : Z := int_wrap (a + b).

(** [playNextMove], the slot of the timer.  [index] is an [int], computed
    from the [int] members of the move. *)
Definition playNextMove (d : ReplayDialog) : ReplayDialog :=
  if (moveIndex d >=? Z.of_nat (length (movesToReplay d)))%Z
  then mkReplayDialog (movesToReplay d) (moveIndex d) (cellLabels d) false
  else
    match movesToReplay d !! Z.to_nat (moveIndex d) with
    | None => d
    | Some m =>
        let index := int_add (int_mul (row m) 3) (col m) in
        mkReplayDialog (movesToReplay d) (moveIndex d + 1)
          (if (0 <=? index)%Z && (index <? Z.of_nat (length (cellLabels d)))%Z
           then <[Z.to_nat index := String (player m) EmptyString]> (cellLabels d)
           else cellLabels d)
          (timerActive d)
    end.

(** [GameDialog::onComboBoxActivated] on the history [hist]: the replay
    dialog it opens, or [None] when it only shows a warning. *)
Definition onComboBoxActivated (hist : list GameRecord) (index : Z)
    : option ReplayDialog :=
  if (index <=? 0)%Z || (index >? Z.of_nat (length hist))%Z then None
  else
    match hist !! Z.to_nat (index - 1) with
    | None => None
    | Some record =>
        match moves record with
        | [] => None
        | _ => Some (ReplayDialog_new (moves record))
        end
    end.

(** The text a label shows for a cell of the board: nothing for Empty, the
    mark otherwise. *)
Definition shown (b : Board) (i j : nat) : string :=
  match cell b i j with
  | Some ch => if Ascii.eqb ch " " then EmptyString else String ch EmptyString
  | None => EmptyString
  end.

(** The label texts after one move is drawn: the label whose index is
    [row * 3 + col], computed in [int], when that index is one of the labels,
    and no label otherwise. *)
Definition draw (labels : list string) (m : Move) : list string :=
  if (0 <=? int_add (int_mul (row m) 3) (col m))%Z
     && (int_add (int_mul (row m) 3) (col m) <? Z.of_nat (length labels))%Z
  then <[Z.to_nat (int_add (int_mul (row m) 3) (col m))
         := String (player m) EmptyString]> labels
  else labels.

(** The labels show the cells of [b]. *)
Definition labels_show (labels : list string) (b : Board) : Prop :=
  length labels = 9%nat /\
  forall i j, (i < 3)%nat -> (j < 3)%nat ->
    labels !! (3 * i + j)%nat = Some (shown b i j).

(** ** The text of the moves in the database *)

(** [QString::split(sep)] for a separator of one character, with empty parts
    kept as Qt does when called with one argument: the pieces between the
    occurrences of [sep], so one piece more than there are occurrences. *)
Fixpoint split (sep : ascii) (s : string) : list string :=
  match s with
  | EmptyString => [EmptyString]
  | String ch rest =>
      if Ascii.eqb ch sep then EmptyString :: split sep rest
      else
        match split sep rest with
        | piece :: pieces => String ch piece :: pieces
        | [] => [String ch EmptyString]
        end
  end.

(** The text [saveGameRecord] builds for the [moves] column.  [number] is
    [QString::number(int)]. *)
Definition saveGameRecord_movesStr (number : Z -> string)
    (record : GameRecord) : string :=
  foldl (fun movesStr i =>
    match moves record !! i with
    | Some m =>
        let movesStr1 :=
          (movesStr ++
           ((((number (row m) ++ "-") ++ number (col m)) ++ "-")
            ++ String (player m) EmptyString))%string in
        if (i <? length (moves record) - 1)%nat
        then (movesStr1 ++ ";")%string
        else movesStr1
    | None => movesStr
    end) EmptyString (seq 0 (length (moves record))).

(** The moves [loadGameHistory] reads back from the text of the [moves]
    column.  [toInt] is [QString::toInt()].  The result is [None] when the
    loop takes [at(0)] of an empty third part.  Texts are taken to hold
    Latin-1 characters, on which [toLatin1] changes nothing. *)
Definition loadGameHistory_moves (toInt : string -> Z) (movesStr : string)
    : option (list Move) :=
  match movesStr with
  | EmptyString => Some []
  | _ =>
      for_each (split ";" movesStr) (fun token recordMoves =>
        match split "-" token with
        | [p0; p1; p2] =>
            match p2 with
            | String ch _ =>
                Some (recordMoves ++ [mkMove (toInt p0) (toInt p1) ch])
            | EmptyString => None
            end
        | _ => Some recordMoves
        end) []
  end.

(** Whether [ch] occurs in [s]. *)
Fixpoint contains (ch : ascii) (s : string) : bool :=
  match s with
  | EmptyString => false
  | String c rest => Ascii.eqb c ch || contains ch rest
  end.

(** What the round trip needs of Qt: on the non-negative values of [int],
    [number] writes digits only and [toInt] reads the number back. *)
Definition qt_int_text (number : Z -> string) (toInt : string -> Z) : Prop :=
  forall n, (0 <= n <= 2147483647)%Z ->
    toInt (number n) = n /\
    contains "-" (number n) = false /\ contains ";" (number n) = false.

(** The text of one move. *)
Definition move_text (number : Z -> string) (m : Move) : string :=
  (number (row m) ++ String "-" (number (col m)
     ++ String "-" (String (player m) EmptyString)))%string.

(** Texts joined by semicolons. *)
Fixpoint join_semicolon (ts : list string) : string :=
  match ts with
  | [] => EmptyString
  | [t] => t
  | t :: rest => (t ++ String ";" (join_semicolon rest))%string
  end.

(** Decimal text and its reading, after the Standard Library. *)
Definition decimal_number (n : Z) : string :=
  DecimalString.NilZero.string_of_int (Z.to_int n).

Definition decimal_toInt (s : string) : Z :=
  match DecimalString.NilZero.int_of_string s with
  | Some d => Z.of_int d
  | None => 0%Z
  end.

(** ** Users and signing in *)

(** A row of the [users] table.  The database is taken to be open and to
    execute every statement it is given, so an INSERT fails only on the
    UNIQUE constraint of [username]. *)
Record UserRow := mkUserRow {
  username : string;
  password_hash : string;
  salt : string
}.

(** [DatabaseManager::hashPassword]; [sha256] stands for the hexadecimal
    SHA-256 digest of the UTF-8 text. *)
Definition hashPassword (sha256 : string -> string) (password saltText : string)
    : string :=
  sha256 (password ++ saltText)%string.

(** [SELECT ... FROM users WHERE username = ?] followed by [query.next()]. *)
Definition select_user (users : list UserRow) (name : string)
    : option UserRow :=
  List.find (fun r => (username r =? name)%string) users.

(** [saveUser]; [newSalt] is the text [generateSalt] draws. *)
Definition saveUser (sha256 : string -> string) (users : list UserRow)
    (name password newSalt : string) : bool * list UserRow :=
  match select_user users name with
  | Some _ => (false, users)
  | None =>
      (true, users ++ [mkUserRow name (hashPassword sha256 password newSalt)
                                 newSalt])
  end.

Definition verifyUser (sha256 : string -> string) (users : list UserRow)
    (name password : string) : bool :=
  match select_user users name with
  | Some r =>
      (password_hash r =? hashPassword sha256 password (salt r))%string
  | None => false
  end.

(** [updateUserPassword]: true when the UPDATE affected a row. *)
Definition updateUserPassword (sha256 : string -> string)
    (users : list UserRow) (name newPassword newSalt : string)
    : bool * list UserRow :=
  (existsb (fun r => (username r =? name)%string) users,
   map (fun r =>
          if (username r =? name)%string
          then mkUserRow (username r)
                 (hashPassword sha256 newPassword newSalt) newSalt
          else r) users).

(** The state the sign-in page works on: the static [currentUser] and
    [gameHistory] of [MainWindow], the static local [signInAttempts] of
    [signInButtonClicked], the index of the stacked widget, and the [users]
    table. *)
Record MainWindow := mkMainWindow {
  currentUser : string;
  windowHistory : list GameRecord;
  signInAttempts : Z;
  stackedIndex : Z;
  users : list UserRow
}.

(** [MainWindow::loadGameHistory]; [stored] is what the database returns
    for a user. *)
Definition loadGameHistory (stored : string -> list GameRecord)
    (w : MainWindow) : MainWindow :=
  if negb (currentUser w =? "")%string
  then mkMainWindow (currentUser w) (stored (currentUser w))
                    (signInAttempts w) (stackedIndex w) (users w)
  else w.

(** What [signInButtonClicked] and [signUpButtonClicked] do once the user is
    accepted: [currentUser = username; loadGameHistory();
    setCurrentIndex(1)]. *)
Definition enter (stored : string -> list GameRecord) (w : MainWindow)
    (name : string) : MainWindow :=
  let w1 := loadGameHistory stored
              (mkMainWindow name (windowHistory w) (signInAttempts w)
                            (stackedIndex w) (users w)) in
  mkMainWindow (currentUser w1) (windowHistory w1) (signInAttempts w1) 1
               (users w1).

(** [signInButtonClicked].  [nameText] and [passwordText] are the texts of
    the two line edits; [answerYes], [ok] and [newPassword] are what the
    user answers if the reset dialogs come up, and [newSalt] the salt drawn
    if the password is updated. *)
Definition signInButtonClicked (sha256 : string -> string)
    (stored : string -> list GameRecord) (w : MainWindow)
    (nameText passwordText : string)
    (answerYes ok : bool) (newPassword newSalt : string) : MainWindow :=
  if (nameText =? "")%string || (passwordText =? "")%string then w
  else if verifyUser sha256 (users w) nameText passwordText
  then enter stored
         (mkMainWindow (currentUser w) (windowHistory w) 0 (stackedIndex w)
                       (users w)) nameText
  else
    let w1 := mkMainWindow (currentUser w) (windowHistory w)
                (signInAttempts w + 1) (stackedIndex w) (users w) in
    if (signInAttempts w1 >=? 3)%Z then
      if answerYes then
        if ok && negb (newPassword =? "")%string then
          match updateUserPassword sha256 (users w1) nameText newPassword
                  newSalt with
          | (true, users') =>
              enter stored
                (mkMainWindow (currentUser w1) (windowHistory w1) 0
                              (stackedIndex w1) users') nameText
          | (false, users') =>
              mkMainWindow (currentUser w1) (windowHistory w1)
                (signInAttempts w1) (stackedIndex w1) users'
          end
        else w1
      else w1
    else w1.

(** [signUpButtonClicked]. *)
Definition signUpButtonClicked (sha256 : string -> string)
    (stored : string -> list GameRecord) (w : MainWindow)
    (nameText passwordText newSalt : string) : MainWindow :=
  if (nameText =? "")%string || (passwordText =? "")%string then w
  else
    match saveUser sha256 (users w) nameText passwordText newSalt with
    | (true, users') =>
        enter stored
          (mkMainWindow (currentUser w) (windowHistory w) (signInAttempts w)
                        (stackedIndex w) users') nameText
    | (false, users') =>
        mkMainWindow (currentUser w) (windowHistory w) (signInAttempts w)
                     (stackedIndex w) users'
    end.

(** * Properties *)

(** ** Cells *)

Lemma cell_set_eq (b : Board) i j c :
  is_Some (cell b i j) -> cell (set_cell b i j c) i j = Some c.
Proof.
  unfold cell, set_cell. rewrite list_lookup_alter_eq.
  destruct (b !! i) as [row|]; simpl; intros [d Hd]; [|discriminate].
  apply list_lookup_insert_eq. eapply lookup_lt_Some, Hd.
Qed.

Lemma cell_set_ne (b : Board) i j c i' j' :
  (i, j) <> (i', j') -> cell (set_cell b i j c) i' j' = cell b i' j'.
Proof.
  intros Hne. unfold cell, set_cell.
  destruct (decide (i = i')) as [<-|Hi].
  - rewrite list_lookup_alter_eq. destruct (b !! i) as [row|]; simpl; [|done].
    apply list_lookup_insert_ne. congruence.
  - by rewrite list_lookup_alter_ne.
Qed.

Lemma holds_true (b : Board) i j c :
  holds b i j c = true <-> cell b i j = Some c.
Proof.
  unfold holds. destruct (cell b i j) as [d|]; [|split; discriminate].
  rewrite Ascii.eqb_eq. split; congruence.
Qed.

Lemma holds_set_eq (b : Board) i j d c c' :
  holds b i j d = true -> holds (set_cell b i j c) i j c' = Ascii.eqb c c'.
Proof.
  intros H%holds_true. unfold holds. rewrite cell_set_eq; [done|].
  rewrite H. by eexists.
Qed.

Lemma holds_set_ne (b : Board) i j c i' j' c' :
  (i, j) <> (i', j') -> holds (set_cell b i j c) i' j' c' = holds b i' j' c'.
Proof. intros Hne. unfold holds. by rewrite cell_set_ne. Qed.

(** Placing a mark on an Empty cell and writing Empty back restores the board. *)
Lemma set_cell_retract (b : Board) i j c :
  holds b i j " " = true -> set_cell (set_cell b i j c) i j " " = b.
Proof.
  intros H%holds_true. unfold set_cell. rewrite list_alter_alter_eq.
  rewrite <- (list_alter_id id b i) at 2 by done.
  apply list_alter_ext; [|done]. intros row Hrow. simpl.
  rewrite list_insert_insert_eq. apply list_insert_id.
  unfold cell in H. by rewrite Hrow in H.
Qed.

(** A mark other than [q] never adds a cell held by [q]. *)
Lemma holds_set_other (b : Board) i j c q i' j' :
  c <> q -> holds (set_cell b i j c) i' j' q = true -> holds b i' j' q = true.
Proof.
  intros Hcq. destruct (decide ((i, j) = (i', j'))) as [[= <- <-]|Hne].
  - intros H. unfold holds in *.
    destruct (cell b i j) as [d|] eqn:Hd.
    + rewrite cell_set_eq in H by (by eexists).
      apply Ascii.eqb_eq in H. contradiction.
    + unfold cell, set_cell in *. rewrite list_lookup_alter_eq in H.
      destruct (b !! i) as [row|]; simpl in *; [|discriminate].
      rewrite list_insert_ge in H; [by rewrite Hd in H|].
      by apply lookup_ge_None.
  - by rewrite holds_set_ne.
Qed.

(** ** Winning lines *)

Lemma evalIsWinner_has_line (b : Board) player :
  evalIsWinner b player = has_line b player.
Proof.
  unfold evalIsWinner, has_line, line_owned. simpl.
  repeat match goal with
         | |- context [holds b ?i ?j player] => destruct (holds b i j player)
         end; reflexivity.
Qed.

Lemma checkWinner_evalIsWinner (g : GameBoard) player :
  checkWinner g player = evalIsWinner (board g) player.
Proof. reflexivity. Qed.

Lemma isFull_evalIsFull (g : GameBoard) : isFull g = evalIsFull (board g).
Proof. reflexivity. Qed.

Lemma has_line_true (b : Board) player :
  has_line b player = true <->
  exists line, In line winning_lines /\
    forall i j, In (i, j) line -> cell b i j = Some player.
Proof.
  unfold has_line. rewrite existsb_exists. unfold line_owned.
  split; intros (line & Hin & H); exists line; split; try done.
  - rewrite forallb_forall in H. intros i j Hij.
    apply holds_true. apply (H (i, j) Hij).
  - apply forallb_forall. intros [i j] Hij. apply holds_true. simpl. auto.
Qed.

Lemma has_line_set_other (b : Board) i j c q :
  c <> q -> has_line (set_cell b i j c) q = true -> has_line b q = true.
Proof.
  intros Hcq. unfold has_line. rewrite !existsb_exists.
  intros (line & Hin & H). exists line. split; [done|].
  unfold line_owned in *. rewrite forallb_forall in *.
  intros x Hx. eapply holds_set_other; eauto.
Qed.

Lemma empty_board_no_line player :
  player <> " " -> evalIsWinner empty_board player = false.
Proof.
  intros Hp. rewrite evalIsWinner_has_line.
  destruct (has_line empty_board player) eqn:H; [|done].
  apply has_line_true in H as (line & Hin & H).
  assert (Hc : exists i j, In (i, j) line /\ (i < 3)%nat /\ (j < 3)%nat).
  { simpl in Hin. repeat destruct Hin as [<-|Hin]; try done;
      eexists _, _; (split; [left; reflexivity|lia]). }
  destruct Hc as (i & j & Hij & Hi & Hj). apply H in Hij.
  destruct i as [|[|[|]]], j as [|[|[|]]]; try lia;
    vm_compute in Hij; congruence.
Qed.

(** ** Loops *)

Lemma for_each_app {I S} (l1 l2 : list I) (body : I -> S -> option S) s :
  for_each (l1 ++ l2) body s = for_each l1 body s ≫= for_each l2 body.
Proof.
  revert s. induction l1 as [|i l1 IH]; intros s; simpl; [done|].
  destruct (body i s); simpl; auto.
Qed.

(** Two nested [for] loops visit the pairs of indices in row-major order. *)
Lemma for_each_nested {S} (rows cols : list nat)
    (body : nat -> nat -> S -> option S) s :
  for_each rows (fun i => for_each cols (body i)) s =
  for_each (i ← rows; j ← cols; [(i, j)]) (fun c => body c.1 c.2) s.
Proof.
  revert s. induction rows as [|i rows IH]; intros s; [done|].
  simpl. rewrite for_each_app.
  assert (Hrow : for_each (j ← cols; [(i, j)]) (fun c => body c.1 c.2) s
                 = for_each cols (body i) s).
  { clear. revert s. induction cols as [|j cols IHc]; intros s; [done|].
    simpl. destruct (body i j s); simpl; auto. }
  rewrite Hrow. destruct (for_each cols (body i) s); simpl; auto.
Qed.

Lemma minimax_rec_S fuel (cb : Board) player :
  minimax_rec (S fuel) cb player =
  if evalIsWinner cb "O" then Some (10%Z, cb)
  else if evalIsWinner cb "X" then Some ((-10)%Z, cb)
  else if evalIsFull cb then Some (0%Z, cb)
  else if Ascii.eqb player "O"
  then for_each scan_cells
         (explore (fun b => minimax_rec fuel b "X") "O" Z.max)
         ((-1000)%Z, cb)
  else for_each scan_cells
         (explore (fun b => minimax_rec fuel b "O") "X" Z.min)
         (1000%Z, cb).
Proof.
  cbn [minimax_rec]. unfold for_range, scan_cells.
  rewrite !for_each_nested. reflexivity.
Qed.

Lemma findBestMove_scan_flat (b : Board) :
  findBestMove_scan b =
  for_each scan_cells choose ((-1000)%Z, mkQPoint (-1) (-1), b).
Proof.
  unfold findBestMove_scan, for_range, scan_cells.
  rewrite for_each_nested. reflexivity.
Qed.

(** ** Counting Empty cells *)

Lemma scan_cells_NoDup : NoDup scan_cells.
Proof. apply (bool_decide_unpack _). by vm_compute. Qed.

Lemma elem_of_scan_cells i j :
  (i, j) ∈ scan_cells <-> (i < 3)%nat /\ (j < 3)%nat.
Proof.
  split.
  - intros H. apply list_elem_of_In in H. simpl in H.
    repeat destruct H as [[= <- <-]|H]; try lia; done.
  - intros [Hi Hj]. apply list_elem_of_In.
    destruct i as [|[|[|]]], j as [|[|[|]]]; try lia; simpl; tauto.
Qed.

Lemma filter_flip_one {A} (f g : A -> bool) (l : list A) x :
  NoDup l -> x ∈ l -> f x = true -> g x = false ->
  (forall y, y ∈ l -> y <> x -> g y = f y) ->
  S (length (List.filter g l)) = length (List.filter f l).
Proof.
  intros Hnd Hx Hf Hg. induction Hnd as [|y l Hy Hnd IH]; intros Hrest.
  - by apply elem_of_nil in Hx.
  - simpl. apply elem_of_cons in Hx as [<-|Hx].
    + rewrite Hf, Hg. simpl. f_equal. f_equal. apply filter_ext_in.
      intros a Ha%list_elem_of_In. apply Hrest; [by right|].
      intros ->. contradiction.
    + rewrite (Hrest y) by (by left || (intros ->; contradiction)).
      destruct (f y); simpl; [f_equal|];
        apply IH; auto; intros; apply Hrest; auto; by right.
Qed.

Lemma blanks_le_9 (b : Board) : (blanks b <= 9)%nat.
Proof. unfold blanks. apply (filter_length_le _ scan_cells). Qed.

(** A mark placed on an Empty cell of the grid leaves one Empty cell fewer. *)
Lemma blanks_place (b : Board) c mark :
  c ∈ scan_cells -> holds b c.1 c.2 " " = true -> mark <> " " ->
  S (blanks (set_cell b c.1 c.2 mark)) = blanks b.
Proof.
  intros Hc Hb Hm. unfold blanks.
  apply (filter_flip_one _ _ _ c); auto using scan_cells_NoDup.
  - erewrite holds_set_eq by done. by apply Ascii.eqb_neq.
  - intros y _ Hy. apply holds_set_ne. destruct c, y; simpl. congruence.
Qed.

(** ** The scan of [minimax] *)

(** When every recursive call returns, the scan folds [pick] over the scores
    of the Empty cells and ends with the board it started from. *)
Lemma explore_scan rec mark pick (cb : Board) (score : nat * nat -> Z)
    cells init :
  (forall c, c ∈ cells -> holds cb c.1 c.2 " " = true ->
     exists b', rec (set_cell cb c.1 c.2 mark) = Some (score c, b')) ->
  for_each cells (explore rec mark pick) (init, cb) =
  Some (fold_left (fun acc c =>
          if holds cb c.1 c.2 " " then pick acc (score c) else acc)
          cells init, cb).
Proof.
  revert init. induction cells as [|c cells IH]; intros init H; [done|].
  simpl. destruct (holds cb c.1 c.2 " ") eqn:Hb.
  - destruct (H c) as [b' Hr]; [by left|done|]. rewrite Hr.
    rewrite set_cell_retract by done. apply IH.
    intros; apply H; [by right|done].
  - apply IH. intros; apply H; [by right|done].
Qed.

(** With fuel above the number of Empty cells the call returns, and its local
    board ends as it began. *)
Lemma minimax_rec_total fuel : forall (cb : Board) player,
  (blanks cb < fuel)%nat ->
  minimax_rec fuel cb player =
  Some (value_of (minimax_rec fuel cb player), cb).
Proof.
  induction fuel as [|fuel IH]; intros cb player Hlt; [lia|].
  rewrite minimax_rec_S.
  destruct (evalIsWinner cb "O"); [done|].
  destruct (evalIsWinner cb "X"); [done|].
  destruct (evalIsFull cb); [done|].
  destruct (Ascii.eqb player "O").
  - rewrite (explore_scan _ _ _ cb
      (fun c => value_of (minimax_rec fuel (set_cell cb c.1 c.2 "O") "X")));
      [done|].
    intros c Hc Hb. eexists. apply IH.
    pose proof (blanks_place cb c "O" Hc Hb ltac:(discriminate)). lia.
  - rewrite (explore_scan _ _ _ cb
      (fun c => value_of (minimax_rec fuel (set_cell cb c.1 c.2 "X") "O")));
      [done|].
    intros c Hc Hb. eexists. apply IH.
    pose proof (blanks_place cb c "X" Hc Hb ltac:(discriminate)). lia.
Qed.

(** Fuel beyond the number of Empty cells does not change the result. *)
Lemma minimax_rec_fuel n : forall m (cb : Board) player,
  (blanks cb < n)%nat -> (blanks cb < m)%nat ->
  minimax_rec n cb player = minimax_rec m cb player.
Proof.
  induction n as [|n IH]; intros [|m] cb player Hn Hm; try lia.
  rewrite !minimax_rec_S.
  destruct (evalIsWinner cb "O"); [done|].
  destruct (evalIsWinner cb "X"); [done|].
  destruct (evalIsFull cb); [done|].
  destruct (Ascii.eqb player "O").
  - set (sc := fun c : nat * nat =>
        value_of (minimax_rec n (set_cell cb c.1 c.2 "O") "X")).
    rewrite (explore_scan (fun b => minimax_rec n b "X") _ _ cb sc).
    + rewrite (explore_scan (fun b => minimax_rec m b "X") _ _ cb sc); [done|].
      intros c Hc Hb. pose proof (blanks_place cb c "O" Hc Hb ltac:(discriminate)).
      eexists. rewrite <- (IH m) by lia. apply minimax_rec_total. lia.
    + intros c Hc Hb. pose proof (blanks_place cb c "O" Hc Hb ltac:(discriminate)).
      eexists. apply minimax_rec_total. lia.
  - set (sc := fun c : nat * nat =>
        value_of (minimax_rec n (set_cell cb c.1 c.2 "X") "O")).
    rewrite (explore_scan (fun b => minimax_rec n b "O") _ _ cb sc).
    + rewrite (explore_scan (fun b => minimax_rec m b "O") _ _ cb sc); [done|].
      intros c Hc Hb. pose proof (blanks_place cb c "X" Hc Hb ltac:(discriminate)).
      eexists. rewrite <- (IH m) by lia. apply minimax_rec_total. lia.
    + intros c Hc Hb. pose proof (blanks_place cb c "X" Hc Hb ltac:(discriminate)).
      eexists. apply minimax_rec_total. lia.
Qed.

Lemma minimax_total (cb : Board) player :
  minimax cb player = Some (value_of (minimax_rec call_budget cb player)).
Proof.
  unfold minimax. rewrite minimax_rec_total; [done|].
  pose proof (blanks_le_9 cb). unfold call_budget. lia.
Qed.

(** ** Boards of the program's shape *)

Lemma wf_set_cell (b : Board) i j c : wf_board b -> wf_board (set_cell b i j c).
Proof.
  intros [Hlen Hrows]. split.
  - unfold set_cell. by rewrite length_alter.
  - apply Forall_alter; [done|]. intros row _ Hrow. by rewrite length_insert.
Qed.

Lemma wf_board_inv (b : Board) :
  wf_board b ->
  exists a0 a1 a2 a3 a4 a5 a6 a7 a8,
    b = [[a0; a1; a2]; [a3; a4; a5]; [a6; a7; a8]].
Proof.
  intros [Hlen Hrows].
  destruct b as [|r0 [|r1 [|r2 [|]]]]; try discriminate.
  apply Forall_cons in Hrows as [H0 Hrows].
  apply Forall_cons in Hrows as [H1 Hrows].
  apply Forall_cons in Hrows as [H2 _].
  destruct r0 as [|? [|? [|? [|]]]]; try discriminate.
  destruct r1 as [|? [|? [|? [|]]]]; try discriminate.
  destruct r2 as [|? [|? [|? [|]]]]; try discriminate.
  by do 9 eexists.
Qed.

Lemma empty_board_wf : wf_board empty_board.
Proof. split; [done|]. by repeat constructor. Qed.

(** On a 3x3 board [evalIsFull] fails exactly when the scan meets an Empty cell. *)
Lemma evalIsFull_false (b : Board) :
  wf_board b -> evalIsFull b = false ->
  exists c, c ∈ scan_cells /\ holds b c.1 c.2 " " = true.
Proof.
  intros (a0 & a1 & a2 & a3 & a4 & a5 & a6 & a7 & a8 & ->)%wf_board_inv.
  unfold evalIsFull, holds. cbn [forallb cell lookup list_lookup mbind option_bind].
  intros H.
  destruct (Ascii.eqb a0 " ") eqn:E0;
    [exists (0, 0)%nat; split; [apply elem_of_scan_cells; lia|exact E0]|].
  destruct (Ascii.eqb a1 " ") eqn:E1;
    [exists (0, 1)%nat; split; [apply elem_of_scan_cells; lia|exact E1]|].
  destruct (Ascii.eqb a2 " ") eqn:E2;
    [exists (0, 2)%nat; split; [apply elem_of_scan_cells; lia|exact E2]|].
  destruct (Ascii.eqb a3 " ") eqn:E3;
    [exists (1, 0)%nat; split; [apply elem_of_scan_cells; lia|exact E3]|].
  destruct (Ascii.eqb a4 " ") eqn:E4;
    [exists (1, 1)%nat; split; [apply elem_of_scan_cells; lia|exact E4]|].
  destruct (Ascii.eqb a5 " ") eqn:E5;
    [exists (1, 2)%nat; split; [apply elem_of_scan_cells; lia|exact E5]|].
  destruct (Ascii.eqb a6 " ") eqn:E6;
    [exists (2, 0)%nat; split; [apply elem_of_scan_cells; lia|exact E6]|].
  destruct (Ascii.eqb a7 " ") eqn:E7;
    [exists (2, 1)%nat; split; [apply elem_of_scan_cells; lia|exact E7]|].
  destruct (Ascii.eqb a8 " ") eqn:E8;
    [exists (2, 2)%nat; split; [apply elem_of_scan_cells; lia|exact E8]|].
  discriminate.
Qed.

Lemma evalIsFull_true (b : Board) c :
  wf_board b -> evalIsFull b = true -> c ∈ scan_cells ->
  holds b c.1 c.2 " " = false.
Proof.
  intros (a0 & a1 & a2 & a3 & a4 & a5 & a6 & a7 & a8 & ->)%wf_board_inv.
  unfold evalIsFull. cbn [forallb]. intros H Hc.
  repeat (apply andb_prop in H as [? H]).
  repeat match goal with
         | H : _ && _ = true |- _ => apply andb_prop in H as [? ?]
         end.
  destruct c as [i j]. apply elem_of_scan_cells in Hc as [Hi Hj].
  destruct i as [|[|[|]]], j as [|[|[|]]]; try lia;
    unfold holds; cbn; by apply negb_true_iff.
Qed.

(** ** Scores *)

Lemma fold_pick_leaf_acc (pick : Z -> Z -> Z) (cb : Board)
    (score : nat * nat -> Z) cells :
  (forall a b, leaf_score a -> leaf_score b -> leaf_score (pick a b)) ->
  (forall c, c ∈ cells -> holds cb c.1 c.2 " " = true -> leaf_score (score c)) ->
  forall acc, leaf_score acc ->
  leaf_score (fold_left (fun acc c =>
     if holds cb c.1 c.2 " " then pick acc (score c) else acc) cells acc).
Proof.
  intros Hpick. induction cells as [|c cells IH]; intros Hsc acc Hacc; [done|].
  simpl. apply IH; [intros; apply Hsc; [by right|done]|].
  destruct (holds cb c.1 c.2 " ") eqn:Hb; [|done].
  apply Hpick; [done|]. apply Hsc; [by left|done].
Qed.

Lemma fold_pick_leaf (pick : Z -> Z -> Z) (init : Z) (cb : Board)
    (score : nat * nat -> Z) cells :
  (forall a b, leaf_score a -> leaf_score b -> leaf_score (pick a b)) ->
  (forall v, leaf_score v -> pick init v = v) ->
  (forall c, c ∈ cells -> holds cb c.1 c.2 " " = true -> leaf_score (score c)) ->
  (exists c, c ∈ cells /\ holds cb c.1 c.2 " " = true) ->
  leaf_score (fold_left (fun acc c =>
     if holds cb c.1 c.2 " " then pick acc (score c) else acc) cells init).
Proof.
  intros Hpick Hinit. induction cells as [|c cells IH]; intros Hsc (x & Hx & Hbx).
  - by apply elem_of_nil in Hx.
  - simpl. destruct (holds cb c.1 c.2 " ") eqn:Hb.
    + apply fold_pick_leaf_acc; [done|intros; apply Hsc; [by right|done]|].
      rewrite Hinit; apply Hsc; first [by left|done].
    + apply IH; [intros; apply Hsc; [by right|done]|].
      apply elem_of_cons in Hx as [->|Hx]; [congruence|eauto].
Qed.

Lemma leaf_score_max a b : leaf_score a -> leaf_score b -> leaf_score (Z.max a b).
Proof. unfold leaf_score. lia. Qed.

Lemma leaf_score_min a b : leaf_score a -> leaf_score b -> leaf_score (Z.min a b).
Proof. unfold leaf_score. lia. Qed.

(** On a 3x3 board every score [minimax] returns is -10, 0 or 10. *)
Lemma minimax_rec_leaf fuel : forall (cb : Board) player,
  wf_board cb -> (blanks cb < fuel)%nat ->
  leaf_score (value_of (minimax_rec fuel cb player)).
Proof.
  induction fuel as [|fuel IH]; intros cb player Hwf Hlt; [lia|].
  rewrite minimax_rec_S.
  destruct (evalIsWinner cb "O"); [unfold leaf_score; simpl; lia|].
  destruct (evalIsWinner cb "X"); [unfold leaf_score; simpl; lia|].
  destruct (evalIsFull cb) eqn:Hfull; [unfold leaf_score; simpl; lia|].
  assert (Hsub : forall c mark, c ∈ scan_cells -> holds cb c.1 c.2 " " = true ->
            mark <> " " -> (blanks (set_cell cb c.1 c.2 mark) < fuel)%nat).
  { intros c mark Hc Hb Hm. pose proof (blanks_place cb c mark Hc Hb Hm). lia. }
  destruct (Ascii.eqb player "O").
  - rewrite (explore_scan _ _ _ cb
      (fun c => value_of (minimax_rec fuel (set_cell cb c.1 c.2 "O") "X"))).
    + cbn [value_of]. apply fold_pick_leaf.
      * apply leaf_score_max.
      * unfold leaf_score. lia.
      * intros c Hc Hb. apply IH; [by apply wf_set_cell|by apply Hsub].
      * by apply evalIsFull_false.
    + intros c Hc Hb. eexists. apply minimax_rec_total. by apply Hsub.
  - rewrite (explore_scan _ _ _ cb
      (fun c => value_of (minimax_rec fuel (set_cell cb c.1 c.2 "X") "O"))).
    + cbn [value_of]. apply fold_pick_leaf.
      * apply leaf_score_min.
      * unfold leaf_score. lia.
      * intros c Hc Hb. apply IH; [by apply wf_set_cell|by apply Hsub].
      * by apply evalIsFull_false.
    + intros c Hc Hb. eexists. apply minimax_rec_total. by apply Hsub.
Qed.

(** ** The scan of [findBestMove] *)

Lemma choose_scan (b : Board) cells bs bm :
  for_each cells choose (bs, bm, b) =
  Some (fold_left (keep_best b) cells (bs, bm), b).
Proof.
  revert bs bm. induction cells as [|c cells IH]; intros bs bm; [done|].
  simpl. unfold keep_best at 2. simpl.
  destruct (holds b c.1 c.2 " ") eqn:Hb; [|apply IH].
  rewrite minimax_total, set_cell_retract by done. fold (score_at b c).
  destruct (score_at b c >? bs)%Z; apply IH.
Qed.

Lemma scan_cells_sorted : StronglySorted scanned_before scan_cells.
Proof.
  repeat (constructor; [|repeat constructor; unfold scanned_before; simpl; lia]).
  constructor.
Qed.

(** The scan keeps the first cell, in scan order, whose score is the largest
    and exceeds the initial [bestScore]. *)
Lemma keep_best_spec (b : Board) cells :
  StronglySorted scanned_before cells ->
  forall bs bm,
  let r := fold_left (keep_best b) cells (bs, bm) in
  (bs <= r.1)%Z /\
  (forall c, c ∈ cells -> holds b c.1 c.2 " " = true -> (score_at b c <= r.1)%Z) /\
  ((r = (bs, bm) /\
    forall c, c ∈ cells -> holds b c.1 c.2 " " = true -> (score_at b c <= bs)%Z)
   \/ exists c, c ∈ cells /\ holds b c.1 c.2 " " = true /\
         r = (score_at b c, mkQPoint (Z.of_nat c.1) (Z.of_nat c.2)) /\
         (bs < score_at b c)%Z /\
         forall c', c' ∈ cells -> holds b c'.1 c'.2 " " = true ->
           scanned_before c' c -> (score_at b c' < score_at b c)%Z).
Proof.
  induction 1 as [|a l Hl IH Ha]; intros bs bm.
  { simpl. split; [lia|]. split; [intros c Hc; by apply elem_of_nil in Hc|].
    left. split; [done|]. intros c Hc; by apply elem_of_nil in Hc. }
  rewrite Forall_forall in Ha.
  assert (Hasym : forall c', c' ∈ a :: l -> scanned_before c' a -> False).
  { intros c' [->|Hc']%elem_of_cons Hlt; [|apply Ha in Hc'];
      unfold scanned_before in *; lia. }
  cbn [fold_left]. remember (keep_best b (bs, bm) a) as st eqn:Hst.
  unfold keep_best in Hst. cbn [fst] in Hst.
  destruct (holds b a.1 a.2 " ") eqn:Hb;
    [destruct (Z.gtb_spec (score_at b a) bs) as [Hgt|Hle]|]; subst st.
  - (* the cell is taken *)
    destruct (IH (score_at b a) (mkQPoint (Z.of_nat a.1) (Z.of_nat a.2)))
      as (H1 & H2 & H3).
    split; [lia|]. split.
    { intros c [->|Hc]%elem_of_cons Hx; [exact H1|exact (H2 c Hc Hx)]. }
    right. destruct H3 as [[Hr Hall]|(c & Hc & Hbc & Hr & Hlt & Hfirst)].
    + exists a. split; [by left|]. do 3 (split; [done|]).
      intros c' Hc' _ Hbefore. destruct (Hasym c' Hc' Hbefore).
    + exists c. split; [by right|]. do 2 (split; [done|]). split; [lia|].
      intros c' [->|Hc']%elem_of_cons Hx Hbefore;
        [exact Hlt|exact (Hfirst c' Hc' Hx Hbefore)].
  - (* an Empty cell that does not beat bestScore *)
    destruct (IH bs bm) as (H1 & H2 & H3).
    split; [done|]. split.
    { intros c [->|Hc]%elem_of_cons Hx; [lia|exact (H2 c Hc Hx)]. }
    destruct H3 as [[Hr Hall]|(c & Hc & Hbc & Hr & Hlt & Hfirst)].
    + left. split; [done|].
      intros c [->|Hc]%elem_of_cons Hx; [lia|exact (Hall c Hc Hx)].
    + right. exists c. split; [by right|]. do 3 (split; [done|]).
      intros c' [->|Hc']%elem_of_cons Hx Hbefore;
        [lia|exact (Hfirst c' Hc' Hx Hbefore)].
  - (* an occupied cell *)
    destruct (IH bs bm) as (H1 & H2 & H3).
    split; [done|]. split.
    { intros c [->|Hc]%elem_of_cons Hx; [congruence|exact (H2 c Hc Hx)]. }
    destruct H3 as [[Hr Hall]|(c & Hc & Hbc & Hr & Hlt & Hfirst)].
    + left. split; [done|].
      intros c [->|Hc]%elem_of_cons Hx; [congruence|exact (Hall c Hc Hx)].
    + right. exists c. split; [by right|]. do 3 (split; [done|]).
      intros c' [->|Hc']%elem_of_cons Hx Hbefore;
        [congruence|exact (Hfirst c' Hc' Hx Hbefore)].
Qed.

Lemma score_at_leaf (b : Board) c :
  wf_board b -> leaf_score (score_at b c).
Proof.
  intros Hwf. apply minimax_rec_leaf; [by apply wf_set_cell|].
  pose proof (blanks_le_9 (set_cell b c.1 c.2 "O")). unfold call_budget. lia.
Qed.

Lemma minimax_score_at (b : Board) i j :
  minimax (set_cell b i j "O") "X" = Some (score_at b (i, j)).
Proof. apply minimax_total. Qed.

Lemma for_each_explore_board rec mark pick cells : forall init (cb : Board) v cb',
  for_each cells (explore rec mark pick) (init, cb) = Some (v, cb') -> cb' = cb.
Proof.
  induction cells as [|c cells IH]; intros init cb v cb' H; simpl in H.
  - congruence.
  - destruct (holds cb c.1 c.2 " ") eqn:Hb; [|by eapply IH].
    destruct (rec _) as [[score ?]|]; [|done].
    rewrite set_cell_retract in H by done. by eapply IH.
Qed.

(** Whenever a call of [minimax] returns, its board is as it was passed. *)
Lemma minimax_rec_board fuel (cb : Board) player v cb' :
  minimax_rec fuel cb player = Some (v, cb') -> cb' = cb.
Proof.
  destruct fuel as [|fuel]; [done|]. rewrite minimax_rec_S.
  destruct (evalIsWinner cb "O"); [congruence|].
  destruct (evalIsWinner cb "X"); [congruence|].
  destruct (evalIsFull cb); [congruence|].
  destruct (Ascii.eqb player "O"); apply for_each_explore_board.
Qed.

(** ** The board model *)



(** C2: [checkWinner(player)] is true exactly when one of the eight winning
    lines (three rows, three columns, two diagonals) has all three cells
    equal to [player]. *)
Theorem checkWinner_iff_line (g : GameBoard) (player : ascii) :
  checkWinner g player = true <->
  exists line, In line winning_lines /\
    forall i j, In (i, j) line -> cell (board g) i j = Some player.
Proof.
  rewrite checkWinner_evalIsWinner, evalIsWinner_has_line.
  apply has_line_true.
Qed.

(** C10: [makeMove] accepts any char as the mark: whenever the coordinates
    are in range, the cell is Empty and the game is active it returns true
    and writes that char, whatever it is and whoever the current player is,
    and the current player stays as it was. *)
Theorem makeMove_any_mark (g : GameBoard) (row col : Z) (c : ascii) :
  (0 <= row < 3)%Z -> (0 <= col < 3)%Z ->
  cell (board g) (Z.to_nat row) (Z.to_nat col) = Some " " ->
  gameActive g = true ->
  (makeMove g row col c).1 = true /\
  cell (board (makeMove g row col c).2) (Z.to_nat row) (Z.to_nat col) = Some c /\
  currentPlayer (makeMove g row col c).2 = currentPlayer g.
Proof.
  intros Hr Hc Hcell Hact. unfold makeMove.
  apply holds_true in Hcell as Hh. rewrite Hh, Hact.
  replace (0 <=? row)%Z with true by lia. replace (row <? 3)%Z with true by lia.
  replace (0 <=? col)%Z with true by lia. replace (col <? 3)%Z with true by lia.
  simpl. repeat split. apply cell_set_eq. rewrite Hcell. by eexists.
Qed.

(** A mark that is neither X nor O, on a board whose current player is X. *)
Lemma makeMove_any_mark_witness :
  (makeMove (GameBoard_new 1) 1 1 "Z").1 = true /\
  cell (board (makeMove (GameBoard_new 1) 1 1 "Z").2) 1 1 = Some "Z" /\
  currentPlayer (makeMove (GameBoard_new 1) 1 1 "Z").2 = "X".
Proof.
  apply (makeMove_any_mark (GameBoard_new 1) 1 1 "Z");
    [lia | lia | reflexivity | reflexivity].
Defined.

(** ** The search *)

(** C4, as the code has it: on a finished board [minimax] returns at once,
    10 when O owns a line, otherwise -10 when X owns a line, otherwise 0 (the
    board is full and nobody owns a line), whoever is to move. *)
Theorem minimax_terminal_score (cb : Board) (player : ascii) :
  evalIsWinner cb "O" || evalIsWinner cb "X" || evalIsFull cb = true ->
  minimax cb player =
  Some (if evalIsWinner cb "O" then 10
        else if evalIsWinner cb "X" then -10 else 0)%Z.
Proof.
  intros Hterm. unfold minimax, call_budget. rewrite minimax_rec_S.
  destruct (evalIsWinner cb "O"); [done|].
  destruct (evalIsWinner cb "X"); [done|].
  destruct (evalIsFull cb); [done|discriminate].
Qed.

Lemma minimax_terminal_score_witness :
  minimax x_row_board "O" = Some (-10)%Z.
Proof.
  apply (minimax_terminal_score x_row_board "O"). reflexivity.
Defined.

(** C4 as stated fails: X owns the top row of [x_row_board], yet the score
    is -10 and not +10. *)
Lemma minimax_terminal_score_counterexample :
  wf_board x_row_board /\
  checkWinner (mkGameBoard x_row_board "O" true 2) "X" = true /\
  minimax x_row_board "O" = Some (-10)%Z /\
  ~ (evalIsWinner x_row_board "X" = true ->
     minimax x_row_board "O" = Some 10%Z).
Proof.
  split; [split; [done|by repeat constructor]|].
  split; [reflexivity|]. split; [reflexivity|].
  intros H. specialize (H eq_refl). vm_compute in H. discriminate.
Qed.

(** C6, as the code has it: on the example position [findBestMove] returns
    (0,2).  That cell and (1,2) both score 10, the largest score there is,
    and (0,2) is scanned first. *)
Theorem findBestMove_example :
  findBestMove example_game = Some (mkQPoint 0 2, example_game) /\
  minimax (set_cell example_board 0 2 "O") "X" = Some 10%Z /\
  minimax (set_cell example_board 1 2 "O") "X" = Some 10%Z.
Proof. repeat split; vm_compute; reflexivity. Qed.

(** C6 as stated fails: the cell returned is not (1,2). *)
Lemma findBestMove_example_counterexample :
  fst <$> findBestMove example_game <> Some (mkQPoint 1 2).
Proof. vm_compute. discriminate. Qed.

(** C8: [findBestMove] returns with every member of the object as it was
    and with its local copy of the board restored; a call of [minimax] that
    returns leaves its board as it was passed, and with fuel above the
    number of Empty cells it does return; each mark placed on an Empty cell
    is taken back by writing Empty there. *)
Theorem search_leaves_board :
  (forall g : GameBoard, exists mv bs,
     findBestMove g = Some (mv, g) /\
     findBestMove_scan (board g) = Some (bs, mv, board g)) /\
  (forall fuel (cb : Board) player v cb',
     minimax_rec fuel cb player = Some (v, cb') -> cb' = cb) /\
  (forall (cb : Board) player k, exists v,
     minimax_rec (S (blanks cb + k)) cb player = Some (v, cb)) /\
  (forall (cb : Board) i j mark,
     holds cb i j " " = true ->
     set_cell (set_cell cb i j mark) i j " " = cb).
Proof.
  split; [|split; [|split]].
  - intros g. unfold findBestMove. rewrite findBestMove_scan_flat, choose_scan.
    destruct (fold_left _ _ _) as [bs mv]. by exists mv, bs.
  - intros. by eapply minimax_rec_board.
  - intros cb player k. eexists. apply minimax_rec_total. lia.
  - intros. by apply set_cell_retract.
Qed.

Lemma search_leaves_board_witness :
  set_cell (set_cell example_board 1 2 "O") 1 2 " " = example_board /\
  (forall v cb', minimax_rec 10 example_board "O" = Some (v, cb') ->
     cb' = example_board).
Proof.
  destruct search_leaves_board as (_ & Hret & _ & Hretract). split.
  - apply (Hretract example_board 1 2 "O")%nat. reflexivity.
  - intros v cb'. apply (Hret 10%nat example_board "O").
Defined.

(** C9: [minimax] returns on every board and for every side to move: at
    most 9 cells of the grid are Empty, any fuel above their number yields
    the same score, the ten nested calls of [minimax] are enough, and every
    board passed to a recursive call has fewer Empty cells than the board of
    its caller. *)
Theorem minimax_terminates (cb : Board) (player : ascii) :
  (blanks cb <= 9)%nat /\
  (exists v, minimax cb player = Some v /\
     forall fuel, (blanks cb < fuel)%nat ->
       minimax_rec fuel cb player = Some (v, cb)) /\
  (forall i j mark, (i < 3)%nat -> (j < 3)%nat ->
     holds cb i j " " = true -> mark <> " " ->
     (blanks (set_cell cb i j mark) < blanks cb)%nat).
Proof.
  pose proof (blanks_le_9 cb) as H9. split; [done|]. split.
  - exists (value_of (minimax_rec call_budget cb player)).
    split; [apply minimax_total|]. intros fuel Hfuel.
    rewrite (minimax_rec_fuel fuel call_budget) by (unfold call_budget; lia).
    apply minimax_rec_total. unfold call_budget. lia.
  - intros i j mark Hi Hj Hb Hm.
    pose proof (blanks_place cb (i, j) mark) as H. simpl in H.
    rewrite <- H; auto. by apply elem_of_scan_cells.
Qed.

Lemma minimax_terminates_witness :
  (blanks (set_cell example_board 0 2 "O") < blanks example_board)%nat.
Proof.
  apply (minimax_terminates example_board "O");
    [lia | lia | reflexivity | discriminate].
Defined.

(** C3: on a 3x3 board [findBestMove] returns, with the object unchanged.
    The point is (-1,-1) exactly when no cell is Empty.  Otherwise it is an
    Empty cell whose score, [minimax] of the board with O placed there and X
    to move, is at least the score of every Empty cell and strictly above
    the score of every Empty cell scanned before it in row-major order. *)
Theorem findBestMove_first_maximal (g : GameBoard) :
  wf_board (board g) ->
  exists mv, findBestMove g = Some (mv, g) /\
    (mv = mkQPoint (-1) (-1) <-> isFull g = true) /\
    (isFull g = false ->
     exists i j s,
       mv = mkQPoint (Z.of_nat i) (Z.of_nat j) /\
       (i < 3)%nat /\ (j < 3)%nat /\ cell (board g) i j = Some " " /\
       minimax (set_cell (board g) i j "O") "X" = Some s /\
       forall i' j', (i' < 3)%nat -> (j' < 3)%nat ->
         cell (board g) i' j' = Some " " ->
         exists s', minimax (set_cell (board g) i' j' "O") "X" = Some s' /\
           (s' <= s)%Z /\ (scanned_before (i', j') (i, j) -> (s' < s)%Z)).
Proof.
  intros Hwf. unfold findBestMove.
  rewrite findBestMove_scan_flat, choose_scan, isFull_evalIsFull.
  destruct (keep_best_spec (board g) scan_cells scan_cells_sorted
              (-1000)%Z (mkQPoint (-1) (-1))) as (_ & Hmax & Hcase).
  destruct (fold_left _ _ _) as [bs mv] eqn:Hfold. exists mv. split; [done|].
  destruct Hcase as [[[= -> ->] Hall]|(c & Hc & Hb & [= -> ->] & _ & Hfirst)].
  - (* nothing was kept: no cell of the grid is Empty *)
    assert (Hfull : evalIsFull (board g) = true).
    { destruct (evalIsFull (board g)) eqn:Hf; [done|].
      destruct (evalIsFull_false _ Hwf Hf) as (c & Hc & Hb).
      specialize (Hall c Hc Hb).
      pose proof (score_at_leaf (board g) c Hwf) as Hleaf.
      unfold leaf_score in Hleaf. lia. }
    split; [done|]. congruence.
  - (* the cell [c] was kept *)
    assert (Hfull : evalIsFull (board g) = false).
    { destruct (evalIsFull (board g)) eqn:Hf; [|done].
      by rewrite (evalIsFull_true _ c Hwf Hf Hc) in Hb. }
    split; [split; [intros [= ? ?]; lia|congruence]|]. intros _.
    destruct c as [i j]. apply elem_of_scan_cells in Hc as [Hi Hj].
    exists i, j, (score_at (board g) (i, j)).
    split; [done|]. do 2 (split; [done|]).
    split; [by apply holds_true|]. split; [apply minimax_score_at|].
    intros i' j' Hi' Hj' Hb'%holds_true.
    exists (score_at (board g) (i', j')). split; [apply minimax_score_at|].
    assert (Hc' : (i', j') ∈ scan_cells) by (by apply elem_of_scan_cells).
    split; [exact (Hmax _ Hc' Hb')|]. intros Hbefore.
    exact (Hfirst _ Hc' Hb' Hbefore).
Qed.

Lemma findBestMove_first_maximal_witness :
  exists mv, findBestMove example_game = Some (mv, example_game) /\
    (mv = mkQPoint (-1) (-1) <-> isFull example_game = true) /\
    (isFull example_game = false ->
     exists i j s,
       mv = mkQPoint (Z.of_nat i) (Z.of_nat j) /\
       (i < 3)%nat /\ (j < 3)%nat /\ cell (board example_game) i j = Some " " /\
       minimax (set_cell (board example_game) i j "O") "X" = Some s /\
       forall i' j', (i' < 3)%nat -> (j' < 3)%nat ->
         cell (board example_game) i' j' = Some " " ->
         exists s', minimax (set_cell (board example_game) i' j' "O") "X"
                    = Some s' /\
           (s' <= s)%Z /\ (scanned_before (i', j') (i, j) -> (s' < s)%Z)).
Proof.
  apply (findBestMove_first_maximal example_game).
  split; [reflexivity|]. by repeat constructor.
Defined.

(** ** The turn controller *)

Lemma checkWinner_set_other (g : GameBoard) i j c q cp act mode :
  c <> q -> checkWinner g q = false ->
  checkWinner (mkGameBoard (set_cell (board g) i j c) cp act mode) q = false.
Proof.
  intros Hcq Hq. rewrite checkWinner_evalIsWinner, evalIsWinner_has_line in *.
  simpl. destruct (has_line (set_cell (board g) i j c) q) eqn:H; [|done].
  apply has_line_set_other in H; [congruence|done].
Qed.

Lemma makeMove_mover_only (g : GameBoard) row col :
  controller_inv g -> gameActive g = true ->
  mover_only (makeMove g row col (currentPlayer g)).2.
Proof.
  intros (Hcp & Hact & _) Ha. destruct (Hact Ha) as [HX HO].
  unfold makeMove, mover_only.
  destruct (_ && _); simpl.
  - destruct Hcp as [Hcp|Hcp]; [left|right]; (split; [done|]);
      rewrite Hcp; by apply checkWinner_set_other.
  - destruct Hcp; [left|right]; done.
Qed.

Lemma checkWinner_board (g g' : GameBoard) player :
  board g' = board g -> checkWinner g' player = checkWinner g player.
Proof. intros H. by rewrite !checkWinner_evalIsWinner, H. Qed.

Lemma mover_only_cases (g : GameBoard) :
  mover_only g ->
  (currentPlayer g = "X" \/ currentPlayer g = "O") /\
  checkWinner g "X" && checkWinner g "O" = false /\
  (checkWinner g (currentPlayer g) = false ->
   checkWinner g "X" = false /\ checkWinner g "O" = false).
Proof.
  intros [[Hcp Hq]|[Hcp Hq]]; rewrite Hcp, Hq.
  - split; [by left|]. split; [apply andb_false_r|done].
  - split; [by right|]. split; [done|done].
Qed.

Lemma evaluate_outcome_inv dialog (g : GameBoard) :
  mover_only g -> controller_inv (evaluate_outcome dialog g).
Proof.
  intros (Hcp & Hboth & Hnone)%mover_only_cases. unfold evaluate_outcome.
  assert (Hover : controller_inv (deactivate (disableBoard (emit_gameOver dialog g)))).
  { unfold emit_gameOver. destruct dialog.
    - split; [by left|]. split; [done|]. reflexivity.
    - split; [done|]. split; [done|].
      by rewrite !(checkWinner_board g (deactivate (disableBoard g))). }
  destruct (checkWinner g (currentPlayer g)) eqn:Hw; [done|].
  destruct (isFull g); [done|].
  destruct (Hnone eq_refl) as [HX HO].
  split; [|split].
  - unfold switchPlayer. simpl. destruct (Ascii.eqb _ _); auto.
  - intros _. by rewrite !(checkWinner_board g (switchPlayer g)).
  - by rewrite !(checkWinner_board g (switchPlayer g)), HX.
Qed.

Lemma onCellClicked_inv dialog (g : GameBoard) i j :
  controller_inv g -> controller_inv (onCellClicked dialog g i j).
Proof.
  intros Hinv. unfold onCellClicked.
  destruct (gameActive g) eqn:Ha; simpl; [|done].
  destruct (negb _); [done|].
  pose proof (makeMove_mover_only g (Z.of_nat i) (Z.of_nat j) Hinv Ha) as Hm.
  destruct (makeMove _ _ _ _) as [[] g1] eqn:Hmv; simpl in Hm.
  - by apply evaluate_outcome_inv.
  - unfold makeMove in Hmv. destruct (_ && _); congruence.
Qed.

Lemma findBestMove_state (g : GameBoard) mv g0 :
  findBestMove g = Some (mv, g0) -> g0 = g.
Proof.
  unfold findBestMove. destruct (findBestMove_scan _) as [[[? ?] ?]|]; congruence.
Qed.

Lemma aiMove_inv dialog (g g' : GameBoard) :
  controller_inv g -> aiMove dialog g = Some g' -> controller_inv g'.
Proof.
  intros Hinv. unfold aiMove.
  destruct (gameActive g) eqn:Ha; simpl; [|congruence].
  destruct (_ || _); [congruence|].
  destruct (findBestMove g) as [[mv g0]|] eqn:Hf; [|done].
  apply findBestMove_state in Hf as ->.
  destruct (_ && _); [|congruence].
  pose proof (makeMove_mover_only g (qx mv) (qy mv) Hinv Ha) as Hm.
  destruct (makeMove _ _ _ _) as [acc g1]. simpl in Hm.
  intros [= <-]. by apply evaluate_outcome_inv.
Qed.

Lemma GameBoard_new_inv mode : controller_inv (GameBoard_new mode).
Proof. split; [by left|]. split; [done|]. reflexivity. Qed.

Lemma reachable_inv dialog mode (g : GameBoard) :
  reachable dialog (GameBoard_new mode) g -> controller_inv g.
Proof.
  induction 1 as [|g g' _ IH Hstep]; [apply GameBoard_new_inv|].
  destruct Hstep as [g i j|g g' Hai].
  - by apply onCellClicked_inv.
  - by eapply aiMove_inv.
Qed.

(** C5: on every board the controller reaches from a new game, with or
    without the dialog's slot connected and in either mode, [checkWinner]
    does not hold for X and for O at once. *)
Theorem controller_winners_exclusive dialog mode (g : GameBoard) :
  reachable dialog (GameBoard_new mode) g ->
  checkWinner g "X" && checkWinner g "O" = false.
Proof. intros H. by apply reachable_inv in H as (_ & _ & H). Qed.

Lemma controller_winners_exclusive_witness :
  checkWinner (onCellClicked false (GameBoard_new 1) 0 0) "X"
  && checkWinner (onCellClicked false (GameBoard_new 1) 0 0) "O" = false.
Proof.
  apply (controller_winners_exclusive false 1).
  eapply reach_step; [apply reach_start|apply step_click].
Defined.

(** ** Accepted moves, and the cell the search returns *)

Lemma makeMove_cases (g : GameBoard) row col p :
  makeMove g row col p = (false, g) \/
  (gameActive g = true /\
   exists c, c ∈ scan_cells /\ row = Z.of_nat c.1 /\ col = Z.of_nat c.2 /\
     holds (board g) c.1 c.2 " " = true /\
     makeMove g row col p =
     (true, mkGameBoard (set_cell (board g) c.1 c.2 p)
                        (currentPlayer g) (gameActive g) (gameMode g))).
Proof.
  unfold makeMove.
  destruct (0 <=? row)%Z eqn:H1, (row <? 3)%Z eqn:H2, (0 <=? col)%Z eqn:H3,
    (col <? 3)%Z eqn:H4; simpl; auto.
  destruct (holds _ _ _ _) eqn:H5; simpl; auto.
  destruct (gameActive g) eqn:H6; simpl; auto.
  right. split; [done|]. exists (Z.to_nat row, Z.to_nat col). simpl.
  split; [apply elem_of_scan_cells; lia|]. repeat split; try done; lia.
Qed.

Lemma makeMove_accept (g : GameBoard) c p :
  c ∈ scan_cells -> holds (board g) c.1 c.2 " " = true ->
  gameActive g = true ->
  makeMove g (Z.of_nat c.1) (Z.of_nat c.2) p =
  (true, mkGameBoard (set_cell (board g) c.1 c.2 p)
                     (currentPlayer g) (gameActive g) (gameMode g)).
Proof.
  destruct c as [i j]. intros [Hi Hj]%elem_of_scan_cells Hb Ha. simpl in *.
  unfold makeMove. rewrite !Nat2Z.id, Hb, Ha.
  replace (0 <=? Z.of_nat i)%Z with true by lia.
  replace (Z.of_nat i <? 3)%Z with true by lia.
  replace (0 <=? Z.of_nat j)%Z with true by lia.
  by replace (Z.of_nat j <? 3)%Z with true by lia.
Qed.

(** The point [findBestMove] returns is (-1,-1) or an Empty cell of the grid. *)
Lemma findBestMove_cell (g : GameBoard) mv g0 :
  findBestMove g = Some (mv, g0) ->
  g0 = g /\
  (mv = mkQPoint (-1) (-1) \/
   exists c, c ∈ scan_cells /\ holds (board g) c.1 c.2 " " = true /\
     mv = point_of c).
Proof.
  unfold findBestMove. rewrite findBestMove_scan_flat, choose_scan.
  destruct (keep_best_spec (board g) scan_cells scan_cells_sorted
              (-1000)%Z (mkQPoint (-1) (-1))) as (_ & _ & Hcase).
  destruct (fold_left _ _ _) as [bs best]. intros [= <- <-]. split; [done|].
  destruct Hcase as [[[= _ ->] _]|(c & Hc & Hb & [= _ ->] & _)]; [by left|].
  right. by exists c.
Qed.

(** On a 3x3 board that is not full [findBestMove] returns an Empty cell
    whose score no Empty cell beats and no earlier Empty cell equals. *)
Lemma findBestMove_choice (g : GameBoard) :
  wf_board (board g) -> evalIsFull (board g) = false ->
  exists c, c ∈ scan_cells /\ holds (board g) c.1 c.2 " " = true /\
    findBestMove g = Some (point_of c, g) /\
    (forall c', c' ∈ scan_cells -> holds (board g) c'.1 c'.2 " " = true ->
       (score_at (board g) c' <= score_at (board g) c)%Z) /\
    (forall c', c' ∈ scan_cells -> holds (board g) c'.1 c'.2 " " = true ->
       scanned_before c' c ->
       (score_at (board g) c' < score_at (board g) c)%Z).
Proof.
  intros Hwf Hfull. unfold findBestMove.
  rewrite findBestMove_scan_flat, choose_scan.
  destruct (keep_best_spec (board g) scan_cells scan_cells_sorted
              (-1000)%Z (mkQPoint (-1) (-1))) as (_ & Hmax & Hcase).
  destruct (fold_left _ _ _) as [bs mv] eqn:Hfold.
  destruct Hcase as [[_ Hall]|(c & Hc & Hb & [= -> ->] & _ & Hfirst)].
  - destruct (evalIsFull_false _ Hwf Hfull) as (c & Hc & Hb).
    specialize (Hall c Hc Hb).
    pose proof (score_at_leaf (board g) c Hwf) as Hleaf.
    unfold leaf_score in Hleaf. lia.
  - exists c. do 3 (split; [done|]). split; [exact Hmax|exact Hfirst].
Qed.

(** ** The computer moving first *)

Lemma onCellClicked_rejected dialog (g : GameBoard) i j :
  holds (board g) i j " " = false -> onCellClicked dialog g i j = g.
Proof.
  intros Hb. unfold onCellClicked, makeMove. rewrite !Nat2Z.id, Hb.
  destruct (negb (gameActive g)); [done|].
  destruct (negb _); [done|]. by rewrite !andb_false_r.
Qed.

Lemma onCellClicked_outside dialog (g : GameBoard) i j :
  (i, j) ∉ scan_cells -> onCellClicked dialog g i j = g.
Proof.
  intros Hout. unfold onCellClicked.
  destruct (negb (gameActive g)); [done|].
  destruct (Nat.ltb_spec i 3), (Nat.ltb_spec j 3); simpl; try done.
  destruct Hout. by apply elem_of_scan_cells.
Qed.

Lemma onCellClicked_inactive dialog (g : GameBoard) i j :
  gameActive g = false -> onCellClicked dialog g i j = g.
Proof. intros Ha. unfold onCellClicked. by rewrite Ha. Qed.

Lemma aiMove_inactive dialog (g : GameBoard) :
  gameActive g = false -> aiMove dialog g = Some g.
Proof. intros Ha. unfold aiMove. by rewrite Ha. Qed.

(** The timer slot always returns. *)
Lemma aiMove_total dialog (g : GameBoard) : is_Some (aiMove dialog g).
Proof.
  unfold aiMove. destruct (_ || _); [by eexists|].
  unfold findBestMove. rewrite findBestMove_scan_flat, choose_scan.
  destruct (fold_left _ _ _) as [bs mv].
  destruct (_ && _); [|by eexists].
  destruct (makeMove _ _ _ _). by eexists.
Qed.

Lemma o_first_safe_X n (g : GameBoard) :
  o_first_safe n g = true -> checkWinner g "X" = false.
Proof.
  destruct n; simpl; intros [H _]%andb_prop; by apply negb_true_iff in H.
Qed.

Lemma o_first_safe_human n (g : GameBoard) i j :
  o_first_safe n g = true -> currentPlayer g = "X" ->
  exists m, o_first_safe m (onCellClicked false g i j) = true.
Proof.
  intros Hsafe Hcp.
  destruct (gameActive g) eqn:Ha;
    [|exists n; by rewrite onCellClicked_inactive].
  destruct (decide ((i, j) ∈ scan_cells)) as [Hin|Hout];
    [|exists n; by rewrite onCellClicked_outside].
  destruct (holds (board g) i j " ") eqn:Hb;
    [|exists n; by rewrite onCellClicked_rejected].
  destruct n as [|n]; cbn [o_first_safe] in Hsafe;
    rewrite Ha, ?Hcp in Hsafe; cbn [negb Ascii.eqb Bool.eqb] in Hsafe.
  { by rewrite andb_false_r in Hsafe. }
  apply andb_prop in Hsafe as [_ Hall]. rewrite forallb_forall in Hall.
  apply list_elem_of_In in Hin. specialize (Hall _ Hin). simpl in Hall.
  rewrite Hb in Hall. by exists n.
Qed.

Lemma o_first_safe_ai n (g g' : GameBoard) :
  o_first_safe n g = true -> currentPlayer g = "O" ->
  aiMove false g = Some g' ->
  exists m, o_first_safe m g' = true.
Proof.
  intros Hsafe Hcp Hai.
  destruct (gameActive g) eqn:Ha.
  - destruct n as [|n]; cbn [o_first_safe] in Hsafe;
      rewrite Ha, ?Hcp in Hsafe; cbn [negb Ascii.eqb Bool.eqb] in Hsafe;
      [by rewrite andb_false_r in Hsafe|].
    apply andb_prop in Hsafe as [_ Hnext]. rewrite Hai in Hnext. by exists n.
  - rewrite aiMove_inactive in Hai by done. exists n. congruence.
Qed.

(** The exhaustive check succeeds from the opening position. *)
Lemma o_first_safe_start : o_first_safe 10 ai_first_start = true.
Proof. vm_cast_no_check (eq_refl true). Qed.

Lemma ai_first_play_safe (g : GameBoard) :
  ai_first_play g -> exists n, o_first_safe n g = true.
Proof.
  induction 1 as [|g g' _ [n IH] Hcp Hai|g i j _ [n IH] Hcp].
  - exists 10%nat. apply o_first_safe_start.
  - by eapply o_first_safe_ai.
  - by eapply o_first_safe_human.
Qed.

(** Without a slot on [gameOver] the outcome evaluation keeps the cells. *)
Lemma evaluate_outcome_bare (g : GameBoard) :
  board (evaluate_outcome false g) = board g /\
  gameMode (evaluate_outcome false g) = gameMode g /\
  (gameActive (evaluate_outcome false g) = true ->
   isFull (evaluate_outcome false g) = false).
Proof.
  unfold evaluate_outcome, emit_gameOver.
  destruct (checkWinner _ _); [done|]. by destruct (isFull g) eqn:Hfull.
Qed.

(** The boards of the play are 3x3 boards in computer mode, and not full
    while the game is active. *)
Lemma ai_first_play_shape (g : GameBoard) :
  ai_first_play g ->
  wf_board (board g) /\ gameMode g = 2%Z /\
  (gameActive g = true -> isFull g = false).
Proof.
  induction 1 as [|g g' _ (Hwf & Hm & Hfull) Hcp Hai
                  |g i j _ (Hwf & Hm & Hfull) Hcp].
  - split; [apply empty_board_wf|done].
  - unfold aiMove in Hai. destruct (_ || _); [by injection Hai as <-|].
    destruct (findBestMove g) as [[mv g0]|] eqn:Hf; [|done].
    apply findBestMove_cell in Hf as [-> _].
    destruct (_ && _); [|by injection Hai as <-].
    destruct (makeMove_cases g (qx mv) (qy mv) (currentPlayer g))
      as [H|(_ & c & _ & _ & _ & _ & H)]; rewrite H in Hai;
      injection Hai as <-;
      match goal with
      | |- context [evaluate_outcome false ?g1] =>
          destruct (evaluate_outcome_bare g1) as (Hb & Hm' & Hf')
      end; rewrite Hb, Hm'; simpl.
    + split; [done|]. split; [done|exact Hf'].
    + split; [by apply wf_set_cell|]. split; [done|exact Hf'].
  - unfold onCellClicked. destruct (negb (gameActive g)); [done|].
    destruct (negb _); [done|].
    destruct (makeMove_cases g (Z.of_nat i) (Z.of_nat j) (currentPlayer g))
      as [H|(_ & c & _ & _ & _ & _ & H)]; rewrite H; [done|].
    match goal with
    | |- context [evaluate_outcome false ?g1] =>
        destruct (evaluate_outcome_bare g1) as (Hb & Hm' & Hf')
    end; rewrite Hb, Hm'; simpl.
    split; [by apply wf_set_cell|]. split; [done|exact Hf'].
Qed.

(** C7: from the empty board with O to move, when O's moves are those of
    [aiMove] and X's moves are whatever cells are clicked, no board of the
    play has a line owned by X.  The play does go on: at every board of it the
    timer slot returns, and while the game is active with O to move
    [findBestMove] returns an Empty cell of the grid, on which the slot
    places O. *)
Theorem ai_first_never_loses (g : GameBoard) :
  ai_first_play g ->
  checkWinner g "X" = false /\
  is_Some (aiMove false g) /\
  (gameActive g = true -> currentPlayer g = "O" ->
   exists i j g',
     (i < 3)%nat /\ (j < 3)%nat /\ cell (board g) i j = Some " " /\
     findBestMove g = Some (mkQPoint (Z.of_nat i) (Z.of_nat j), g) /\
     aiMove false g = Some g' /\
     board g' = set_cell (board g) i j "O" /\
     ai_first_play g').
Proof.
  intros Hplay. pose proof Hplay as [n Hsafe]%ai_first_play_safe.
  split; [by eapply o_first_safe_X|]. split; [apply aiMove_total|].
  intros Ha Hcp.
  destruct (ai_first_play_shape g Hplay) as (Hwf & Hm & Hfull).
  specialize (Hfull Ha). rewrite isFull_evalIsFull in Hfull.
  destruct (findBestMove_choice g Hwf Hfull) as ([i j] & Hc & Hb & Hf & _).
  simpl in Hb. pose proof Hc as [Hi Hj]%elem_of_scan_cells.
  assert (Hai : aiMove false g =
    Some (evaluate_outcome false
            (mkGameBoard (set_cell (board g) i j "O") "O" true 2))).
  { unfold aiMove. rewrite Ha, Hcp, Hm, Hf.
    cbn [negb orb Ascii.eqb Bool.eqb Z.eqb Pos.eqb].
    unfold point_of. cbn [qx qy fst snd].
    replace (negb (Z.of_nat i =? -1)%Z && negb (Z.of_nat j =? -1)%Z)
      with true
      by (symmetry; apply andb_true_iff; split;
          apply negb_true_iff, Z.eqb_neq; lia).
    rewrite (makeMove_accept g (i, j)) by done. cbn [fst snd].
    by rewrite Ha, Hcp, Hm. }
  exists i, j, (evaluate_outcome false
                  (mkGameBoard (set_cell (board g) i j "O") "O" true 2)).
  do 2 (split; [done|]). split; [by apply holds_true|].
  split; [exact Hf|]. split; [exact Hai|]. split.
  - by destruct (evaluate_outcome_bare
                   (mkGameBoard (set_cell (board g) i j "O") "O" true 2))
      as (-> & _).
  - by eapply play_ai.
Qed.

(** The computer opens on the first cell of the scan. *)
Lemma ai_first_opening :
  aiMove false ai_first_start
  = Some (mkGameBoard [ ["O"; " "; " "]; [" "; " "; " "]; [" "; " "; " "] ]
                      "X" true 2).
Proof.
  vm_cast_no_check
    (eq_refl (Some (mkGameBoard
                      [ ["O"; " "; " "]; [" "; " "; " "]; [" "; " "; " "] ]
                      "X" true 2))).
Qed.

Lemma ai_first_reply_play : ai_first_play ai_first_reply.
Proof.
  apply (play_human
           (mkGameBoard [ ["O"; " "; " "]; [" "; " "; " "]; [" "; " "; " "] ]
                        "X" true 2) 1 1); [|reflexivity].
  apply (play_ai ai_first_start);
    [apply play_start|reflexivity|apply ai_first_opening].
Qed.

Lemma ai_first_never_loses_witness :
  checkWinner ai_first_reply "X" = false /\
  is_Some (aiMove false ai_first_reply) /\
  (gameActive ai_first_reply = true -> currentPlayer ai_first_reply = "O" ->
   exists i j g',
     (i < 3)%nat /\ (j < 3)%nat /\
     cell (board ai_first_reply) i j = Some " " /\
     findBestMove ai_first_reply
     = Some (mkQPoint (Z.of_nat i) (Z.of_nat j), ai_first_reply) /\
     aiMove false ai_first_reply = Some g' /\
     board g' = set_cell (board ai_first_reply) i j "O" /\
     ai_first_play g').
Proof.
  apply (ai_first_never_loses ai_first_reply). apply ai_first_reply_play.
Defined.

(** * Further properties of the code *)

(** ** [makeMove], [getAvailableMoves], [switchPlayer] *)

Lemma marks_place_same (b : Board) c p :
  c ∈ scan_cells -> holds b c.1 c.2 " " = true -> p <> " " ->
  marks (set_cell b c.1 c.2 p) p = S (marks b p).
Proof.
  intros Hc Hb Hp. unfold marks. symmetry.
  apply (filter_flip_one _ _ _ c); auto using scan_cells_NoDup.
  - erewrite holds_set_eq by done. apply Ascii.eqb_refl.
  - apply holds_true in Hb. unfold holds. rewrite Hb.
    apply Ascii.eqb_neq. congruence.
  - intros y _ Hy. symmetry. apply holds_set_ne. destruct c, y; simpl. congruence.
Qed.

Lemma marks_place_other (b : Board) c p q :
  holds b c.1 c.2 " " = true -> q <> p -> q <> " " ->
  marks (set_cell b c.1 c.2 p) q = marks b q.
Proof.
  intros Hb Hqp Hq. unfold marks. f_equal. apply filter_ext_in.
  intros y _. destruct (decide (y = c)) as [->|Hy].
  - erewrite holds_set_eq by done. apply holds_true in Hb. unfold holds.
    rewrite Hb. transitivity false; [|symmetry]; apply Ascii.eqb_neq; congruence.
  - apply holds_set_ne. destruct c, y; simpl. congruence.
Qed.

(** X1: an accepted move whose mark is not the Empty char fills exactly one
    Empty cell of the grid: one Empty cell fewer, one more cell with that
    mark. *)
Theorem makeMove_fills_one (g : GameBoard) row col p :
  (makeMove g row col p).1 = true -> p <> " " ->
  S (blanks (board (makeMove g row col p).2)) = blanks (board g) /\
  marks (board (makeMove g row col p).2) p = S (marks (board g) p).
Proof.
  intros Hacc Hp.
  destruct (makeMove_cases g row col p) as [H|(_ & c & Hc & _ & _ & Hb & H)];
    rewrite H in *; [done|]. simpl. split.
  - by apply blanks_place.
  - by apply marks_place_same.
Qed.

Lemma makeMove_fills_one_witness :
  S (blanks (board (makeMove (GameBoard_new 1) 0 0 "X").2))
    = blanks (board (GameBoard_new 1)) /\
  marks (board (makeMove (GameBoard_new 1) 0 0 "X").2) "X"
    = S (marks (board (GameBoard_new 1)) "X").
Proof.
  apply (makeMove_fills_one (GameBoard_new 1) 0 0 "X"); [reflexivity|discriminate].
Defined.

(** X2: no call of [makeMove], accepted or not and whatever the mark, changes
    a cell that is already occupied. *)
Theorem makeMove_keeps_occupied (g : GameBoard) row col p i j ch :
  cell (board g) i j = Some ch -> ch <> " " ->
  cell (board (makeMove g row col p).2) i j = Some ch.
Proof.
  intros Hcell Hch.
  destruct (makeMove_cases g row col p) as [H|(_ & c & _ & _ & _ & Hb & H)];
    rewrite H; simpl; [done|].
  rewrite cell_set_ne; [done|]. intros [= Hi Hj]. subst i j.
  apply holds_true in Hb. congruence.
Qed.

Lemma makeMove_keeps_occupied_witness :
  cell (board (makeMove (mkGameBoard example_board "O" true 2) 0 0 "O").2) 0 0
  = Some "X".
Proof.
  apply (makeMove_keeps_occupied (mkGameBoard example_board "O" true 2) 0 0 "O"
           0 0 "X")%nat; [reflexivity|discriminate].
Defined.

Lemma makeMove_blank (g : GameBoard) row col :
  (0 <= row < 3)%Z -> (0 <= col < 3)%Z ->
  cell (board g) (Z.to_nat row) (Z.to_nat col) = Some " " ->
  gameActive g = true ->
  makeMove g row col " " = (true, g).
Proof.
  destruct g as [b cp act m]. simpl. intros Hr Hc Hcell ->. unfold makeMove.
  apply holds_true in Hcell as Hh. simpl. rewrite Hh.
  replace (0 <=? row)%Z with true by lia. replace (row <? 3)%Z with true by lia.
  replace (0 <=? col)%Z with true by lia. replace (col <? 3)%Z with true by lia.
  simpl. do 2 f_equal.
  unfold set_cell. rewrite <- (list_alter_id id b (Z.to_nat row)) at 2 by done.
  apply list_alter_ext; [|done]. intros r Hrow. apply list_insert_id.
  unfold cell in Hcell. by rewrite Hrow in Hcell.
Qed.

Lemma button_update_eq (buttons : list (list Button)) i j text old :
  button buttons i j = Some old ->
  button (updateButtonText buttons i j text) i j
  = Some (mkButton (String text EmptyString) false
                   (if Ascii.eqb text "X" then StyleX else StyleOther)).
Proof.
  unfold button, updateButtonText. intros H. rewrite list_lookup_alter_eq.
  destruct (buttons !! i) as [r|]; [|done]. simpl in *.
  rewrite list_lookup_alter_eq. by rewrite H.
Qed.

Lemma button_update_ne (buttons : list (list Button)) i j text i' j' :
  (i', j') <> (i, j) ->
  button (updateButtonText buttons i j text) i' j' = button buttons i' j'.
Proof.
  unfold button, updateButtonText. intros Hne.
  destruct (decide (i' = i)) as [->|Hi].
  - rewrite list_lookup_alter_eq. destruct (buttons !! i) as [r|]; [|done].
    simpl. apply list_lookup_alter_ne. congruence.
  - by rewrite list_lookup_alter_ne.
Qed.

(** X3: the Empty char itself is accepted as a mark.  On an Empty cell of an
    active game [makeMove(row, col, ' ')] returns true and leaves [board],
    [currentPlayer], [gameActive] and [gameMode] as they were, so the cell
    still counts as Empty; but [updateButtonText] has run: the button of the
    cell now shows the text " ", is disabled and carries the style of a mark
    other than X, while every other button is as before. *)
Theorem makeMove_blank_mark (g : GameBoard) (buttons : list (list Button))
    row col old :
  (0 <= row < 3)%Z -> (0 <= col < 3)%Z ->
  cell (board g) (Z.to_nat row) (Z.to_nat col) = Some " " ->
  gameActive g = true ->
  button buttons (Z.to_nat row) (Z.to_nat col) = Some old ->
  exists buttons',
    makeMove_buttons g buttons row col " " = (true, g, buttons') /\
    isEmpty g row col = true /\
    button buttons' (Z.to_nat row) (Z.to_nat col)
    = Some (mkButton " " false StyleOther) /\
    (forall i j, (i, j) <> (Z.to_nat row, Z.to_nat col) ->
       button buttons' i j = button buttons i j).
Proof.
  intros Hr Hc Hcell Ha Hold.
  exists (updateButtonText buttons (Z.to_nat row) (Z.to_nat col) " ").
  split; [|split; [|split]].
  - unfold makeMove_buttons. by rewrite makeMove_blank.
  - unfold isEmpty. apply holds_true in Hcell. rewrite Hcell.
    replace (0 <=? row)%Z with true by lia.
    replace (row <? 3)%Z with true by lia.
    replace (0 <=? col)%Z with true by lia.
    by replace (col <? 3)%Z with true by lia.
  - by rewrite (button_update_eq _ _ _ _ old).
  - intros i j Hne. by apply button_update_ne.
Qed.

Lemma makeMove_blank_mark_witness :
  exists buttons',
    makeMove_buttons (GameBoard_new 1) buttons_reset 2 2 " "
    = (true, GameBoard_new 1, buttons') /\
    isEmpty (GameBoard_new 1) 2 2 = true /\
    button buttons' (Z.to_nat 2) (Z.to_nat 2)
    = Some (mkButton " " false StyleOther) /\
    (forall i j, (i, j) <> (Z.to_nat 2, Z.to_nat 2) ->
       button buttons' i j = button buttons_reset i j).
Proof.
  apply (makeMove_blank_mark (GameBoard_new 1) buttons_reset 2 2
           (mkButton EmptyString true StyleReset));
    [lia | lia | reflexivity | reflexivity | reflexivity].
Defined.

Lemma getAvailableMoves_filter (b : Board) :
  getAvailableMoves b =
  map point_of (List.filter (fun c => holds b c.1 c.2 " ") scan_cells).
Proof.
  unfold getAvailableMoves, scan_cells, point_of. simpl.
  repeat match goal with
         | |- context [holds b ?i ?j " "] => destruct (holds b i j " ")
         end; reflexivity.
Qed.

Lemma point_of_inj c c' : point_of c = point_of c' -> c = c'.
Proof.
  destruct c, c'. unfold point_of. simpl. intros [= H1 H2].
  f_equal; lia.
Qed.

(** X4: [getAvailableMoves] lists exactly the Empty cells of the grid, each
    once, in row-major order; there are as many as the board has Empty
    cells. *)
Theorem getAvailableMoves_spec (b : Board) :
  getAvailableMoves b =
    map point_of (List.filter (fun c => holds b c.1 c.2 " ") scan_cells) /\
  (forall i j : nat,
     mkQPoint (Z.of_nat i) (Z.of_nat j) ∈ getAvailableMoves b <->
     (i < 3)%nat /\ (j < 3)%nat /\ cell b i j = Some " ") /\
  NoDup (getAvailableMoves b) /\
  length (getAvailableMoves b) = blanks b.
Proof.
  rewrite getAvailableMoves_filter. split; [done|]. split; [|split].
  - intros i j. rewrite list_elem_of_fmap. split.
    + intros (c & Hpt & Hc). apply (point_of_inj (i, j)) in Hpt as <-.
      apply list_elem_of_In, filter_In in Hc as [Hc Hb].
      apply list_elem_of_In, elem_of_scan_cells in Hc. simpl in Hb.
      apply holds_true in Hb. tauto.
    + intros (Hi & Hj & Hb). exists (i, j). split; [done|].
      apply list_elem_of_In, filter_In. split.
      * apply list_elem_of_In, elem_of_scan_cells. done.
      * by apply holds_true.
  - apply NoDup_fmap_2; [intros ? ?; apply point_of_inj|].
    apply NoDup_ListNoDup, List.NoDup_filter, NoDup_ListNoDup, scan_cells_NoDup.
  - by rewrite length_map.
Qed.

(** X5: [switchPlayer] always leaves X or O as the current player, restores
    the object when applied twice to a board whose player is X or O, and
    touches nothing but the current player. *)
Theorem switchPlayer_spec (g : GameBoard) :
  (currentPlayer (switchPlayer g) = "X" \/ currentPlayer (switchPlayer g) = "O") /\
  (currentPlayer g = "X" \/ currentPlayer g = "O" ->
   switchPlayer (switchPlayer g) = g) /\
  (currentPlayer g <> "X" -> currentPlayer (switchPlayer g) = "X") /\
  board (switchPlayer g) = board g /\
  gameActive (switchPlayer g) = gameActive g /\
  gameMode (switchPlayer g) = gameMode g.
Proof.
  destruct g as [b cp act m]. unfold switchPlayer. simpl.
  split; [destruct (Ascii.eqb cp "X"); auto|].
  split; [intros [->| ->]; reflexivity|].
  split; [|done]. intros Hcp. apply Ascii.eqb_neq in Hcp. by rewrite Hcp.
Qed.

Lemma switchPlayer_spec_witness :
  switchPlayer (switchPlayer (GameBoard_new 1)) = GameBoard_new 1.
Proof. apply (switchPlayer_spec (GameBoard_new 1)). by left. Defined.

(** ** Positions the controller reaches *)

Lemma legal_marks_set (b : Board) i j p :
  legal_marks b -> p = " " \/ p = "X" \/ p = "O" ->
  legal_marks (set_cell b i j p).
Proof.
  intros Hb Hp. apply Forall_alter; [done|].
  intros row _ Hrow. by apply Forall_insert.
Qed.

Lemma empty_board_legal : legal_marks empty_board.
Proof. repeat constructor. Qed.

Lemma isFull_board (g g' : GameBoard) :
  board g' = board g -> isFull g' = isFull g.
Proof. intros H. unfold isFull. by rewrite H. Qed.

(** The mover's mark on an Empty cell of a position in progress. *)
Lemma place_moved_inv (g : GameBoard) c :
  controller_inv g -> position_inv g -> gameActive g = true ->
  c ∈ scan_cells -> holds (board g) c.1 c.2 " " = true ->
  moved_inv (mkGameBoard (set_cell (board g) c.1 c.2 (currentPlayer g))
                         (currentPlayer g) (gameActive g) (gameMode g)).
Proof.
  intros _ (Hwf & Hlegal & _ & Hact) Ha Hc Hb.
  destruct (Hact Ha) as [_ Hturn]. unfold moved_inv. simpl.
  split; [by apply wf_set_cell|].
  destruct Hturn as [[Hcp Hn]|[Hcp Hn]]; rewrite Hcp.
  - split; [apply legal_marks_set; auto|]. left. split; [done|].
    rewrite marks_place_same, marks_place_other by done. by rewrite Hn.
  - split; [apply legal_marks_set; auto|]. right. split; [done|].
    rewrite marks_place_same, marks_place_other by done. by rewrite Hn.
Qed.

Lemma evaluate_outcome_position dialog (g : GameBoard) :
  moved_inv g -> position_inv (evaluate_outcome dialog g).
Proof.
  intros (Hwf & Hlegal & Hturn). unfold evaluate_outcome.
  assert (Hover :
    position_inv (deactivate (disableBoard (emit_gameOver dialog g)))).
  { unfold emit_gameOver. destruct dialog.
    - split; [apply empty_board_wf|]. split; [apply empty_board_legal|].
      split; [by left|done].
    - split; [done|]. split; [done|]. split; [|done]. simpl.
      destruct Hturn as [[_ ->]|[_ ->]]; auto. }
  destruct (checkWinner g (currentPlayer g)); [done|].
  destruct (isFull g) eqn:Hfull; [done|].
  split; [done|]. split; [done|]. simpl. split.
  - destruct Hturn as [[_ ->]|[_ ->]]; auto.
  - intros _. split; [by rewrite (isFull_board g)|].
    destruct Hturn as [[-> Hn]|[-> Hn]]; simpl; auto.
Qed.

Lemma onCellClicked_position dialog (g : GameBoard) i j :
  controller_inv g -> position_inv g ->
  position_inv (onCellClicked dialog g i j).
Proof.
  intros Hc Hp. unfold onCellClicked.
  destruct (gameActive g) eqn:Ha; simpl; [|done].
  destruct (negb _); [done|].
  destruct (makeMove_cases g (Z.of_nat i) (Z.of_nat j) (currentPlayer g))
    as [H|(_ & c & Hin & _ & _ & Hb & H)]; rewrite H; [done|].
  apply evaluate_outcome_position. by apply place_moved_inv.
Qed.

Lemma aiMove_position dialog (g g' : GameBoard) :
  controller_inv g -> position_inv g -> aiMove dialog g = Some g' ->
  position_inv g'.
Proof.
  intros Hc Hp. unfold aiMove.
  destruct (gameActive g) eqn:Ha; simpl; [|congruence].
  destruct (_ || _); [congruence|].
  destruct (findBestMove g) as [[mv g0]|] eqn:Hf; [|done].
  apply findBestMove_cell in Hf as [-> Hmv].
  destruct Hmv as [->|([ci cj] & Hin & Hb & ->)]; simpl; [congruence|].
  simpl in Hb. pose proof Hin as [Hi Hj]%elem_of_scan_cells.
  replace (negb (Z.of_nat ci =? -1)%Z && negb (Z.of_nat cj =? -1)%Z)
    with true
    by (symmetry; apply andb_true_iff; split; apply negb_true_iff, Z.eqb_neq; lia).
  destruct (makeMove_cases g (Z.of_nat ci) (Z.of_nat cj) (currentPlayer g))
    as [H|(_ & c' & Hin' & H1 & H2 & Hb' & H)]; rewrite H.
  - unfold makeMove in H. rewrite !Nat2Z.id, Hb, Ha in H.
    replace (0 <=? Z.of_nat ci)%Z with true in H by lia.
    replace (Z.of_nat ci <? 3)%Z with true in H by lia.
    replace (0 <=? Z.of_nat cj)%Z with true in H by lia.
    replace (Z.of_nat cj <? 3)%Z with true in H by lia.
    discriminate.
  - intros [= <-]. apply evaluate_outcome_position. by apply place_moved_inv.
Qed.

Lemma GameBoard_new_position mode : position_inv (GameBoard_new mode).
Proof.
  split; [apply empty_board_wf|]. split; [apply empty_board_legal|].
  split; [by left|]. intros _. split; [done|]. by left.
Qed.

Lemma reachable_position dialog mode (g : GameBoard) :
  reachable dialog (GameBoard_new mode) g -> position_inv g.
Proof.
  induction 1 as [|g g' Hreach IH Hstep]; [apply GameBoard_new_position|].
  apply reachable_inv in Hreach. destruct Hstep as [g i j|g g' Hai].
  - by apply onCellClicked_position.
  - by eapply aiMove_position.
Qed.

(** ** The end of a game *)

(** X8: once [gameActive] is cleared, no click and no timer event changes the
    object any more. *)
Theorem finished_game_is_frozen dialog (g g' : GameBoard) :
  gameActive g = false -> reachable dialog g g' -> g' = g.
Proof.
  intros Ha. induction 1 as [|g1 g2 _ IH Hstep]; [done|].
  subst g1. destruct Hstep as [g i j|g g' Hai].
  - by apply onCellClicked_inactive.
  - rewrite aiMove_inactive in Hai by done. congruence.
Qed.

Lemma finished_game_is_frozen_witness :
  onCellClicked true (disableBoard (GameBoard_new 1)) 0 0
  = disableBoard (GameBoard_new 1).
Proof.
  apply (finished_game_is_frozen true (disableBoard (GameBoard_new 1)));
    [reflexivity|].
  eapply reach_step; [apply reach_start|apply step_click].
Defined.

(** X9: a click that wins or fills the board ends the game with the board
    disabled.  On a bare board the final position stays.  With the dialog's
    slot connected the board is emptied and X is to move, but it is disabled
    all the same: the [enableBoard] of [onGameOver] runs inside the [emit]
    and the [disableBoard] of the clicked slot runs after it. *)
Theorem finishing_click (g : GameBoard) (i j : nat) :
  gameActive g = true -> (i < 3)%nat -> (j < 3)%nat ->
  cell (board g) i j = Some " " ->
  checkWinner (makeMove g (Z.of_nat i) (Z.of_nat j) (currentPlayer g)).2
              (currentPlayer g)
  || isFull (makeMove g (Z.of_nat i) (Z.of_nat j) (currentPlayer g)).2 = true ->
  onCellClicked false g i j =
    mkGameBoard (set_cell (board g) i j (currentPlayer g)) (currentPlayer g)
                false (gameMode g) /\
  onCellClicked true g i j = mkGameBoard empty_board "X" false (gameMode g).
Proof.
  intros Ha Hi Hj Hcell%holds_true. unfold onCellClicked, makeMove.
  rewrite !Nat2Z.id, Hcell, Ha.
  replace (i <? 3)%nat with true by (symmetry; apply Nat.ltb_lt; lia).
  replace (j <? 3)%nat with true by (symmetry; apply Nat.ltb_lt; lia).
  replace (0 <=? Z.of_nat i)%Z with true by lia.
  replace (Z.of_nat i <? 3)%Z with true by lia.
  replace (0 <=? Z.of_nat j)%Z with true by lia.
  replace (Z.of_nat j <? 3)%Z with true by lia.
  cbn [negb andb fst snd]. unfold evaluate_outcome. cbn [currentPlayer].
  intros Hend.
  destruct (checkWinner _ _); [done|]. destruct (isFull _); [done|discriminate].
Qed.

Lemma finishing_click_witness :
  onCellClicked false
    (mkGameBoard [["X";"X";" "];["O";"O";" "];[" ";" ";" "]] "X" true 1) 0 2
  = mkGameBoard [["X";"X";"X"];["O";"O";" "];[" ";" ";" "]] "X" false 1 /\
  onCellClicked true
    (mkGameBoard [["X";"X";" "];["O";"O";" "];[" ";" ";" "]] "X" true 1) 0 2
  = mkGameBoard empty_board "X" false 1.
Proof.
  apply (finishing_click
           (mkGameBoard [["X";"X";" "];["O";"O";" "];[" ";" ";" "]] "X" true 1)
           0 2)%nat; [reflexivity | lia | lia | reflexivity | reflexivity].
Defined.

(** ** More about the search *)

(** X10: in computer mode with O to move, on a 3x3 board that is not full,
    the timer slot places exactly one O, on the Empty cell [findBestMove]
    returns, and then evaluates the outcome; the flag of [makeMove], which
    [aiMove] ignores, is true there. *)
Theorem aiMove_places_one_O dialog (g : GameBoard) :
  wf_board (board g) -> gameActive g = true -> currentPlayer g = "O" ->
  gameMode g = 2%Z -> isFull g = false ->
  exists i j, (i < 3)%nat /\ (j < 3)%nat /\ cell (board g) i j = Some " " /\
    findBestMove g = Some (mkQPoint (Z.of_nat i) (Z.of_nat j), g) /\
    makeMove g (Z.of_nat i) (Z.of_nat j) "O" =
      (true, mkGameBoard (set_cell (board g) i j "O") "O" true 2) /\
    aiMove dialog g =
      Some (evaluate_outcome dialog
              (mkGameBoard (set_cell (board g) i j "O") "O" true 2)).
Proof.
  intros Hwf Ha Hcp Hmode Hfull.
  destruct (findBestMove_choice g Hwf Hfull) as ([i j] & Hc & Hb & Hf & _).
  simpl in Hb. apply elem_of_scan_cells in Hc as [Hi Hj].
  exists i, j. do 2 (split; [done|]). split; [by apply holds_true|].
  split; [exact Hf|].
  assert (Hmv : makeMove g (Z.of_nat i) (Z.of_nat j) "O" =
                (true, mkGameBoard (set_cell (board g) i j "O") "O" true 2)).
  { unfold makeMove. rewrite !Nat2Z.id, Hb, Ha, Hcp, Hmode.
    replace (0 <=? Z.of_nat i)%Z with true by lia.
    replace (Z.of_nat i <? 3)%Z with true by lia.
    replace (0 <=? Z.of_nat j)%Z with true by lia.
    by replace (Z.of_nat j <? 3)%Z with true by lia. }
  split; [exact Hmv|].
  unfold aiMove. rewrite Ha, Hcp, Hmode, Hf. cbn [negb orb Ascii.eqb Bool.eqb Z.eqb Pos.eqb].
  unfold point_of. cbn [qx qy fst snd].
  replace (negb (Z.of_nat i =? -1)%Z && negb (Z.of_nat j =? -1)%Z)
    with true
    by (symmetry; apply andb_true_iff; split; apply negb_true_iff, Z.eqb_neq; lia).
  by rewrite Hcp, Hmv.
Qed.

Lemma aiMove_places_one_O_witness :
  exists i j, (i < 3)%nat /\ (j < 3)%nat /\
    cell (board example_game) i j = Some " " /\
    findBestMove example_game
      = Some (mkQPoint (Z.of_nat i) (Z.of_nat j), example_game) /\
    makeMove example_game (Z.of_nat i) (Z.of_nat j) "O" =
      (true, mkGameBoard (set_cell (board example_game) i j "O") "O" true 2) /\
    aiMove false example_game =
      Some (evaluate_outcome false
              (mkGameBoard (set_cell (board example_game) i j "O") "O" true 2)).
Proof.
  apply (aiMove_places_one_O false example_game);
    [split; [reflexivity|by repeat constructor] | reflexivity | reflexivity
    | reflexivity | reflexivity].
Defined.

(** X11: [findBestMove] answers from [getAvailableMoves]: on a 3x3 board it
    returns (-1,-1) when that list is empty and a member of it otherwise. *)
Theorem findBestMove_available (g : GameBoard) :
  wf_board (board g) ->
  exists mv, findBestMove g = Some (mv, g) /\
    (getAvailableMoves (board g) = [] -> mv = mkQPoint (-1) (-1)) /\
    (getAvailableMoves (board g) <> [] -> mv ∈ getAvailableMoves (board g)).
Proof.
  intros Hwf. rewrite getAvailableMoves_filter.
  destruct (evalIsFull (board g)) eqn:Hfull.
  - assert (Hnone : List.filter (fun c => holds (board g) c.1 c.2 " ") scan_cells = []).
    { destruct (List.filter _ _) as [|c l] eqn:Hl; [done|].
      assert (Hc : In c (c :: l)) by (by left). rewrite <- Hl in Hc.
      apply filter_In in Hc as [Hc%list_elem_of_In Hb].
      by rewrite (evalIsFull_true _ c Hwf Hfull Hc) in Hb. }
    rewrite Hnone. simpl.
    destruct (findBestMove g) as [[mv g0]|] eqn:Hf.
    + apply findBestMove_cell in Hf as [-> [->|(c & Hc & Hb & _)]].
      * by eexists.
      * by rewrite (evalIsFull_true _ c Hwf Hfull Hc) in Hb.
    + unfold findBestMove in Hf.
      rewrite findBestMove_scan_flat, choose_scan in Hf.
      destruct (fold_left _ _ _); discriminate.
  - destruct (findBestMove_choice g Hwf Hfull) as (c & Hc & Hb & Hf & _).
    exists (point_of c). split; [done|].
    assert (Hin : point_of c ∈ map point_of
              (List.filter (fun c => holds (board g) c.1 c.2 " ") scan_cells)).
    { apply list_elem_of_fmap. exists c. split; [done|].
      apply list_elem_of_In, filter_In. split; [by apply list_elem_of_In|done]. }
    split; [|done]. intros Hnil. rewrite Hnil in Hin. by apply elem_of_nil in Hin.
Qed.

Lemma findBestMove_available_witness :
  exists mv, findBestMove example_game = Some (mv, example_game) /\
    (getAvailableMoves (board example_game) = [] -> mv = mkQPoint (-1) (-1)) /\
    (getAvailableMoves (board example_game) <> [] ->
     mv ∈ getAvailableMoves (board example_game)).
Proof.
  apply (findBestMove_available example_game).
  split; [reflexivity|by repeat constructor].
Defined.

(** X12: on a 3x3 board every score [minimax] returns is -10, 0 or 10,
    whoever is to move. *)
Theorem minimax_score_range (cb : Board) (player : ascii) :
  wf_board cb ->
  exists v, minimax cb player = Some v /\
    (v = (-10)%Z \/ v = 0%Z \/ v = 10%Z).
Proof.
  intros Hwf. eexists. split; [apply minimax_total|].
  apply minimax_rec_leaf; [done|].
  pose proof (blanks_le_9 cb). unfold call_budget. lia.
Qed.

Lemma minimax_score_range_witness :
  exists v, minimax example_board "O" = Some v /\
    (v = (-10)%Z \/ v = 0%Z \/ v = 10%Z).
Proof.
  apply (minimax_score_range example_board "O").
  split; [reflexivity|by repeat constructor].
Defined.

(** ** [minimax] as a game-tree value *)

Lemma fold_max_spec (cb : Board) (score : nat * nat -> Z) cells : forall init,
  (init <= fold_left (fun acc c =>
     if holds cb c.1 c.2 " " then Z.max acc (score c) else acc) cells init)%Z /\
  (forall c, c ∈ cells -> holds cb c.1 c.2 " " = true ->
     (score c <= fold_left (fun acc c =>
        if holds cb c.1 c.2 " " then Z.max acc (score c) else acc)
        cells init)%Z) /\
  (fold_left (fun acc c =>
     if holds cb c.1 c.2 " " then Z.max acc (score c) else acc) cells init
   = init \/
   exists c, c ∈ cells /\ holds cb c.1 c.2 " " = true /\
     score c = fold_left (fun acc c =>
       if holds cb c.1 c.2 " " then Z.max acc (score c) else acc) cells init).
Proof.
  induction cells as [|a l IH]; intros init; simpl.
  { split; [lia|]. split; [intros c Hc; by apply elem_of_nil in Hc|by left]. }
  destruct (holds cb a.1 a.2 " ") eqn:Hb.
  - destruct (IH (Z.max init (score a))) as (H1 & H2 & H3).
    split; [lia|]. split.
    { intros c [->|Hc]%elem_of_cons Hx; [lia|exact (H2 c Hc Hx)]. }
    destruct H3 as [H3|(c & Hc & Hx & H3)].
    + destruct (Z.max_spec init (score a)) as [[_ Hm]|[_ Hm]];
        rewrite Hm in *; [right; exists a|left; done].
      split; [by left|]. split; [done|]. by rewrite H3.
    + right. exists c. split; [by right|done].
  - destruct (IH init) as (H1 & H2 & H3).
    split; [done|]. split.
    { intros c [->|Hc]%elem_of_cons Hx; [congruence|exact (H2 c Hc Hx)]. }
    destruct H3 as [H3|(c & Hc & Hx & H3)]; [by left|].
    right. exists c. split; [by right|done].
Qed.

Lemma fold_min_spec (cb : Board) (score : nat * nat -> Z) cells : forall init,
  (fold_left (fun acc c =>
     if holds cb c.1 c.2 " " then Z.min acc (score c) else acc) cells init
   <= init)%Z /\
  (forall c, c ∈ cells -> holds cb c.1 c.2 " " = true ->
     (fold_left (fun acc c =>
        if holds cb c.1 c.2 " " then Z.min acc (score c) else acc)
        cells init <= score c)%Z) /\
  (fold_left (fun acc c =>
     if holds cb c.1 c.2 " " then Z.min acc (score c) else acc) cells init
   = init \/
   exists c, c ∈ cells /\ holds cb c.1 c.2 " " = true /\
     score c = fold_left (fun acc c =>
       if holds cb c.1 c.2 " " then Z.min acc (score c) else acc) cells init).
Proof.
  induction cells as [|a l IH]; intros init; simpl.
  { split; [lia|]. split; [intros c Hc; by apply elem_of_nil in Hc|by left]. }
  destruct (holds cb a.1 a.2 " ") eqn:Hb.
  - destruct (IH (Z.min init (score a))) as (H1 & H2 & H3).
    split; [lia|]. split.
    { intros c [->|Hc]%elem_of_cons Hx; [lia|exact (H2 c Hc Hx)]. }
    destruct H3 as [H3|(c & Hc & Hx & H3)].
    + destruct (Z.min_spec init (score a)) as [[_ Hm]|[_ Hm]];
        rewrite Hm in *; [left; done|right; exists a].
      split; [by left|]. split; [done|]. by rewrite H3.
    + right. exists c. split; [by right|done].
  - destruct (IH init) as (H1 & H2 & H3).
    split; [done|]. split.
    { intros c [->|Hc]%elem_of_cons Hx; [congruence|exact (H2 c Hc Hx)]. }
    destruct H3 as [H3|(c & Hc & Hx & H3)]; [by left|].
    right. exists c. split; [by right|done].
Qed.

Lemma minimax_child (cb : Board) mark next c :
  minimax (set_cell cb c.1 c.2 mark) next = Some (child_score cb mark next c).
Proof. apply minimax_total. Qed.

(** The recursive call on a child, with the fuel the caller has left. *)
Lemma child_call (cb : Board) mark next c :
  c ∈ scan_cells -> holds cb c.1 c.2 " " = true -> mark <> " " ->
  minimax_rec 9 (set_cell cb c.1 c.2 mark) next =
  Some (child_score cb mark next c, set_cell cb c.1 c.2 mark).
Proof.
  intros Hc Hb Hm. pose proof (blanks_place cb c mark Hc Hb Hm) as Hbl.
  pose proof (blanks_le_9 cb). unfold child_score.
  rewrite <- (minimax_rec_fuel 9 call_budget) by (unfold call_budget; lia).
  apply minimax_rec_total. lia.
Qed.

Lemma minimax_fold (cb : Board) player :
  evalIsWinner cb "O" = false -> evalIsWinner cb "X" = false ->
  evalIsFull cb = false ->
  minimax cb player =
  Some (if Ascii.eqb player "O"
        then fold_left (fun acc c =>
               if holds cb c.1 c.2 " "
               then Z.max acc (child_score cb "O" "X" c) else acc)
               scan_cells (-1000)%Z
        else fold_left (fun acc c =>
               if holds cb c.1 c.2 " "
               then Z.min acc (child_score cb "X" "O" c) else acc)
               scan_cells 1000%Z).
Proof.
  intros HO HX Hfull. unfold minimax, call_budget.
  rewrite minimax_rec_S, HO, HX, Hfull.
  destruct (Ascii.eqb player "O").
  - rewrite (explore_scan _ _ _ cb (child_score cb "O" "X")); [done|].
    intros c Hc Hb. eexists. by apply child_call.
  - rewrite (explore_scan _ _ _ cb (child_score cb "X" "O")); [done|].
    intros c Hc Hb. eexists. by apply child_call.
Qed.

Lemma child_score_leaf (cb : Board) mark next c :
  wf_board cb -> leaf_score (child_score cb mark next c).
Proof.
  intros Hwf. apply minimax_rec_leaf; [by apply wf_set_cell|].
  pose proof (blanks_le_9 (set_cell cb c.1 c.2 mark)). unfold call_budget. lia.
Qed.

(** X13: on a 3x3 board where nobody owns a line and a cell is Empty,
    [minimax] is the game-tree value: with O to move it is the largest score
    of the boards obtained by placing O on an Empty cell with X to move, and
    with any other side to move it is the smallest score of the boards
    obtained by placing X with O to move. *)
Theorem minimax_recurrence (cb : Board) (player : ascii) :
  wf_board cb -> evalIsWinner cb "O" = false -> evalIsWinner cb "X" = false ->
  evalIsFull cb = false ->
  exists v, minimax cb player = Some v /\
    (player = "O" ->
       (exists i j, (i < 3)%nat /\ (j < 3)%nat /\ cell cb i j = Some " " /\
          minimax (set_cell cb i j "O") "X" = Some v) /\
       (forall i j s, (i < 3)%nat -> (j < 3)%nat -> cell cb i j = Some " " ->
          minimax (set_cell cb i j "O") "X" = Some s -> (s <= v)%Z)) /\
    (player <> "O" ->
       (exists i j, (i < 3)%nat /\ (j < 3)%nat /\ cell cb i j = Some " " /\
          minimax (set_cell cb i j "X") "O" = Some v) /\
       (forall i j s, (i < 3)%nat -> (j < 3)%nat -> cell cb i j = Some " " ->
          minimax (set_cell cb i j "X") "O" = Some s -> (v <= s)%Z)).
Proof.
  intros Hwf HO HX Hfull. rewrite (minimax_fold cb player HO HX Hfull).
  destruct (evalIsFull_false cb Hwf Hfull) as (c0 & Hc0 & Hb0).
  eexists. split; [done|]. split; intros Hp.
  - subst player. cbn [Ascii.eqb Bool.eqb].
    destruct (fold_max_spec cb (child_score cb "O" "X") scan_cells (-1000)%Z)
      as (_ & Hub & Hatt). split.
    + destruct Hatt as [Hinit|([i j] & Hc & Hb & Heq)].
      * specialize (Hub c0 Hc0 Hb0).
        pose proof (child_score_leaf cb "O" "X" c0 Hwf) as Hl.
        unfold leaf_score in Hl. lia.
      * apply elem_of_scan_cells in Hc as [Hi Hj]. exists i, j.
        do 2 (split; [done|]). split; [by apply holds_true|].
        rewrite <- Heq. apply (minimax_child cb "O" "X" (i, j)).
    + intros i j s Hi Hj Hb%holds_true Hs.
      pose proof (minimax_child cb "O" "X" (i, j)) as Hm. cbn [fst snd] in Hm.
      rewrite Hm in Hs. injection Hs as <-.
      apply Hub; [by apply elem_of_scan_cells|done].
  - apply Ascii.eqb_neq in Hp. rewrite Hp.
    destruct (fold_min_spec cb (child_score cb "X" "O") scan_cells 1000%Z)
      as (_ & Hlb & Hatt). split.
    + destruct Hatt as [Hinit|([i j] & Hc & Hb & Heq)].
      * specialize (Hlb c0 Hc0 Hb0).
        pose proof (child_score_leaf cb "X" "O" c0 Hwf) as Hl.
        unfold leaf_score in Hl. lia.
      * apply elem_of_scan_cells in Hc as [Hi Hj]. exists i, j.
        do 2 (split; [done|]). split; [by apply holds_true|].
        rewrite <- Heq. apply (minimax_child cb "X" "O" (i, j)).
    + intros i j s Hi Hj Hb%holds_true Hs.
      pose proof (minimax_child cb "X" "O" (i, j)) as Hm. cbn [fst snd] in Hm.
      rewrite Hm in Hs. injection Hs as <-.
      apply Hlb; [by apply elem_of_scan_cells|done].
Qed.

Lemma minimax_recurrence_witness :
  exists v, minimax example_board "O" = Some v /\
    ("O" = "O" ->
       (exists i j, (i < 3)%nat /\ (j < 3)%nat /\
          cell example_board i j = Some " " /\
          minimax (set_cell example_board i j "O") "X" = Some v) /\
       (forall i j s, (i < 3)%nat -> (j < 3)%nat ->
          cell example_board i j = Some " " ->
          minimax (set_cell example_board i j "O") "X" = Some s -> (s <= v)%Z)) /\
    ("O" <> "O" ->
       (exists i j, (i < 3)%nat /\ (j < 3)%nat /\
          cell example_board i j = Some " " /\
          minimax (set_cell example_board i j "X") "O" = Some v) /\
       (forall i j s, (i < 3)%nat -> (j < 3)%nat ->
          cell example_board i j = Some " " ->
          minimax (set_cell example_board i j "X") "O" = Some s -> (v <= s)%Z)).
Proof.
  apply (minimax_recurrence example_board "O");
    [split; [reflexivity|by repeat constructor]
    | reflexivity | reflexivity | reflexivity].
Defined.

(** X14: on a 3x3 board where nobody owns a line and a cell is Empty, the
    cell [findBestMove] returns attains the value of the position: its score
    equals [minimax] of the board itself with O to move. *)
Theorem findBestMove_attains_minimax (g : GameBoard) :
  wf_board (board g) -> checkWinner g "O" = false ->
  checkWinner g "X" = false -> isFull g = false ->
  exists i j v, findBestMove g = Some (mkQPoint (Z.of_nat i) (Z.of_nat j), g) /\
    minimax (set_cell (board g) i j "O") "X" = Some v /\
    minimax (board g) "O" = Some v.
Proof.
  intros Hwf HO HX Hfull.
  destruct (findBestMove_choice g Hwf Hfull) as ([i j] & Hc & Hb & Hf & Hmax & _).
  exists i, j, (score_at (board g) (i, j)).
  split; [exact Hf|]. split; [apply minimax_score_at|].
  rewrite (minimax_fold (board g) "O" HO HX Hfull). cbn [Ascii.eqb Bool.eqb].
  f_equal.
  destruct (fold_max_spec (board g) (child_score (board g) "O" "X")
              scan_cells (-1000)%Z) as (_ & Hub & Hatt).
  pose proof (Hub _ Hc Hb) as Hle.
  destruct Hatt as [Hinit|(c & Hc' & Hb' & Heq)].
  - pose proof (child_score_leaf (board g) "O" "X" (i, j) Hwf) as Hl.
    unfold leaf_score in Hl. lia.
  - pose proof (Hmax c Hc' Hb') as Hge.
    change (score_at (board g)) with (child_score (board g) "O" "X") in *. lia.
Qed.

Lemma findBestMove_attains_minimax_witness :
  exists i j v,
    findBestMove example_game
      = Some (mkQPoint (Z.of_nat i) (Z.of_nat j), example_game) /\
    minimax (set_cell (board example_game) i j "O") "X" = Some v /\
    minimax (board example_game) "O" = Some v.
Proof.
  apply (findBestMove_attains_minimax example_game);
    [split; [reflexivity|by repeat constructor]
    | reflexivity | reflexivity | reflexivity].
Defined.

(** X15: when some Empty cell of a 3x3 board completes a line for O,
    [findBestMove] returns a cell of score 10.  It need not be that cell:
    a later win scores the same. *)
Theorem findBestMove_scores_a_win (g : GameBoard) (i j : nat) :
  wf_board (board g) -> (i < 3)%nat -> (j < 3)%nat ->
  cell (board g) i j = Some " " ->
  evalIsWinner (set_cell (board g) i j "O") "O" = true ->
  exists i' j',
    findBestMove g = Some (mkQPoint (Z.of_nat i') (Z.of_nat j'), g) /\
    minimax (set_cell (board g) i' j' "O") "X" = Some 10%Z.
Proof.
  intros Hwf Hi Hj Hb%holds_true Hwin.
  assert (Hc : (i, j) ∈ scan_cells) by (by apply elem_of_scan_cells).
  assert (Hfull : evalIsFull (board g) = false).
  { destruct (evalIsFull (board g)) eqn:Hf; [|done].
    pose proof (evalIsFull_true _ (i, j) Hwf Hf Hc) as Hx. simpl in Hx.
    congruence. }
  destruct (findBestMove_choice g Hwf Hfull) as ([i' j'] & _ & _ & Hf & Hmax & _).
  exists i', j'. split; [exact Hf|]. rewrite minimax_score_at. f_equal.
  assert (Hten : score_at (board g) (i, j) = 10%Z).
  { unfold score_at, call_budget. rewrite minimax_rec_S. simpl fst. simpl snd.
    by rewrite Hwin. }
  pose proof (Hmax _ Hc Hb) as Hge. rewrite Hten in Hge.
  pose proof (score_at_leaf (board g) (i', j') Hwf) as Hl.
  unfold leaf_score in Hl. lia.
Qed.

Lemma findBestMove_scores_a_win_witness :
  exists i' j',
    findBestMove example_game
      = Some (mkQPoint (Z.of_nat i') (Z.of_nat j'), example_game) /\
    minimax (set_cell (board example_game) i' j' "O") "X" = Some 10%Z.
Proof.
  apply (findBestMove_scores_a_win example_game 1 2);
    [split; [reflexivity|by repeat constructor]
    | lia | lia | reflexivity | reflexivity].
Defined.

(** ** The computer as second player *)

Lemma play_check_ok ok n (g : GameBoard) :
  play_check ok n g = true -> ok g = true.
Proof. destruct n; simpl; by intros [H _]%andb_prop. Qed.

Lemma play_check_human ok n (g : GameBoard) i j :
  play_check ok n g = true -> currentPlayer g = "X" ->
  exists m, play_check ok m (onCellClicked false g i j) = true.
Proof.
  intros Hsafe Hcp.
  destruct (gameActive g) eqn:Ha;
    [|exists n; by rewrite onCellClicked_inactive].
  destruct (decide ((i, j) ∈ scan_cells)) as [Hin|Hout];
    [|exists n; by rewrite onCellClicked_outside].
  destruct (holds (board g) i j " ") eqn:Hb;
    [|exists n; by rewrite onCellClicked_rejected].
  destruct n as [|n]; cbn [play_check] in Hsafe;
    rewrite Ha, ?Hcp in Hsafe; cbn [negb Ascii.eqb Bool.eqb] in Hsafe.
  { by rewrite andb_false_r in Hsafe. }
  apply andb_prop in Hsafe as [_ Hall]. rewrite forallb_forall in Hall.
  apply list_elem_of_In in Hin. specialize (Hall _ Hin). simpl in Hall.
  rewrite Hb in Hall. by exists n.
Qed.

Lemma play_check_ai ok n (g g' : GameBoard) :
  play_check ok n g = true -> currentPlayer g = "O" ->
  aiMove false g = Some g' ->
  exists m, play_check ok m g' = true.
Proof.
  intros Hsafe Hcp Hai.
  destruct (gameActive g) eqn:Ha.
  - destruct n as [|n]; cbn [play_check] in Hsafe;
      rewrite Ha, ?Hcp in Hsafe; cbn [negb Ascii.eqb Bool.eqb] in Hsafe;
      [by rewrite andb_false_r in Hsafe|].
    apply andb_prop in Hsafe as [_ Hnext]. rewrite Hai in Hnext. by exists n.
  - rewrite aiMove_inactive in Hai by done. exists n. congruence.
Qed.

Lemma play_check_sound ok n (g0 g : GameBoard) :
  play_check ok n g0 = true -> turn_play g0 g -> ok g = true.
Proof.
  intros H0 Hplay.
  assert (Hex : exists m, play_check ok m g = true).
  { induction Hplay as [|g g' _ [m IH] Hcp Hai|g i j _ [m IH] Hcp].
    - by exists n.
    - by eapply play_check_ai.
    - by eapply play_check_human. }
  destruct Hex as [m Hm]. by eapply play_check_ok.
Qed.

Lemma play_check_new_game :
  play_check computer_not_beaten 10 (GameBoard_new 2) = true.
Proof. vm_cast_no_check (eq_refl true). Qed.

(** X16: in computer mode from a new game, X moving first by clicks and O by
    the timer slot, X never owns a line, and when the game has ended either
    O owns a line or the board is full: the computer wins or draws. *)
Theorem computer_never_loses (g : GameBoard) :
  turn_play (GameBoard_new 2) g ->
  checkWinner g "X" = false /\
  (gameActive g = false -> checkWinner g "O" = true \/ isFull g = true).
Proof.
  intros H%(play_check_sound _ _ _ _ play_check_new_game).
  unfold computer_not_beaten in H.
  apply andb_prop in H as [HX Hend]. apply negb_true_iff in HX.
  split; [done|]. intros Ha. rewrite Ha in Hend. simpl in Hend.
  by apply orb_prop in Hend.
Qed.

Lemma computer_never_loses_witness :
  checkWinner (onCellClicked false (GameBoard_new 2) 1 1) "X" = false /\
  (gameActive (onCellClicked false (GameBoard_new 2) 1 1) = false ->
   checkWinner (onCellClicked false (GameBoard_new 2) 1 1) "O" = true \/
   isFull (onCellClicked false (GameBoard_new 2) 1 1) = true).
Proof.
  apply (computer_never_loses (onCellClicked false (GameBoard_new 2) 1 1)).
  apply turn_human; [apply turn_start|reflexivity].
Defined.

(** ** Metrics *)

Lemma endGame_effect (gm : GameMetrics) (w : string) :
  totalGames (endGame gm w) = (totalGames gm + 1)%Z /\
  (playerWins (endGame gm w) + aiWins (endGame gm w) + draws (endGame gm w)
   = playerWins gm + aiWins gm + draws gm + 1)%Z /\
  aiWins (endGame gm w) = (aiWins gm + if (w =? "AI")%string then 1 else 0)%Z /\
  playerWins (endGame gm w) =
    (playerWins gm +
     if ((w =? "You") || (w =? "Player 1") || (w =? "Player 2"))%string
     then 1 else 0)%Z.
Proof.
  unfold endGame.
  destruct (String.eqb_spec w "You") as [->|H1]; [cbn; lia|].
  destruct (String.eqb_spec w "Player 1") as [->|H2]; [cbn; lia|].
  destruct (String.eqb_spec w "Player 2") as [->|H3]; [cbn; lia|].
  destruct (String.eqb_spec w "AI") as [->|H4]; cbn; lia.
Qed.

(** X17: after any number of finished games the counters of [GameMetrics]
    add up: [totalGames] is the number of games and equals
    [playerWins + aiWins + draws]; "AI" counts for the computer, "You",
    "Player 1" and "Player 2" for a player, and every other text, not only
    "Draw", as a draw. *)
Theorem endGame_counts (ws : list string) :
  totalGames (fold_left endGame ws GameMetrics_new) = Z.of_nat (length ws) /\
  (totalGames (fold_left endGame ws GameMetrics_new) =
   playerWins (fold_left endGame ws GameMetrics_new)
   + aiWins (fold_left endGame ws GameMetrics_new)
   + draws (fold_left endGame ws GameMetrics_new))%Z /\
  aiWins (fold_left endGame ws GameMetrics_new) =
    Z.of_nat (length (List.filter (fun w => (w =? "AI")%string) ws)) /\
  playerWins (fold_left endGame ws GameMetrics_new) =
    Z.of_nat (length (List.filter (fun w =>
      ((w =? "You") || (w =? "Player 1") || (w =? "Player 2"))%string) ws)).
Proof.
  induction ws as [|w ws IH] using rev_ind; [done|].
  rewrite fold_left_app. cbn [fold_left]. destruct IH as (H1 & H2 & H3 & H4).
  destruct (endGame_effect (fold_left endGame ws GameMetrics_new) w)
    as (E1 & E2 & E3 & E4).
  rewrite !List.filter_app, !length_app. cbn [List.filter].
  rewrite E1, E3, E4.
  destruct ((w =? "You") || (w =? "Player 1") || (w =? "Player 2"))%string,
    (w =? "AI")%string; cbn [length]; lia.
Qed.

(** ** The game dialog *)

Lemma replay_app (ms1 ms2 : list Move) (g : GameBoard) :
  replay (ms1 ++ ms2) g = replay ms1 g ≫= replay ms2.
Proof.
  revert g. induction ms1 as [|m ms1 IH]; intros g; [done|].
  simpl. destruct (makeMove _ _ _ _) as [[] g1]; [apply IH|done].
Qed.

Lemma session_onCellClicked_conclude (s : Session) i j g :
  gameBoard (gameDialog s) = Some g ->
  session_onCellClicked s i j = (s, None) \/
  (gameActive g = true /\ (i, j) ∈ scan_cells /\
   holds (board g) i j " " = true /\
   session_onCellClicked s i j =
   conclude s
     (mkGameBoard (set_cell (board g) i j (currentPlayer g))
                  (currentPlayer g) (gameActive g) (gameMode g))
     (Z.of_nat i) (Z.of_nat j)
     (winner_name (gameMode g) (currentPlayer g))).
Proof.
  intros Hg. unfold session_onCellClicked. rewrite Hg.
  destruct (gameActive g) eqn:Ha; simpl; [|by left].
  destruct (Nat.ltb_spec i 3), (Nat.ltb_spec j 3); simpl; try by left.
  destruct (holds (board g) i j " ") eqn:Hb.
  - right. assert (Hin : (i, j) ∈ scan_cells) by (by apply elem_of_scan_cells).
    do 3 (split; [done|]).
    rewrite (makeMove_accept g (i, j)) by done. simpl. by rewrite Ha.
  - left. unfold makeMove. rewrite !Nat2Z.id, Hb. by rewrite !andb_false_r.
Qed.

Lemma session_aiMove_conclude (s : Session) r g :
  gameBoard (gameDialog s) = Some g -> session_aiMove s = Some r ->
  r = (s, None) \/ r = (with_board s g, None) \/
  (gameActive g = true /\ currentPlayer g = "O" /\ gameMode g = 2%Z /\
   exists c, c ∈ scan_cells /\ holds (board g) c.1 c.2 " " = true /\
     r = conclude s
           (mkGameBoard (set_cell (board g) c.1 c.2 (currentPlayer g))
                        (currentPlayer g) (gameActive g) (gameMode g))
           (Z.of_nat c.1) (Z.of_nat c.2) "AI").
Proof.
  intros Hg. unfold session_aiMove. rewrite Hg.
  destruct (gameActive g) eqn:Ha; simpl; [|intros [= <-]; by left].
  destruct (Ascii.eqb (currentPlayer g) "O") eqn:Hcp; simpl;
    [|intros [= <-]; by left].
  destruct (gameMode g =? 2)%Z eqn:Hm; simpl; [|intros [= <-]; by left].
  apply Ascii.eqb_eq in Hcp. apply Z.eqb_eq in Hm.
  destruct (findBestMove g) as [[mv g0]|] eqn:Hf; [|done].
  apply findBestMove_cell in Hf as [-> Hmv].
  destruct Hmv as [->|(c & Hin & Hb & ->)]; simpl;
    [intros [= <-]; right; by left|].
  pose proof Hin as Hin'. destruct c as [ci cj].
  apply elem_of_scan_cells in Hin' as [Hi Hj]. simpl.
  replace (negb (Z.of_nat ci =? -1)%Z && negb (Z.of_nat cj =? -1)%Z)
    with true
    by (symmetry; apply andb_true_iff; split; apply negb_true_iff, Z.eqb_neq; lia).
  rewrite (makeMove_accept g (ci, cj)) by done. simpl.
  intros Hs'. right. right. do 3 (split; [done|]).
  exists (ci, cj). do 2 (split; [done|]). simpl. unfold conclude. simpl.
  rewrite Ha in *.
  destruct (checkWinner _ _); [congruence|].
  destruct (isFull _); congruence.
Qed.

(** The timer slot always returns. *)
Lemma session_aiMove_total (s : Session) : is_Some (session_aiMove s).
Proof.
  unfold session_aiMove. destruct (gameBoard _) as [g|]; [|by eexists].
  destruct (_ || _); [by eexists|].
  unfold findBestMove. rewrite findBestMove_scan_flat, choose_scan.
  destruct (fold_left _ _ _) as [bs mv].
  destruct (_ && _); [|by eexists].
  destruct (makeMove _ _ _ _) as [acc g1].
  destruct (checkWinner _ _); [by eexists|].
  destruct (isFull _); by eexists.
Qed.

Lemma winner_name_AI : winner_name 2 "O" = "AI"%string.
Proof. reflexivity. Qed.

(** A line stays when a mark is put on an Empty cell. *)
Lemma checkWinner_kept (g : GameBoard) i j c p cp act mode :
  checkWinner g p = true -> p <> " " -> holds (board g) i j " " = true ->
  checkWinner (mkGameBoard (set_cell (board g) i j c) cp act mode) p = true.
Proof.
  rewrite !checkWinner_evalIsWinner, !evalIsWinner_has_line. simpl.
  intros (line & Hin & Hline)%has_line_true Hp Hb%holds_true.
  apply has_line_true. exists line. split; [done|].
  intros i' j' Hij. specialize (Hline i' j' Hij).
  rewrite cell_set_ne; [done|]. intros [= -> ->]. congruence.
Qed.

Lemma isFull_no_blank (g : GameBoard) c :
  wf_board (board g) -> isFull g = true -> c ∈ scan_cells ->
  holds (board g) c.1 c.2 " " = true -> False.
Proof.
  intros Hwf Hfull Hc Hb. rewrite isFull_evalIsFull in Hfull.
  by rewrite (evalIsFull_true _ c Hwf Hfull Hc) in Hb.
Qed.

(** The session right after a slot has placed the mover's mark on an Empty
    cell and [recordMove] has run. *)
Lemma placed_facts (s : Session) g c :
  moves_match_board s -> gameBoard (gameDialog s) = Some g ->
  wf_board (board g) -> legal_marks (board g) ->
  currentPlayer g = "X" \/ currentPlayer g = "O" ->
  gameActive g = true -> c ∈ scan_cells ->
  holds (board g) c.1 c.2 " " = true ->
  let g1 := mkGameBoard (set_cell (board g) c.1 c.2 (currentPlayer g))
                        (currentPlayer g) (gameActive g) (gameMode g) in
  let s1 := mkSession (recordMove (gameDialog (with_board s g1))
                         (Z.of_nat c.1) (Z.of_nat c.2) (currentPlayer g1))
                      (gameHistory s) (gameMetrics s) in
  moves_match_board s1 /\ moves_match_board (with_board s1 (switchPlayer g1)) /\
  wf_board (board g1) /\ legal_marks (board g1).
Proof.
  intros Hmoves Hg Hwf Hlegal Hcp Ha Hc Hb g1 s1.
  unfold moves_match_board in Hmoves. rewrite Hg in Hmoves.
  destruct Hmoves as (Hmode & Hplayers & Hreplay).
  assert (Hplayers1 :
    Forall (fun mv => player mv = "X" \/ player mv = "O")
      (dialogMoves (gameDialog s)
       ++ [mkMove (Z.of_nat c.1) (Z.of_nat c.2) (currentPlayer g)])).
  { apply Forall_app. split; [done|]. by constructor; [|constructor]. }
  assert (Hrep1 :
    replay (dialogMoves (gameDialog s)
            ++ [mkMove (Z.of_nat c.1) (Z.of_nat c.2) (currentPlayer g)])
           (GameBoard_new (gameMode g))
    = Some (mkGameBoard (board g1) "X" true (gameMode g))).
  { rewrite replay_app, Hreplay. simpl.
    by rewrite (makeMove_accept (mkGameBoard (board g) "X" true (gameMode g)) c). }
  split; [|split; [|split]].
  - unfold moves_match_board. simpl. done.
  - unfold moves_match_board. simpl. done.
  - by apply wf_set_cell.
  - apply legal_marks_set; [done|]. destruct Hcp; auto.
Qed.

(** Outside a message box, the step both slots share keeps the invariant. *)
Lemma conclude_inv h0 (a : App) g c :
  app_inv h0 a -> openBoxes a = [] ->
  gameBoard (gameDialog (session a)) = Some g ->
  gameActive g = true -> c ∈ scan_cells ->
  holds (board g) c.1 c.2 " " = true ->
  app_inv h0
    (after_slot a
       (conclude (session a)
          (mkGameBoard (set_cell (board g) c.1 c.2 (currentPlayer g))
                       (currentPlayer g) (gameActive g) (gameMode g))
          (Z.of_nat c.1) (Z.of_nat c.2)
          (winner_name (gameMode g) (currentPlayer g)))).
Proof.
  destruct a as [s boxes]. cbn [session openBoxes].
  intros (Hhist & Hmoves & Hshape & Htop) -> Hg Ha Hc Hb. cbn [openBoxes] in Htop.
  destruct (Htop g Hg) as [Hci Hpi].
  destruct (Hshape g Hg) as (Hwf & Hlegal & Hcp).
  set (g1 := mkGameBoard (set_cell (board g) c.1 c.2 (currentPlayer g))
                         (currentPlayer g) (gameActive g) (gameMode g)).
  destruct (placed_facts s g c Hmoves Hg Hwf Hlegal Hcp Ha Hc Hb)
    as (Hm1 & Hm2 & Hwf1 & Hlegal1). fold g1 in Hm1, Hm2, Hwf1, Hlegal1.
  assert (Hg1 : (makeMove g (Z.of_nat c.1) (Z.of_nat c.2) (currentPlayer g)).2
                = g1) by (by rewrite makeMove_accept).
  pose proof (makeMove_mover_only g (Z.of_nat c.1) (Z.of_nat c.2) Hci Ha)
    as Hmover. rewrite Hg1 in Hmover.
  pose proof (place_moved_inv g c Hci Hpi Ha Hc Hb) as Hmoved. fold g1 in Hmoved.
  assert (Hended : forall w,
    (checkWinner g1 (currentPlayer g) = true /\
     w = winner_name (gameMode g) (currentPlayer g)) \/
    (checkWinner g1 (currentPlayer g) = false /\ isFull g1 = true /\
     w = "Draw"%string) ->
    game_ended
      (mkSession (recordMove (gameDialog (with_board s g1))
                    (Z.of_nat c.1) (Z.of_nat c.2) (currentPlayer g1))
                 (gameHistory s) (gameMetrics s)) w).
  { intros w Hw.
    exists g1, (dialogMoves (gameDialog s)),
      (mkMove (Z.of_nat c.1) (Z.of_nat c.2) (currentPlayer g)).
    simpl. do 4 (split; [done|]).
    destruct Hw as [[Hwin ->]|(Hnowin & Hfull & ->)]; [by left|right].
    destruct (mover_only_cases g1 Hmover) as (_ & _ & Hnone).
    destruct (Hnone Hnowin) as [HX HO]. done. }
  unfold conclude. fold g1. change (currentPlayer g1) with (currentPlayer g).
  destruct (checkWinner g1 (currentPlayer g)) eqn:Hwin;
    [|destruct (isFull g1) eqn:Hfull]; cbn [after_slot openBoxes session].
  - (* won: the slot waits in the message box *)
    split; [exact Hhist|]. split; [exact Hm1|]. split.
    + simpl. intros g' [= <-]. done.
    + split; [left; apply Hended; by left|]. split; [constructor|done].
  - (* drawn *)
    split; [exact Hhist|]. split; [exact Hm1|]. split.
    + simpl. intros g' [= <-]. done.
    + split; [left; apply Hended; by right|]. split; [constructor|done].
  - (* the game goes on *)
    split; [exact Hhist|]. split; [exact Hm2|].
    pose proof (evaluate_outcome_inv true g1 Hmover) as H1.
    pose proof (evaluate_outcome_position true g1 Hmoved) as H2.
    unfold evaluate_outcome in H1, H2.
    change (currentPlayer g1) with (currentPlayer g) in H1, H2.
    rewrite Hwin, Hfull in H1, H2. split.
    + simpl. intros g' [= <-]. split; [apply H2|]. split; [apply H2|apply H1].
    + simpl. intros g' [= <-]. done.
Qed.

(** Closing the innermost message box keeps the invariant. *)
Lemma close_inv h0 now (s : Session) w rest :
  app_inv h0 (mkApp s (w :: rest)) ->
  app_inv h0 (mkApp (board_over (onGameOver now s w)) rest).
Proof.
  intros ((news & Hhist & Hrecs & Hmet) & Hmoves & Hshape & Hbox & Hrest & Hmode).
  cbn [session openBoxes] in *.
  assert (Hg : exists g, gameBoard (gameDialog s) = Some g).
  { destruct Hbox as [(g & _ & _ & Hg & _)|(Hg & _)]; by eexists. }
  destruct Hg as [g Hg].
  unfold moves_match_board in Hmoves. rewrite Hg in Hmoves.
  destruct Hmoves as (Hgm & Hplayers & Hreplay).
  assert (Hrecord :
    record_consistent
      (mkGameRecord (if (dialogMode (gameDialog s) =? 1)%Z then "PvP" else "PvAI")
                    w (dialogMoves (gameDialog s)) now)
    \/ record_emptied
      (mkGameRecord (if (dialogMode (gameDialog s) =? 1)%Z then "PvP" else "PvAI")
                    w (dialogMoves (gameDialog s)) now)).
  { destruct Hbox as [(g' & ms & lm & Hg' & Ha & Hms & Hlm & Hend)
                     |(Hg' & Hms & ->)].
    - left. rewrite Hg in Hg'. injection Hg' as <-.
      exists (gameMode g), ms, lm, (mkGameBoard (board g) "X" true (gameMode g)).
      simpl. split; [done|]. split; [done|]. split; [done|].
      split; [by rewrite Hgm|].
      destruct (Hshape g Hg) as (_ & _ & Hcp).
      destruct Hend as [[Hwin ->]|(HX & HO & Hfull & ->)].
      + left. rewrite Hlm. split.
        * by rewrite (checkWinner_board g).
        * destruct Hcp as [Hcp|Hcp]; rewrite Hcp; [left|right];
            (split; [done|]); unfold winner_name; simpl;
            by destruct (_ =? _)%Z.
      + right.
        rewrite !(checkWinner_board g (mkGameBoard (board g) "X" true _))
          by done.
        done.
    - right. rewrite Hg in Hg'. injection Hg' as ->. simpl in Hgm.
      by rewrite <- Hgm, Hms. }
  split; [|split; [|split]].
  - exists (news ++ [mkGameRecord
              (if (dialogMode (gameDialog s) =? 1)%Z then "PvP" else "PvAI")
              w (dialogMoves (gameDialog s)) now]).
    simpl. rewrite Hhist, <- app_assoc. split; [done|]. split.
    + apply Forall_app. split; [done|]. by constructor; [|constructor].
    + by rewrite map_app, fold_left_app, <- Hmet.
  - unfold moves_match_board. simpl. rewrite Hg. simpl. by rewrite Hgm.
  - simpl. rewrite Hg. simpl. intros g' [= <-]. simpl.
    split; [apply empty_board_wf|]. split; [apply empty_board_legal|by left].
  - cbn [openBoxes session]. destruct rest as [|w' rest'].
    + simpl. rewrite Hg. simpl. intros g' [= <-]. split.
      * split; [by left|]. split; [done|]. reflexivity.
      * split; [apply empty_board_wf|]. split; [apply empty_board_legal|].
        split; [by left|done].
    + apply Forall_cons in Hrest as [-> Hrest'].
      assert (Hm2 : dialogMode (gameDialog s) = 2%Z) by (by apply Hmode).
      split; [|split; [done|]].
      * right. unfold game_cleared. simpl. rewrite Hg. simpl.
        unfold deactivate, disableBoard, GameDialog_onGameOver, enableBoard,
          resetBoard. simpl. by rewrite Hgm, Hm2.
      * intros _. simpl. exact Hm2.
Qed.

(** A timer slot that places a mark while a message box is open ends the
    game once more and opens a box of its own. *)
Lemma conclude_in_box h0 (s : Session) w rest g c :
  app_inv h0 (mkApp s (w :: rest)) ->
  gameBoard (gameDialog s) = Some g ->
  gameActive g = true -> currentPlayer g = "O" -> gameMode g = 2%Z ->
  c ∈ scan_cells -> holds (board g) c.1 c.2 " " = true ->
  app_inv h0
    (after_slot (mkApp s (w :: rest))
       (conclude s
          (mkGameBoard (set_cell (board g) c.1 c.2 (currentPlayer g))
                       (currentPlayer g) (gameActive g) (gameMode g))
          (Z.of_nat c.1) (Z.of_nat c.2) "AI")).
Proof.
  intros (Hhist & Hmoves & Hshape & Hbox & Hrest & Hmode) Hg Ha Hcp Hm Hc Hb.
  cbn [session openBoxes] in *.
  destruct (Hshape g Hg) as (Hwf & Hlegal & Hcp').
  set (g1 := mkGameBoard (set_cell (board g) c.1 c.2 (currentPlayer g))
                         (currentPlayer g) (gameActive g) (gameMode g)).
  destruct (placed_facts s g c Hmoves Hg Hwf Hlegal Hcp' Ha Hc Hb)
    as (Hm1 & _ & Hwf1 & Hlegal1). fold g1 in Hm1, Hwf1, Hlegal1.
  assert (Hwon : checkWinner g (currentPlayer g) = true /\ w = "AI"%string).
  { destruct Hbox as [(g' & ms & lm & Hg' & _ & _ & _ & Hend)|(Hg' & _)];
      rewrite Hg in Hg'.
    - injection Hg' as <-.
      destruct Hend as [[Hwin ->]|(_ & _ & Hfull & _)].
      + split; [done|]. by rewrite Hm, Hcp.
      + by destruct (isFull_no_blank g c).
    - injection Hg' as ->. discriminate. }
  destruct Hwon as [Hwin ->].
  assert (Hwin1 : checkWinner g1 (currentPlayer g) = true).
  { apply checkWinner_kept; [done|by rewrite Hcp|done]. }
  unfold conclude. fold g1. change (currentPlayer g1) with (currentPlayer g).
  rewrite Hwin1. cbn [after_slot openBoxes session].
  split; [exact Hhist|]. split; [exact Hm1|]. split.
  - simpl. intros g' [= <-]. done.
  - split; [|split].
    + left. exists g1, (dialogMoves (gameDialog s)),
        (mkMove (Z.of_nat c.1) (Z.of_nat c.2) (currentPlayer g)).
      simpl. do 4 (split; [done|]). left. split; [done|].
      by rewrite Hm, Hcp.
    + by constructor.
    + intros _. unfold moves_match_board in Hmoves. rewrite Hg in Hmoves.
      destruct Hmoves as (Hgm & _). simpl. by rewrite <- Hgm.
Qed.

Lemma with_board_same (s : Session) g :
  gameBoard (gameDialog s) = Some g -> with_board s g = s.
Proof. destruct s as [[gb dm ms] h gm]. simpl. by intros ->. Qed.

Lemma fire_inv h0 (a a' : App) e :
  app_inv h0 a -> fire a e = Some a' -> app_inv h0 a'.
Proof.
  intros Hinv Hfire. destruct a as [s boxes].
  destruct e as [m|i j| |now]; cbn [fire openBoxes session] in Hfire.
  - (* a mode button *)
    destruct boxes; [|done]. injection Hfire as <-.
    destruct Hinv as (Hhist & _ & _). split; [exact Hhist|]. split; [done|].
    split; simpl; intros g [= <-].
    + split; [apply empty_board_wf|]. split; [apply empty_board_legal|by left].
    + split; [apply GameBoard_new_inv|apply GameBoard_new_position].
  - (* a click *)
    destruct boxes; [|done]. injection Hfire as <-.
    destruct (gameBoard (gameDialog s)) as [g|] eqn:Hg.
    + destruct (session_onCellClicked_conclude s i j g Hg)
        as [->|(Ha & Hin & Hb & ->)]; [by destruct s|].
      by apply (conclude_inv h0 (mkApp s []) g (i, j)).
    + unfold session_onCellClicked. rewrite Hg. by destruct s.
  - (* the timer *)
    destruct (session_aiMove s) as [r|] eqn:Hai; [|done].
    injection Hfire as <-.
    destruct (gameBoard (gameDialog s)) as [g|] eqn:Hg.
    + destruct (session_aiMove_conclude s r g Hg Hai)
        as [->|[->|(Ha & Hcp & Hm & c & Hin & Hb & ->)]].
      * done.
      * by rewrite with_board_same.
      * destruct boxes as [|w rest].
        -- replace "AI"%string with (winner_name (gameMode g) (currentPlayer g))
             by (by rewrite Hm, Hcp).
           by apply (conclude_inv h0 (mkApp s []) g c).
        -- by apply conclude_in_box.
    + unfold session_aiMove in Hai. rewrite Hg in Hai. by injection Hai as <-.
  - (* the innermost box is closed *)
    destruct boxes as [|w rest]; [done|]. injection Hfire as <-.
    by apply close_inv.
Qed.

Lemma App_new_inv h0 : app_inv h0 (App_new h0).
Proof.
  split; [|split; [|split]].
  - exists []. simpl. by rewrite app_nil_r.
  - reflexivity.
  - simpl. intros g. discriminate.
  - simpl. intros g. discriminate.
Qed.

Lemma app_reachable_inv h0 (a : App) :
  app_reachable (App_new h0) a -> app_inv h0 a.
Proof.
  induction 1 as [|a e a' _ IH Hfire]; [apply App_new_inv|].
  by eapply fire_inv.
Qed.

Lemma run_reachable es : forall a0 a a',
  app_reachable a0 a -> run es a = Some a' -> app_reachable a0 a'.
Proof.
  unfold run. induction es as [|e es IH]; intros a0 a a' Ha Hrun;
    simpl in Hrun.
  - by injection Hrun as <-.
  - destruct (fire a e) as [a1|] eqn:Hfire; [|done].
    eapply IH; [|exact Hrun]. by eapply areach_step.
Qed.

Lemma hasty_box_reachable : app_reachable (App_new []) hasty_box.
Proof.
  apply (run_reachable hasty_clicks (App_new []) (App_new []));
    [apply areach_start|reflexivity].
Qed.

Lemma hasty_inner_reachable : app_reachable (App_new []) hasty_inner.
Proof.
  apply (run_reachable [AiTimer] (App_new []) hasty_box);
    [apply hasty_box_reachable|reflexivity].
Qed.

Lemma hasty_app_reachable : app_reachable (App_new []) hasty_app.
Proof.
  apply (run_reachable [BoxClosed "noon"; BoxClosed "one"]
           (App_new []) hasty_inner);
    [apply hasty_inner_reachable|reflexivity].
Qed.

(** X6: wherever the event loop delivers an event, the board is 3x3 and holds
    only Empty, X and O.  While no game-over message box is open it carries
    as many X as O or exactly one X more: on a bare board, which has no slot
    on [gameOver] and so never opens a box, at every event; on the board of a
    game dialog, whenever [openBoxes] is empty.  Inside a box the count can
    fail, because [gameActive] is still set there and the timer slot goes on
    placing O. *)
Theorem reachable_board_legal :
  (forall mode (g : GameBoard),
     reachable false (GameBoard_new mode) g ->
     wf_board (board g) /\ legal_marks (board g) /\
     (marks (board g) "X" = marks (board g) "O" \/
      marks (board g) "X" = S (marks (board g) "O"))) /\
  (forall h0 (a : App) (g : GameBoard),
     app_reachable (App_new h0) a ->
     gameBoard (gameDialog (session a)) = Some g ->
     wf_board (board g) /\ legal_marks (board g) /\
     (openBoxes a = [] ->
      marks (board g) "X" = marks (board g) "O" \/
      marks (board g) "X" = S (marks (board g) "O"))).
Proof.
  split.
  - intros mode g Hreach.
    apply reachable_position in Hreach as (Hwf & Hlegal & Hcount & _). done.
  - intros h0 a g (_ & _ & Hshape & Htop)%app_reachable_inv Hg.
    destruct (Hshape g Hg) as (Hwf & Hlegal & _).
    do 2 (split; [done|]). intros Hboxes. rewrite Hboxes in Htop.
    by destruct (Htop g Hg) as (_ & _ & _ & Hcount & _).
Qed.

Lemma reachable_board_legal_witness :
  wf_board [ ["O"; "O"; "O"]; ["X"; "X"; "O"]; [" "; " "; "X"] ] /\
  legal_marks [ ["O"; "O"; "O"]; ["X"; "X"; "O"]; [" "; " "; "X"] ] /\
  (openBoxes hasty_inner = [] ->
   marks [ ["O"; "O"; "O"]; ["X"; "X"; "O"]; [" "; " "; "X"] ] "X"
   = marks [ ["O"; "O"; "O"]; ["X"; "X"; "O"]; [" "; " "; "X"] ] "O" \/
   marks [ ["O"; "O"; "O"]; ["X"; "X"; "O"]; [" "; " "; "X"] ] "X"
   = S (marks [ ["O"; "O"; "O"]; ["X"; "X"; "O"]; [" "; " "; "X"] ] "O")).
Proof.
  apply (proj2 reachable_board_legal [] hasty_inner
           (mkGameBoard [ ["O"; "O"; "O"]; ["X"; "X"; "O"]; [" "; " "; "X"] ]
                        "O" true 2));
    [apply hasty_inner_reachable|reflexivity].
Defined.

(** X7: while no game-over message box is open, a set [gameActive] means the
    game is really in progress: the board is not full, neither X nor O owns
    a line, and the marks agree with the turn (level when X is to move, X one
    ahead when O is to move).  This holds on a bare board at every event, and
    on the board of a game dialog whenever [openBoxes] is empty.  While a box
    is open the flag is no such sign: when it is set there, the game is over,
    with a line of the current player or a full board without a line. *)
Theorem reachable_active_in_progress :
  (forall mode (g : GameBoard),
     reachable false (GameBoard_new mode) g -> gameActive g = true ->
     isFull g = false /\
     checkWinner g "X" = false /\ checkWinner g "O" = false /\
     ((currentPlayer g = "X" /\ marks (board g) "X" = marks (board g) "O") \/
      (currentPlayer g = "O" /\
       marks (board g) "X" = S (marks (board g) "O")))) /\
  (forall h0 (a : App) (g : GameBoard),
     app_reachable (App_new h0) a ->
     gameBoard (gameDialog (session a)) = Some g -> gameActive g = true ->
     (openBoxes a = [] ->
      isFull g = false /\
      checkWinner g "X" = false /\ checkWinner g "O" = false /\
      ((currentPlayer g = "X" /\ marks (board g) "X" = marks (board g) "O") \/
       (currentPlayer g = "O" /\
        marks (board g) "X" = S (marks (board g) "O")))) /\
     (openBoxes a <> [] ->
      checkWinner g (currentPlayer g) = true \/
      (checkWinner g "X" = false /\ checkWinner g "O" = false /\
       isFull g = true))).
Proof.
  split.
  - intros mode g Hreach Ha.
    pose proof (reachable_inv _ _ _ Hreach) as (_ & Hact & _).
    apply reachable_position in Hreach as (_ & _ & _ & Hpos).
    destruct (Hact Ha) as [HX HO]. destruct (Hpos Ha) as [Hfull Hturn]. done.
  - intros h0 a g (_ & _ & _ & Htop)%app_reachable_inv Hg Ha. split.
    + intros Hboxes. rewrite Hboxes in Htop.
      destruct (Htop g Hg) as ((_ & Hact & _) & (_ & _ & _ & Hpos)).
      destruct (Hact Ha) as [HX HO]. destruct (Hpos Ha) as [Hfull Hturn]. done.
    + intros Hboxes. destruct (openBoxes a) as [|w rest]; [done|].
      destruct Htop as ([(g' & ms & lm & Hg' & _ & _ & _ & Hend)|(Hg' & _)] & _);
        rewrite Hg in Hg'.
      * injection Hg' as <-.
        destruct Hend as [[Hwin _]|(HX & HO & Hfull & _)]; [by left|by right].
      * injection Hg' as ->. discriminate.
Qed.

Lemma reachable_active_in_progress_witness :
  (openBoxes hasty_box = [] ->
   isFull (mkGameBoard [ ["O"; "O"; "O"]; ["X"; "X"; " "]; [" "; " "; "X"] ]
                       "O" true 2) = false /\
   checkWinner (mkGameBoard [ ["O"; "O"; "O"]; ["X"; "X"; " "]; [" "; " "; "X"] ]
                            "O" true 2) "X" = false /\
   checkWinner (mkGameBoard [ ["O"; "O"; "O"]; ["X"; "X"; " "]; [" "; " "; "X"] ]
                            "O" true 2) "O" = false /\
   (("O" = "X" /\
     marks [ ["O"; "O"; "O"]; ["X"; "X"; " "]; [" "; " "; "X"] ] "X"
     = marks [ ["O"; "O"; "O"]; ["X"; "X"; " "]; [" "; " "; "X"] ] "O") \/
    ("O" = "O" /\
     marks [ ["O"; "O"; "O"]; ["X"; "X"; " "]; [" "; " "; "X"] ] "X"
     = S (marks [ ["O"; "O"; "O"]; ["X"; "X"; " "]; [" "; " "; "X"] ] "O")))) /\
  (openBoxes hasty_box <> [] ->
   checkWinner (mkGameBoard [ ["O"; "O"; "O"]; ["X"; "X"; " "]; [" "; " "; "X"] ]
                            "O" true 2) "O" = true \/
   (checkWinner (mkGameBoard [ ["O"; "O"; "O"]; ["X"; "X"; " "]; [" "; " "; "X"] ]
                             "O" true 2) "X" = false /\
    checkWinner (mkGameBoard [ ["O"; "O"; "O"]; ["X"; "X"; " "]; [" "; " "; "X"] ]
                             "O" true 2) "O" = false /\
    isFull (mkGameBoard [ ["O"; "O"; "O"]; ["X"; "X"; " "]; [" "; " "; "X"] ]
                        "O" true 2) = true)).
Proof.
  apply (proj2 reachable_active_in_progress [] hasty_box
           (mkGameBoard [ ["O"; "O"; "O"]; ["X"; "X"; " "]; [" "; " "; "X"] ]
                        "O" true 2));
    [apply hasty_box_reachable|reflexivity|reflexivity].
Defined.

(** X18: at every event of the application, inside a message box or not,
    the moves the dialog has recorded, replayed through [makeMove] on a new
    board of the same mode, are accepted one by one and give exactly the
    cells of the dialog's board. *)
Theorem recorded_moves_replay h0 (a : App) (g : GameBoard) :
  app_reachable (App_new h0) a ->
  gameBoard (gameDialog (session a)) = Some g ->
  gameMode g = dialogMode (gameDialog (session a)) /\
  replay (dialogMoves (gameDialog (session a))) (GameBoard_new (gameMode g))
  = Some (mkGameBoard (board g) "X" true (gameMode g)).
Proof.
  intros (_ & Hmoves & _)%app_reachable_inv Hg.
  unfold moves_match_board in Hmoves. rewrite Hg in Hmoves. tauto.
Qed.

Lemma recorded_moves_replay_witness :
  gameMode (mkGameBoard [ ["O"; "O"; "O"]; ["X"; "X"; "O"]; [" "; " "; "X"] ]
                        "O" true 2)
    = dialogMode (gameDialog (session hasty_inner)) /\
  replay (dialogMoves (gameDialog (session hasty_inner)))
         (GameBoard_new
            (gameMode (mkGameBoard
               [ ["O"; "O"; "O"]; ["X"; "X"; "O"]; [" "; " "; "X"] ]
               "O" true 2)))
  = Some (mkGameBoard
            (board (mkGameBoard
               [ ["O"; "O"; "O"]; ["X"; "X"; "O"]; [" "; " "; "X"] ]
               "O" true 2))
            "X" true
            (gameMode (mkGameBoard
               [ ["O"; "O"; "O"]; ["X"; "X"; "O"]; [" "; " "; "X"] ]
               "O" true 2))).
Proof.
  apply (recorded_moves_replay [] hasty_inner);
    [apply hasty_inner_reachable|reflexivity].
Defined.

(** X19: the application only appends to the history, and every record it
    appends either agrees with its game or has no moves at all.  A record
    that agrees: the moves replay, accepted one by one, to a board on which
    the player of the last move owns a line and the record carries that
    player's name for the mode, or to a full board without a line, recorded
    as "Draw"; the mode text is "PvP" for mode 1 and "PvAI" otherwise.  A
    record without moves is recorded as "AI" in mode "PvAI": it is what
    [onGameOver] appends when a timer slot has ended the game once more
    while its message box was open.  So every record of another winner
    agrees with its game. *)
Theorem history_records_consistent h0 (a : App) :
  app_reachable (App_new h0) a ->
  exists news, gameHistory (session a) = h0 ++ news /\
    Forall (fun r => record_consistent r \/ record_emptied r) news /\
    Forall (fun r => winner r <> "AI"%string -> record_consistent r) news.
Proof.
  intros ((news & Hh & Hr & _) & _)%app_reachable_inv. exists news.
  do 2 (split; [done|]). eapply Forall_impl; [exact Hr|].
  intros r [H|(_ & Hw & _)] Hne; done.
Qed.

Lemma history_records_consistent_witness :
  exists news, gameHistory (session hasty_app) = [] ++ news /\
    Forall (fun r => record_consistent r \/ record_emptied r) news /\
    Forall (fun r => winner r <> "AI"%string -> record_consistent r) news.
Proof.
  apply (history_records_consistent [] hasty_app).
  apply hasty_app_reachable.
Defined.

Lemma record_winner_names (r : GameRecord) :
  record_consistent r \/ record_emptied r ->
  winner r = "Player 1"%string \/ winner r = "You"%string \/
  winner r = "Player 2"%string \/ winner r = "AI"%string \/
  winner r = "Draw"%string.
Proof.
  intros [(m & ms & lm & g & _ & _ & _ & _ & H)|(_ & -> & _)]; [|auto].
  destruct H as [[_ [[_ ->]|[_ ->]]]|(_ & _ & _ & ->)];
    destruct (m =? 1)%Z; auto.
Qed.

(** X20: the metrics count the games the application has recorded:
    [totalGames] is the number of appended records, [draws] the number of
    them recorded as "Draw", [aiWins] the number recorded as "AI", and
    [playerWins] the rest. *)
Theorem metrics_match_history h0 (a : App) :
  app_reachable (App_new h0) a ->
  exists news, gameHistory (session a) = h0 ++ news /\
    totalGames (gameMetrics (session a)) = Z.of_nat (length news) /\
    draws (gameMetrics (session a)) =
      Z.of_nat (length (List.filter
        (fun r => (winner r =? "Draw")%string) news)) /\
    aiWins (gameMetrics (session a)) =
      Z.of_nat (length (List.filter
        (fun r => (winner r =? "AI")%string) news)) /\
    (playerWins (gameMetrics (session a)) + aiWins (gameMetrics (session a))
     + draws (gameMetrics (session a))
     = totalGames (gameMetrics (session a)))%Z.
Proof.
  intros ((news & Hh & Hr & Hm) & _)%app_reachable_inv.
  exists news. split; [done|]. rewrite Hm. clear Hh Hm.
  induction news as [|r news IH] using rev_ind; [done|].
  apply Forall_app in Hr as [Hr Hrec]. apply Forall_inv in Hrec.
  specialize (IH Hr).
  rewrite map_app, fold_left_app. cbn [map fold_left].
  destruct IH as (I1 & I2 & I3 & I4).
  destruct (endGame_effect (fold_left endGame (map winner news) GameMetrics_new)
              (winner r)) as (E1 & E2 & E3 & E4).
  rewrite !List.filter_app, !length_app. cbn [List.filter].
  split; [rewrite E1, I1; cbn [length]; lia|].
  assert (Hd : draws (endGame (fold_left endGame (map winner news)
                                 GameMetrics_new) (winner r))
               = (draws (fold_left endGame (map winner news) GameMetrics_new)
                  + if (winner r =? "Draw")%string then 1 else 0)%Z).
  { apply record_winner_names in Hrec.
    destruct Hrec as [H|[H|[H|[H|H]]]]; rewrite H in *;
      cbn in E3, E4 |- *; lia. }
  split; [rewrite Hd, I2; destruct (winner r =? "Draw")%string;
          cbn [length]; lia|].
  split; [rewrite E3, I3; destruct (winner r =? "AI")%string;
          cbn [length]; lia|].
  lia.
Qed.

Lemma metrics_match_history_witness :
  exists news, gameHistory (session hasty_app) = [] ++ news /\
    totalGames (gameMetrics (session hasty_app)) = Z.of_nat (length news) /\
    draws (gameMetrics (session hasty_app)) =
      Z.of_nat (length (List.filter
        (fun r => (winner r =? "Draw")%string) news)) /\
    aiWins (gameMetrics (session hasty_app)) =
      Z.of_nat (length (List.filter
        (fun r => (winner r =? "AI")%string) news)) /\
    (playerWins (gameMetrics (session hasty_app))
     + aiWins (gameMetrics (session hasty_app))
     + draws (gameMetrics (session hasty_app))
     = totalGames (gameMetrics (session hasty_app)))%Z.
Proof.
  apply (metrics_match_history [] hasty_app).
  apply hasty_app_reachable.
Defined.

(** ** The board of the dialog and the controller of the board *)

(** The board after the click slot has returned, or while it waits at its
    [emit]: the click slot of the board, whose [emit] is the whole of
    [onGameOver], gives the board as it is once the box has been closed. *)
Lemma session_onCellClicked_board (s : Session) i j g :
  gameBoard (gameDialog s) = Some g ->
  exists g', gameBoard (gameDialog (session_onCellClicked s i j).1) = Some g' /\
    gameMode g' = gameMode g /\
    match (session_onCellClicked s i j).2 with
    | None => g' = onCellClicked true g i j
    | Some _ =>
        onCellClicked true g i j = mkGameBoard empty_board "X" false (gameMode g)
    end.
Proof.
  intros Hg. unfold session_onCellClicked, onCellClicked. rewrite Hg.
  destruct (negb (gameActive g)); [by exists g|].
  destruct (negb _); [by exists g|].
  destruct (makeMove_cases g (Z.of_nat i) (Z.of_nat j) (currentPlayer g))
    as [H|(_ & c & _ & _ & _ & _ & H)]; rewrite H; [by exists g|].
  unfold evaluate_outcome. cbn [currentPlayer].
  destruct (checkWinner _ _); [|destruct (isFull _)]; cbn [fst snd].
  - by eexists.
  - by eexists.
  - by eexists.
Qed.

Lemma session_aiMove_board (s : Session) r g :
  gameBoard (gameDialog s) = Some g -> session_aiMove s = Some r ->
  exists g', gameBoard (gameDialog r.1) = Some g' /\
    gameMode g' = gameMode g /\
    match r.2 with
    | None => aiMove true g = Some g'
    | Some _ =>
        aiMove true g = Some (mkGameBoard empty_board "X" false (gameMode g))
    end.
Proof.
  intros Hg. unfold session_aiMove, aiMove. rewrite Hg.
  destruct (_ || _); [intros [= <-]; by exists g|].
  destruct (findBestMove g) as [[mv g0]|] eqn:Hf; [|done].
  apply findBestMove_state in Hf as ->.
  destruct (_ && _); [|intros [= <-]; by exists g].
  destruct (makeMove_cases g (qx mv) (qy mv) (currentPlayer g))
    as [H|(_ & c & _ & _ & _ & _ & H)]; rewrite H;
    unfold evaluate_outcome; cbn [currentPlayer];
    (destruct (checkWinner _ _); [|destruct (isFull _)]);
    intros [= <-]; cbn [fst snd]; by eexists.
Qed.

Lemma app_board_reachable_boxes h0 (a : App) :
  app_reachable (App_new h0) a ->
  forall g, gameBoard (gameDialog (session a)) = Some g ->
    match openBoxes a with
    | [] => reachable true (GameBoard_new (gameMode g)) g
    | _ :: _ =>
        reachable true (GameBoard_new (gameMode g))
          (mkGameBoard empty_board "X" false (gameMode g))
    end.
Proof.
  induction 1 as [|a e a' _ IH Hfire]; [discriminate|].
  destruct a as [s boxes]. cbn [session openBoxes] in *.
  destruct e as [m|i j| |now]; cbn [fire openBoxes session] in Hfire.
  - destruct boxes; [|done]. injection Hfire as <-. simpl.
    intros g [= <-]. apply reach_start.
  - destruct boxes; [|done]. injection Hfire as <-.
    destruct (gameBoard (gameDialog s)) as [g0|] eqn:Hg0.
    + destruct (session_onCellClicked_board s i j g0 Hg0)
        as (g' & Hg' & Hm & Hcase).
      specialize (IH g0 eq_refl).
      destruct (session_onCellClicked s i j) as [s' [w|]];
        cbn [after_slot session openBoxes fst snd] in *;
        intros g Hg; rewrite Hg' in Hg; injection Hg as <-; rewrite Hm.
      * rewrite <- Hcase. eapply reach_step; [exact IH|apply step_click].
      * rewrite Hcase. eapply reach_step; [exact IH|apply step_click].
    + unfold session_onCellClicked. rewrite Hg0. simpl. intros g Hg.
      by rewrite Hg0 in Hg.
  - destruct (session_aiMove s) as [r|] eqn:Hai; [|done].
    injection Hfire as <-.
    destruct (gameBoard (gameDialog s)) as [g0|] eqn:Hg0.
    + destruct (session_aiMove_board s r g0 Hg0 Hai) as (g' & Hg' & Hm & Hcase).
      specialize (IH g0 eq_refl).
      destruct r as [s' [w|]];
        cbn [after_slot session openBoxes fst snd] in *;
        intros g Hg; rewrite Hg' in Hg; injection Hg as <-; rewrite Hm;
        (destruct boxes; [eapply reach_step; [exact IH|by apply step_ai]
                         |exact IH]).
    + unfold session_aiMove in Hai. rewrite Hg0 in Hai. injection Hai as <-.
      simpl. intros g Hg. by rewrite Hg0 in Hg.
  - destruct boxes as [|w rest]; [done|]. injection Hfire as <-.
    cbn [session openBoxes]. simpl.
    destruct (gameBoard (gameDialog s)) as [g0|] eqn:Hg0; [|done].
    simpl. intros g [= <-]. simpl. specialize (IH g0 eq_refl). simpl in IH.
    by destruct rest.
Qed.

(** Whenever no message box is open, the board of the dialog is a board the
    controller of the board reaches with the slot of the dialog connected:
    whatever the timer slots did inside a box, closing the box leaves the
    board as the [emit] of the controller gives it. *)
Lemma app_board_reachable h0 (a : App) (g : GameBoard) :
  app_reachable (App_new h0) a -> openBoxes a = [] ->
  gameBoard (gameDialog (session a)) = Some g ->
  reachable true (GameBoard_new (gameMode g)) g.
Proof.
  intros Hreach Hb Hg.
  pose proof (app_board_reachable_boxes h0 a Hreach g Hg) as H.
  by rewrite Hb in H.
Qed.

(** ** The replay dialog *)

Lemma playNextMove_step pre m post labels t :
  playNextMove (mkReplayDialog (pre ++ m :: post) (Z.of_nat (length pre))
                               labels t)
  = mkReplayDialog (pre ++ m :: post) (Z.of_nat (length (pre ++ [m])))
                   (draw labels m) t.
Proof.
  unfold playNextMove. cbn [movesToReplay moveIndex cellLabels timerActive].
  rewrite !length_app. cbn [length]. rewrite Z.geb_leb.
  replace (Z.of_nat (length pre + S (length post)) <=? Z.of_nat (length pre))%Z
    with false by (symmetry; apply Z.leb_gt; lia).
  rewrite Nat2Z.id, list_lookup_middle by done.
  unfold draw. f_equal. lia.
Qed.

Lemma int_wrap_small (z : Z) :
  (-2147483648 <= z < 2147483648)%Z -> int_wrap z = z.
Proof. intros Hz. unfold int_wrap. rewrite Z.mod_small; lia. Qed.

Lemma int_index_small (i j : nat) :
  (i < 3)%nat -> (j < 3)%nat ->
  int_add (int_mul (Z.of_nat i) 3) (Z.of_nat j) = Z.of_nat (3 * i + j).
Proof.
  intros Hi Hj. unfold int_add, int_mul.
  rewrite (int_wrap_small (Z.of_nat i * 3)) by lia.
  rewrite int_wrap_small; lia.
Qed.

Lemma playNextMove_done ms labels t :
  playNextMove (mkReplayDialog ms (Z.of_nat (length ms)) labels t)
  = mkReplayDialog ms (Z.of_nat (length ms)) labels false.
Proof.
  unfold playNextMove. cbn [movesToReplay moveIndex cellLabels timerActive].
  rewrite Z.geb_leb.
  by replace (Z.of_nat (length ms) <=? Z.of_nat (length ms))%Z
    with true by (symmetry; apply Z.leb_le; lia).
Qed.

Lemma ticks_prefix mid : forall pre post labels t,
  Nat.iter (length mid) playNextMove
    (mkReplayDialog (pre ++ mid ++ post) (Z.of_nat (length pre)) labels t)
  = mkReplayDialog (pre ++ mid ++ post) (Z.of_nat (length (pre ++ mid)))
                   (fold_left draw mid labels) t.
Proof.
  induction mid as [|m mid IH]; intros pre post labels t.
  - by rewrite app_nil_r.
  - cbn [length]. rewrite Nat.iter_succ_r. cbn [app fold_left].
    rewrite playNextMove_step.
    replace (pre ++ m :: mid ++ post) with ((pre ++ [m]) ++ mid ++ post)
      by (by rewrite <- app_assoc).
    rewrite IH. by rewrite <- !app_assoc.
Qed.

Lemma ticks_after ms labels j :
  Nat.iter (S j) playNextMove
    (mkReplayDialog ms (Z.of_nat (length ms)) labels true)
  = mkReplayDialog ms (Z.of_nat (length ms)) labels false.
Proof.
  induction j as [|j IH]; [apply playNextMove_done|].
  rewrite Nat.iter_succ, IH. apply playNextMove_done.
Qed.

Lemma ticks_take (ms : list Move) k :
  (k <= length ms)%nat ->
  Nat.iter k playNextMove (ReplayDialog_new ms)
  = mkReplayDialog ms (Z.of_nat k)
      (fold_left draw (take k ms) (replicate 9 ""%string)) true.
Proof.
  intros Hk. unfold ReplayDialog_new.
  pose proof (ticks_prefix (take k ms) [] (drop k ms)
                (replicate 9 ""%string) true) as H.
  cbn [app length] in H. rewrite take_drop, length_take in H.
  by replace (k `min` length ms)%nat with k in H by lia.
Qed.

(** X21: the replay draws the moves in order, one per tick of the timer:
    after [k] ticks, [k] at most the number of moves, the first [k] moves
    are drawn, [moveIndex] is [k] and the timer still runs; the tick after
    the last move stops the timer, and no later tick changes anything.
    Drawing a move writes its mark on the label whose index is
    [row * 3 + col] as the program computes it, in [int], when that index is
    one of 0..8, and writes nothing otherwise. *)
Theorem replay_ticks (ms : list Move) :
  (forall k, (k <= length ms)%nat ->
     Nat.iter k playNextMove (ReplayDialog_new ms)
     = mkReplayDialog ms (Z.of_nat k)
         (fold_left draw (take k ms) (replicate 9 ""%string)) true) /\
  (forall j,
     Nat.iter (length ms + S j) playNextMove (ReplayDialog_new ms)
     = mkReplayDialog ms (Z.of_nat (length ms))
         (fold_left draw ms (replicate 9 ""%string)) false) /\
  (forall labels m (i : nat), length labels = 9%nat ->
     draw labels m !! i =
     if (Z.of_nat i =? int_add (int_mul (row m) 3) (col m))%Z && (i <? 9)%nat
     then Some (String (player m) EmptyString)
     else labels !! i).
Proof.
  split; [intros k Hk; by apply ticks_take|]. split.
  - intros j.
    rewrite Nat.add_comm, Nat.iter_add, (ticks_take ms (length ms)) by lia.
    rewrite firstn_all. apply ticks_after.
  - intros labels m i Hlen. unfold draw. rewrite Hlen.
    set (index := int_add (int_mul (row m) 3) (col m)).
    destruct (Z.eqb_spec (Z.of_nat i) index) as [Hi|Hi],
      (Nat.ltb_spec i 9) as [H9|H9]; cbn [andb].
    + replace (0 <=? index)%Z with true by (symmetry; apply Z.leb_le; lia).
      replace (index <? Z.of_nat 9)%Z with true
        by (symmetry; apply Z.ltb_lt; lia).
      cbn [andb]. rewrite <- Hi, Nat2Z.id.
      apply list_lookup_insert_eq. lia.
    + replace (index <? Z.of_nat 9)%Z with false
        by (symmetry; apply Z.ltb_ge; lia).
      by rewrite andb_false_r.
    + destruct (_ && _) eqn:Hin; [|done].
      apply list_lookup_insert_ne. lia.
    + destruct (_ && _) eqn:Hin; [|done].
      apply list_lookup_insert_ne. lia.
Qed.

Lemma replay_ticks_witness :
  Nat.iter 1 playNextMove (ReplayDialog_new [mkMove 1 1 "X"; mkMove 0 0 "O"])
  = mkReplayDialog [mkMove 1 1 "X"; mkMove 0 0 "O"] (Z.of_nat 1)
      (fold_left draw (take 1 [mkMove 1 1 "X"; mkMove 0 0 "O"])
         (replicate 9 ""%string)) true.
Proof.
  apply (replay_ticks [mkMove 1 1 "X"; mkMove 0 0 "O"]). simpl. lia.
Defined.

Lemma labels_show_empty : labels_show (replicate 9 ""%string) empty_board.
Proof.
  split; [done|]. intros i j Hi Hj.
  destruct i as [|[|[|]]], j as [|[|[|]]]; try lia; reflexivity.
Qed.

Lemma shown_set_eq (b : Board) c p :
  holds b c.1 c.2 " " = true -> p <> " " ->
  shown (set_cell b c.1 c.2 p) c.1 c.2 = String p EmptyString.
Proof.
  intros Hb Hp. unfold shown. rewrite cell_set_eq.
  - apply Ascii.eqb_neq in Hp. by rewrite Hp.
  - apply holds_true in Hb. rewrite Hb. by eexists.
Qed.

Lemma draw_shows labels (g g1 : GameBoard) m :
  labels_show labels (board g) ->
  makeMove g (row m) (col m) (player m) = (true, g1) ->
  player m <> " " ->
  labels_show (draw labels m) (board g1).
Proof.
  intros [Hlen Hshow] Hmv Hp.
  destruct (makeMove_cases g (row m) (col m) (player m))
    as [H|(_ & [ci cj] & Hc & Hrow & Hcol & Hb & H)]; rewrite H in Hmv;
    [done|]. injection Hmv as <-. cbn [board fst snd] in *.
  pose proof Hc as [Hi Hj]%elem_of_scan_cells.
  unfold draw. rewrite Hrow, Hcol, Hlen, int_index_small by done.
  replace (0 <=? Z.of_nat (3 * ci + cj))%Z with true
    by (symmetry; apply Z.leb_le; lia).
  replace (Z.of_nat (3 * ci + cj) <? Z.of_nat 9)%Z with true
    by (symmetry; apply Z.ltb_lt; lia).
  rewrite Nat2Z.id.
  cbn [andb]. split; [by rewrite length_insert|].
  intros i j Hi' Hj'. destruct (decide ((i, j) = (ci, cj))) as [[= -> ->]|Hne].
  - rewrite list_lookup_insert_eq by lia.
    by rewrite (shown_set_eq (board g) (ci, cj)).
  - rewrite list_lookup_insert_ne.
    + rewrite Hshow by done. unfold shown. rewrite cell_set_ne; [done|congruence].
    + intros Heq. apply Hne. f_equal; lia.
Qed.

Lemma fold_draw_shows ms : forall labels (g g' : GameBoard),
  labels_show labels (board g) -> replay ms g = Some g' ->
  Forall (fun mv => player mv <> " ") ms ->
  labels_show (fold_left draw ms labels) (board g').
Proof.
  induction ms as [|m ms IH]; intros labels g g' Hshow Hrep Hp.
  - simpl in *. congruence.
  - simpl in *. apply Forall_cons in Hp as [Hpm Hp].
    destruct (makeMove g (row m) (col m) (player m)) as [[] g1] eqn:Hmv;
      [|done].
    eapply IH; [|exact Hrep|exact Hp]. by eapply draw_shows.
Qed.

Lemma replay_labels_show (ms : list Move) (m : Z) (g : GameBoard) :
  replay ms (GameBoard_new m) = Some g ->
  Forall (fun mv => player mv <> " ") ms ->
  labels_show
    (cellLabels (Nat.iter (length ms) playNextMove (ReplayDialog_new ms)))
    (board g).
Proof.
  intros Hrep Hp. rewrite ticks_take by lia. rewrite firstn_all.
  cbn [cellLabels].
  apply (fold_draw_shows ms _ (GameBoard_new m) g); [|done|done].
  apply labels_show_empty.
Qed.

(** X22: when the moves of a game replay through [makeMove] without a
    rejection and none of them carries the Empty char, the replay dialog,
    once it has ticked through them, shows the final board of the game:
    label [3*i+j] has the mark of cell (i,j), and no text where the cell is
    Empty. *)
Theorem replay_shows_board (ms : list Move) (m : Z) (g : GameBoard) :
  replay ms (GameBoard_new m) = Some g ->
  Forall (fun mv => player mv <> " ") ms ->
  forall i j, (i < 3)%nat -> (j < 3)%nat ->
    cellLabels (Nat.iter (length ms) playNextMove (ReplayDialog_new ms))
      !! (3 * i + j)%nat
    = Some (shown (board g) i j).
Proof.
  intros Hrep Hp i j Hi Hj.
  destruct (replay_labels_show ms m g Hrep Hp) as [_ Hshow]. by apply Hshow.
Qed.

Lemma replay_shows_board_witness :
  cellLabels (Nat.iter 2 playNextMove
                (ReplayDialog_new [mkMove 1 1 "X"; mkMove 0 0 "O"]))
    !! (3 * 1 + 1)%nat
  = Some (shown [["O";" ";" "];[" ";"X";" "];[" ";" ";" "]] 1 1).
Proof.
  apply (replay_shows_board [mkMove 1 1 "X"; mkMove 0 0 "O"] 1
           (mkGameBoard [["O";" ";" "];[" ";"X";" "];[" ";" ";" "]] "X" true 1));
    [reflexivity | repeat constructor; discriminate | lia | lia].
Defined.

(** X23: every record with moves that the application appends to the
    history can be replayed: the replay dialog opened on its moves ends by
    showing a board on which the recorded winner owns a line, or a full board
    without a line when the record says "Draw".  A record without moves is
    never replayed: [onComboBoxActivated] only warns about it. *)
Theorem recorded_game_replays h0 (a : App) :
  app_reachable (App_new h0) a ->
  exists news, gameHistory (session a) = h0 ++ news /\
    Forall (fun r =>
      moves r <> [] ->
      exists b : Board,
        (forall i j, (i < 3)%nat -> (j < 3)%nat ->
           cellLabels (Nat.iter (length (moves r)) playNextMove
                         (ReplayDialog_new (moves r))) !! (3 * i + j)%nat
           = Some (shown b i j)) /\
        (winner r = "Draw"%string ->
           evalIsFull b = true /\ evalIsWinner b "X" = false /\
           evalIsWinner b "O" = false) /\
        (winner r = "Player 1"%string \/ winner r = "You"%string ->
           evalIsWinner b "X" = true) /\
        (winner r = "Player 2"%string \/ winner r = "AI"%string ->
           evalIsWinner b "O" = true)) news.
Proof.
  intros ((news & Hh & Hr & _) & _)%app_reachable_inv.
  exists news. split; [done|]. eapply Forall_impl; [exact Hr|].
  intros r [(m & ms & lm & g & Hms & Hpl & Hrep & _ & Hout)|(Hnone & _)] Hne;
    [|done].
  exists (board g). split.
  { intros i j Hi Hj.
    destruct (replay_labels_show (moves r) m g) as [_ Hshow]; [done| |by apply Hshow].
    eapply Forall_impl; [exact Hpl|]. intros mv [->| ->]; discriminate. }
  destruct Hout as [[Hwin [[Hp Hw]|[Hp Hw]]]|(HX & HO & Hfull & Hw)];
    rewrite Hw; try rewrite Hp in Hwin.
  - split; [destruct (m =? 1)%Z; discriminate|].
    split; [intros _; exact Hwin|].
    intros [H|H]; destruct (m =? 1)%Z; discriminate.
  - split; [destruct (m =? 1)%Z; discriminate|].
    split; [intros [H|H]; destruct (m =? 1)%Z; discriminate|].
    intros _. exact Hwin.
  - split; [intros _; split; [exact Hfull|split; [exact HX|exact HO]]|].
    split; intros [H|H]; discriminate.
Qed.

Lemma recorded_game_replays_witness :
  exists news, gameHistory (session hasty_app) = [] ++ news /\
    Forall (fun r =>
      moves r <> [] ->
      exists b : Board,
        (forall i j, (i < 3)%nat -> (j < 3)%nat ->
           cellLabels (Nat.iter (length (moves r)) playNextMove
                         (ReplayDialog_new (moves r))) !! (3 * i + j)%nat
           = Some (shown b i j)) /\
        (winner r = "Draw"%string ->
           evalIsFull b = true /\ evalIsWinner b "X" = false /\
           evalIsWinner b "O" = false) /\
        (winner r = "Player 1"%string \/ winner r = "You"%string ->
           evalIsWinner b "X" = true) /\
        (winner r = "Player 2"%string \/ winner r = "AI"%string ->
           evalIsWinner b "O" = true)) news.
Proof.
  apply (recorded_game_replays [] hasty_app). apply hasty_app_reachable.
Defined.

(** X24: choosing entry [index] of the replay list opens a replay exactly
    when [index] is between 1 and the number of games and game [index - 1]
    has moves; the replay then starts on that game's moves with nothing
    drawn.  Every other index, and a game without moves, only gives a
    warning, and the history is never read out of range. *)
Theorem onComboBoxActivated_spec (hist : list GameRecord) (index : Z) :
  ((index <= 0)%Z \/ (index > Z.of_nat (length hist))%Z ->
     onComboBoxActivated hist index = None) /\
  ((1 <= index <= Z.of_nat (length hist))%Z ->
     exists record, hist !! Z.to_nat (index - 1) = Some record /\
       onComboBoxActivated hist index =
       match moves record with
       | [] => None
       | _ => Some (mkReplayDialog (moves record) 0
                      (replicate 9 ""%string) true)
       end).
Proof.
  unfold onComboBoxActivated. rewrite Z.gtb_ltb. split.
  - intros H.
    by replace ((index <=? 0)%Z || (Z.of_nat (length hist) <? index)%Z)
      with true by (symmetry; apply orb_true_iff; lia).
  - intros H.
    replace ((index <=? 0)%Z || (Z.of_nat (length hist) <? index)%Z)
      with false by (symmetry; apply orb_false_iff; lia).
    destruct (lookup_lt_is_Some_2 hist (Z.to_nat (index - 1))) as [r Hr];
      [lia|].
    exists r. rewrite Hr. split; [done|]. by destruct (moves r).
Qed.

Lemma onComboBoxActivated_spec_witness :
  onComboBoxActivated [mkGameRecord "PvP" "Draw" [] "noon"] 2 = None.
Proof.
  apply (onComboBoxActivated_spec [mkGameRecord "PvP" "Draw" [] "noon"] 2).
  right. simpl. lia.
Defined.

(** ** The text of the moves *)

Lemma sappend_assoc (a b c : string) :
  ((a ++ b) ++ c = a ++ (b ++ c))%string.
Proof. induction a as [|ch a IH]; simpl; [done|]. by rewrite IH. Qed.

Lemma sappend_nil_r (a : string) : (a ++ "")%string = a.
Proof. induction a as [|ch a IH]; simpl; [done|]. by rewrite IH. Qed.

Lemma contains_app ch (a b : string) :
  contains ch (a ++ b)%string = contains ch a || contains ch b.
Proof.
  induction a as [|c a IH]; simpl; [done|]. rewrite IH. apply orb_assoc.
Qed.

Lemma split_nonnil sep s : split sep s <> [].
Proof.
  destruct s as [|ch s]; simpl; [done|].
  destruct (Ascii.eqb ch sep); [done|]. by destruct (split sep s).
Qed.

Lemma split_none sep s : contains sep s = false -> split sep s = [s].
Proof.
  induction s as [|ch s IH]; simpl; [done|].
  intros [Hc Hs]%orb_false_elim. rewrite Hc, IH by done. done.
Qed.

Lemma split_app sep (a b : string) :
  contains sep a = false ->
  split sep (a ++ String sep b)%string = a :: split sep b.
Proof.
  induction a as [|ch a IH]; simpl.
  - intros _. by rewrite Ascii.eqb_refl.
  - intros [Hc Ha]%orb_false_elim. rewrite Hc, IH by done. done.
Qed.

Lemma move_text_source number (m : Move) :
  ((((number (row m) ++ "-") ++ number (col m)) ++ "-")
   ++ String (player m) EmptyString)%string
  = move_text number m.
Proof. unfold move_text. by rewrite !sappend_assoc. Qed.

Lemma join_semicolon_cons t ts :
  ts <> [] ->
  join_semicolon (t :: ts) = (t ++ String ";" (join_semicolon ts))%string.
Proof. by destruct ts. Qed.

(** The indexed loop of [saveGameRecord] joins the texts of the moves with
    semicolons. *)
Lemma save_loop number (ms post : list Move) : forall pre acc,
  ms = pre ++ post ->
  foldl (fun movesStr i =>
    match ms !! i with
    | Some m =>
        let movesStr1 :=
          (movesStr ++
           ((((number (row m) ++ "-") ++ number (col m)) ++ "-")
            ++ String (player m) EmptyString))%string in
        if (i <? length ms - 1)%nat
        then (movesStr1 ++ ";")%string
        else movesStr1
    | None => movesStr
    end) acc (seq (length pre) (length post))
  = (acc ++ join_semicolon (map (move_text number) post))%string.
Proof.
  induction post as [|m post IH]; intros pre acc Hms.
  - simpl. by rewrite sappend_nil_r.
  - assert (Hlook : ms !! length pre = Some m)
      by (rewrite Hms; by apply list_lookup_middle).
    assert (Hlen : length ms = (length pre + S (length post))%nat)
      by (by rewrite Hms, length_app).
    assert (Htest : (length pre <? length ms - 1)%nat
                    = match post with [] => false | _ => true end).
    { rewrite Hlen. destruct post; simpl;
        [apply Nat.ltb_ge|apply Nat.ltb_lt]; lia. }
    cbn [length seq foldl]. rewrite Hlook. cbn zeta.
    rewrite move_text_source, Htest.
    destruct post as [|m' post]; [done|].
    replace (S (length pre)) with (length (pre ++ [m]))
      by (rewrite length_app; simpl; lia).
    rewrite (IH (pre ++ [m])) by (by rewrite <- app_assoc).
    cbn [map]. rewrite (join_semicolon_cons (move_text number m)) by done.
    by rewrite !sappend_assoc.
Qed.

Lemma saveGameRecord_join number (record : GameRecord) :
  saveGameRecord_movesStr number record =
  join_semicolon (map (move_text number) (moves record)).
Proof.
  unfold saveGameRecord_movesStr.
  apply (save_loop number (moves record) (moves record) [] EmptyString).
  done.
Qed.

Lemma split_join (ts : list string) :
  ts <> [] -> Forall (fun t => contains ";" t = false) ts ->
  split ";" (join_semicolon ts) = ts.
Proof.
  induction ts as [|t ts IH]; [done|]. intros _ [Ht Hts]%Forall_cons.
  destruct ts as [|t' ts]; [by apply split_none|].
  rewrite join_semicolon_cons by done. rewrite split_app by done.
  by rewrite IH.
Qed.

Lemma split_move_text number (m : Move) :
  contains "-" (number (row m)) = false ->
  contains "-" (number (col m)) = false -> player m <> "-" ->
  split "-" (move_text number m) =
  [number (row m); number (col m); String (player m) EmptyString].
Proof.
  intros Hr Hc Hp. unfold move_text. rewrite split_app by done.
  rewrite split_app by done. rewrite split_none; [done|].
  simpl. apply Ascii.eqb_neq in Hp. by rewrite Hp.
Qed.

Lemma move_text_no_semicolon number (m : Move) :
  contains ";" (number (row m)) = false ->
  contains ";" (number (col m)) = false -> player m <> ";" ->
  contains ";" (move_text number m) = false.
Proof.
  intros Hr Hc Hp. unfold move_text.
  rewrite contains_app, Hr. cbn [contains orb]. rewrite contains_app, Hc.
  cbn [contains orb Ascii.eqb Bool.eqb]. apply Ascii.eqb_neq in Hp.
  by rewrite Hp.
Qed.

Lemma move_text_nonempty number (m : Move) :
  move_text number m <> EmptyString.
Proof. unfold move_text. by destruct (number (row m)). Qed.

Lemma join_semicolon_nonempty t ts :
  t <> EmptyString -> join_semicolon (t :: ts) <> EmptyString.
Proof. intros Ht. destruct ts; simpl; [done|]. by destruct t. Qed.

(** The joined text of moves is read back as those moves. *)
Lemma moves_text_parse_back (number : Z -> string) (toInt : string -> Z)
    (ms : list Move) :
  qt_int_text number toInt ->
  Forall (fun m => (0 <= row m <= 2147483647)%Z /\
                   (0 <= col m <= 2147483647)%Z /\
                   player m <> "-" /\ player m <> ";") ms ->
  loadGameHistory_moves toInt (join_semicolon (map (move_text number) ms))
  = Some ms.
Proof.
  intros Hqt Hms. destruct ms as [|m0 ms0]; [done|].
  unfold loadGameHistory_moves.
  assert (Hne : join_semicolon (map (move_text number) (m0 :: ms0))
                <> EmptyString)
    by apply join_semicolon_nonempty, move_text_nonempty.
  destruct (join_semicolon _) as [|ch rest] eqn:Hj; [done|]. rewrite <- Hj.
  rewrite split_join.
  - assert (Hloop : forall ms acc,
      Forall (fun m => (0 <= row m <= 2147483647)%Z /\
                       (0 <= col m <= 2147483647)%Z /\
                       player m <> "-" /\ player m <> ";") ms ->
      for_each (map (move_text number) ms) (fun token recordMoves =>
        match split "-" token with
        | [p0; p1; p2] =>
            match p2 with
            | String ch _ =>
                Some (recordMoves ++ [mkMove (toInt p0) (toInt p1) ch])
            | EmptyString => None
            end
        | _ => Some recordMoves
        end) acc = Some (acc ++ ms)).
    { clear -Hqt. induction ms as [|m ms IH]; intros acc Hms.
      - simpl. by rewrite app_nil_r.
      - apply Forall_cons in Hms as [(Hr & Hc & Hp1 & Hp2) Hms].
        destruct (Hqt _ Hr) as (Hr1 & Hr2 & _).
        destruct (Hqt _ Hc) as (Hc1 & Hc2 & _).
        cbn [map for_each]. rewrite split_move_text by done.
        rewrite Hr1, Hc1, IH by done. rewrite <- app_assoc.
        by destruct m. }
    by rewrite Hloop.
  - done.
  - apply Forall_fmap. eapply Forall_impl; [exact Hms|].
    intros m (Hr & Hc & _ & Hp). simpl.
    destruct (Hqt _ Hr) as (_ & _ & Hr3). destruct (Hqt _ Hc) as (_ & _ & Hc3).
    by apply move_text_no_semicolon.
Qed.

(** X25: the text [saveGameRecord] writes for the moves is read back by
    [loadGameHistory] as the same moves, in order, whenever rows and columns
    are non-negative values of [int] and no player char is '-' or ';';
    this covers the empty list of moves, whose text is empty. *)
Theorem moves_text_round_trip (number : Z -> string) (toInt : string -> Z)
    (record : GameRecord) :
  qt_int_text number toInt ->
  Forall (fun m => (0 <= row m <= 2147483647)%Z /\
                   (0 <= col m <= 2147483647)%Z /\
                   player m <> "-" /\ player m <> ";") (moves record) ->
  loadGameHistory_moves toInt (saveGameRecord_movesStr number record)
  = Some (moves record).
Proof.
  intros Hqt Hms. rewrite saveGameRecord_join.
  by apply moves_text_parse_back.
Qed.

Lemma uint_text_digits d :
  contains "-" (NilEmpty.string_of_uint d) = false /\
  contains ";" (NilEmpty.string_of_uint d) = false.
Proof. induction d as [|d [] |d [] |d [] |d [] |d [] |d [] |d [] |d [] |d [] |d []]; by simpl. Qed.

(** The decimal conversions of the Standard Library meet [qt_int_text]. *)
Lemma decimal_qt_int_text : qt_int_text decimal_number decimal_toInt.
Proof.
  intros n Hn. unfold decimal_number, decimal_toInt.
  destruct n as [|p|p]; [by vm_compute| |lia].
  assert (Hd : Pos.to_uint p <> Decimal.Nil) by apply Unsigned.to_uint_nonnil.
  cbn [Z.to_int]. split.
  - rewrite NilZero.isi; [|congruence|congruence].
    apply (DecimalZ.of_to (Z.pos p)).
  - cbn [NilZero.string_of_int]. unfold NilZero.string_of_uint.
    destruct (Pos.to_uint p) eqn:Hp; try done; rewrite <- Hp;
      apply uint_text_digits.
Qed.

Lemma moves_text_round_trip_witness :
  loadGameHistory_moves decimal_toInt
    (saveGameRecord_movesStr decimal_number
       (mkGameRecord "PvP" "Draw" [mkMove 0 2 "X"; mkMove 11 1 "O"] "noon"))
  = Some [mkMove 0 2 "X"; mkMove 11 1 "O"].
Proof.
  apply (moves_text_round_trip decimal_number decimal_toInt
           (mkGameRecord "PvP" "Draw" [mkMove 0 2 "X"; mkMove 11 1 "O"] "noon"));
    [apply decimal_qt_int_text|].
  repeat constructor; simpl; (lia || discriminate).
Defined.

Lemma load_loop_fails toInt (tokens : list string) : forall acc,
  for_each tokens (fun token recordMoves =>
    match split "-" token with
    | [p0; p1; p2] =>
        match p2 with
        | String ch _ =>
            Some (recordMoves ++ [mkMove (toInt p0) (toInt p1) ch])
        | EmptyString => None
        end
    | _ => Some recordMoves
    end) acc = None <->
  exists token p0 p1,
    In token tokens /\ split "-" token = [p0; p1; EmptyString].
Proof.
  induction tokens as [|token tokens IH]; intros acc.
  - simpl. split; [done|]. by intros (? & ? & ? & [] & _).
  - cbn [for_each].
    destruct (split "-" token) as [|p0 [|p1 [|p2 [|p3 ps]]]] eqn:Hs;
      try (rewrite IH; split;
           [intros (t & a & b & Hin & Ht); exists t, a, b; split; [by right|done]
           |intros (t & a & b & [<-|Hin] & Ht);
              [congruence|exists t, a, b; by split]]).
    destruct p2 as [|ch p2].
    + split; [intros _|done]. exists token, p0, p1. split; [by left|done].
    + rewrite IH. split.
      * intros (t & a & b & Hin & Ht). exists t, a, b. split; [by right|done].
      * intros (t & a & b & [<-|Hin] & Ht); [congruence|].
        exists t, a, b. by split.
Qed.

(** X26: [loadGameHistory] breaks on exactly one kind of text: it takes
    [at(0)] of an empty string when, and only when, some piece between
    semicolons splits at '-' into exactly three parts of which the third is
    empty, as in "1-2-".  Pieces with another number of parts are skipped
    without a move. *)
Theorem loadGameHistory_moves_fails (toInt : string -> Z) (movesStr : string) :
  loadGameHistory_moves toInt movesStr = None <->
  exists token p0 p1,
    In token (split ";" movesStr) /\
    split "-" token = [p0; p1; EmptyString].
Proof.
  unfold loadGameHistory_moves. destruct movesStr as [|ch rest].
  - split; [done|]. simpl. by intros (t & a & b & [<-|[]] & Ht).
  - apply load_loop_fails.
Qed.




(** ** Users and signing in *)

Lemma select_user_app (l l' : list UserRow) name :
  select_user (l ++ l') name =
  match select_user l name with
  | Some r => Some r
  | None => select_user l' name
  end.
Proof.
  unfold select_user. induction l as [|r l IH]; simpl; [done|].
  by destruct (username r =? name)%string.
Qed.

Lemma select_user_name (l : list UserRow) name r :
  select_user l name = Some r -> username r = name.
Proof.
  unfold select_user. intros [_ H]%find_some. by apply String.eqb_eq.
Qed.

Lemma select_user_updated sha256 (l : list UserRow) name pw st :
  select_user
    (map (fun r =>
            if (username r =? name)%string
            then mkUserRow (username r) (hashPassword sha256 pw st) st
            else r) l) name
  = (fun r => mkUserRow (username r) (hashPassword sha256 pw st) st)
      <$> select_user l name.
Proof.
  unfold select_user. induction l as [|r l IH]; simpl; [done|].
  destruct (username r =? name)%string eqn:Hr; simpl; rewrite Hr; [done|].
  apply IH.
Qed.

Lemma select_user_other sha256 (l : list UserRow) name other pw st :
  other <> name ->
  select_user
    (map (fun r =>
            if (username r =? name)%string
            then mkUserRow (username r) (hashPassword sha256 pw st) st
            else r) l) other
  = select_user l other.
Proof.
  intros Hne. unfold select_user. induction l as [|r l IH]; simpl; [done|].
  destruct (username r =? name)%string eqn:Hr; simpl.
  - apply String.eqb_eq in Hr.
    assert ((username r =? other)%string = false) as ->
      by (apply String.eqb_neq; congruence).
    apply IH.
  - destruct (username r =? other)%string; [done|apply IH].
Qed.

Lemma existsb_select_user (l : list UserRow) name :
  existsb (fun r => (username r =? name)%string) l = true <->
  is_Some (select_user l name).
Proof.
  unfold select_user. induction l as [|r l IH]; simpl.
  - split; [done|]. by intros [? ?].
  - destruct (username r =? name)%string; simpl; [|exact IH].
    split; [by eexists|done].
Qed.

(** X28: signing up and signing in agree.  When the name is free [saveUser]
    returns true and [verifyUser] then accepts the same password for that
    name, while every other name is verified as before; when the name is
    taken [saveUser] returns false and the table is unchanged, so the
    earlier password stays in force.  An unknown name is never verified. *)
Theorem saveUser_then_verifyUser (sha256 : string -> string)
    (table : list UserRow) (name password newSalt : string) :
  (select_user table name = None ->
     (saveUser sha256 table name password newSalt).1 = true /\
     verifyUser sha256 (saveUser sha256 table name password newSalt).2
                name password = true /\
     (forall other pw, other <> name ->
        verifyUser sha256 (saveUser sha256 table name password newSalt).2
                   other pw
        = verifyUser sha256 table other pw) /\
     (forall pw, verifyUser sha256 table name pw = false)) /\
  (is_Some (select_user table name) ->
     saveUser sha256 table name password newSalt = (false, table)).
Proof.
  unfold saveUser, verifyUser. split.
  - intros Hnone. rewrite Hnone. simpl. split; [done|]. split; [|split].
    + rewrite select_user_app, Hnone. unfold select_user. simpl.
      rewrite String.eqb_refl. simpl. apply String.eqb_refl.
    + intros other pw Hne. rewrite select_user_app.
      destruct (select_user table other); [done|].
      unfold select_user. simpl.
      by assert ((name =? other)%string = false) as ->
        by (apply String.eqb_neq; congruence).
    + done.
  - intros [r Hr]. by rewrite Hr.
Qed.

Lemma saveUser_then_verifyUser_witness :
  (saveUser (fun t => t) [] "ann" "pw" "s1").1 = true /\
  verifyUser (fun t => t) (saveUser (fun t => t) [] "ann" "pw" "s1").2
             "ann" "pw" = true /\
  (forall other pw, other <> "ann"%string ->
     verifyUser (fun t => t) (saveUser (fun t => t) [] "ann" "pw" "s1").2
                other pw
     = verifyUser (fun t => t) [] other pw) /\
  (forall pw, verifyUser (fun t => t) [] "ann" pw = false).
Proof.
  apply (saveUser_then_verifyUser (fun t => t) [] "ann" "pw" "s1").
  reflexivity.
Defined.

Lemma updateUserPassword_verify sha256 (table : list UserRow)
    name newPassword newSalt :
  is_Some (select_user table name) ->
  verifyUser sha256
    (updateUserPassword sha256 table name newPassword newSalt).2
    name newPassword = true.
Proof.
  intros [r Hr]. unfold updateUserPassword, verifyUser. simpl.
  rewrite select_user_updated, Hr. simpl. apply String.eqb_refl.
Qed.

(** X29: [updateUserPassword] returns true exactly when the name has a row;
    then [verifyUser] accepts the new password for that name.  In every case
    the verification of all other names is unchanged. *)
Theorem updateUserPassword_spec (sha256 : string -> string)
    (table : list UserRow) (name newPassword newSalt : string) :
  ((updateUserPassword sha256 table name newPassword newSalt).1 = true <->
   is_Some (select_user table name)) /\
  (is_Some (select_user table name) ->
   verifyUser sha256
     (updateUserPassword sha256 table name newPassword newSalt).2
     name newPassword = true) /\
  (forall other pw, other <> name ->
     verifyUser sha256
       (updateUserPassword sha256 table name newPassword newSalt).2 other pw
     = verifyUser sha256 table other pw).
Proof.
  split; [|split].
  - apply existsb_select_user.
  - apply updateUserPassword_verify.
  - intros other pw Hne. unfold updateUserPassword, verifyUser. simpl.
    by rewrite select_user_other.
Qed.

Lemma updateUserPassword_spec_witness :
  verifyUser (fun t => t)
    (updateUserPassword (fun t => t) [mkUserRow "ann" "pws1" "s1"]
       "ann" "new" "s2").2 "ann" "new" = true.
Proof.
  apply (updateUserPassword_spec (fun t => t) [mkUserRow "ann" "pws1" "s1"]
           "ann" "new" "s2").
  by eexists.
Defined.

(** X30: what signing in can do.  With an empty name or password the
    handler changes nothing.  Otherwise the current user either stays, with
    the page, or becomes the name typed, on page 1.  And the old password is
    not needed: when this is the third failed attempt in a row or a later
    one, whichever names were tried, and the name typed has a row, answering
    Yes and entering a non-empty new password leaves the user signed in
    under that name with the new password in force. *)
Theorem signInButtonClicked_spec (sha256 : string -> string)
    (stored : string -> list GameRecord) (w w' : MainWindow)
    (nameText passwordText : string) (answerYes ok : bool)
    (newPassword newSalt : string) :
  signInButtonClicked sha256 stored w nameText passwordText answerYes ok
    newPassword newSalt = w' ->
  (nameText = ""%string \/ passwordText = ""%string -> w' = w) /\
  ((currentUser w' = currentUser w /\ stackedIndex w' = stackedIndex w) \/
   (currentUser w' = nameText /\ stackedIndex w' = 1%Z /\
    signInAttempts w' = 0%Z /\
    windowHistory w' = stored nameText)) /\
  (nameText <> ""%string -> passwordText <> ""%string ->
   verifyUser sha256 (users w) nameText passwordText = false ->
   (2 <= signInAttempts w)%Z -> answerYes = true -> ok = true ->
   newPassword <> ""%string -> is_Some (select_user (users w) nameText) ->
   currentUser w' = nameText /\ stackedIndex w' = 1%Z /\
   verifyUser sha256 (users w') nameText newPassword = true).
Proof.
  intros <-. unfold signInButtonClicked.
  destruct (String.eqb_spec nameText "") as [Hn|Hn];
    [split; [done|]; split; [by left|done]|].
  destruct (String.eqb_spec passwordText "") as [Hp|Hp];
    [split; [done|]; split; [by left|done]|].
  cbn [orb].
  assert (Henter : forall v,
    currentUser (enter stored v nameText) = nameText /\
    stackedIndex (enter stored v nameText) = 1%Z /\
    signInAttempts (enter stored v nameText) = signInAttempts v /\
    windowHistory (enter stored v nameText) = stored nameText /\
    users (enter stored v nameText) = users v).
  { intros v. unfold enter, loadGameHistory. cbn [currentUser].
    apply String.eqb_neq in Hn. by rewrite Hn. }
  split; [intros [?|?]; contradiction|].
  destruct (verifyUser sha256 (users w) nameText passwordText) eqn:Hv.
  { split; [|done]. right.
    destruct (Henter (mkMainWindow (currentUser w) (windowHistory w) 0
                        (stackedIndex w) (users w))) as (H1 & H2 & H3 & H4 & _).
    done. }
  cbn [signInAttempts currentUser windowHistory stackedIndex users].
  pose proof (existsb_select_user (users w) nameText) as Hup1.
  pose proof (updateUserPassword_verify sha256 (users w) nameText newPassword
                newSalt) as Hup2.
  change (existsb (fun r => (username r =? nameText)%string) (users w))
    with (updateUserPassword sha256 (users w) nameText newPassword newSalt).1
    in Hup1.
  destruct (signInAttempts w + 1 >=? 3)%Z eqn:H3;
    [|split; [by left|]; intros _ _ _ Hatt; rewrite Z.geb_leb in H3;
      apply Z.leb_gt in H3; lia].
  destruct answerYes; [|split; [by left|]; by intros _ _ _ _ ?].
  destruct ok; [|split; [by left|]; by intros _ _ _ _ _ ?].
  destruct (String.eqb_spec newPassword "") as [Hnp|Hnp];
    [split; [by left|]; by intros _ _ _ _ _ _ ?|].
  cbn [andb negb].
  destruct (updateUserPassword sha256 (users w) nameText newPassword newSalt)
    as [[] table'] eqn:Hup; simpl in Hup1, Hup2.
  - destruct (Henter (mkMainWindow (currentUser w) (windowHistory w) 0
                        (stackedIndex w) table')) as (H1 & H2 & H4 & H5 & H6).
    split; [by right|]. intros _ _ _ _ _ _ _ Hrow.
    split; [done|]. split; [done|]. rewrite H6. by apply Hup2.
  - split; [by left|]. intros _ _ _ _ _ _ _ Hrow.
    apply Hup1 in Hrow. discriminate.
Qed.

Lemma signInButtonClicked_spec_witness :
  currentUser
    (signInButtonClicked (fun t => t) (fun _ => [])
       (mkMainWindow "" [] 2 0 [mkUserRow "ann" "pws1" "s1"])
       "ann" "guess" true true "mine" "s2") = "ann"%string /\
  stackedIndex
    (signInButtonClicked (fun t => t) (fun _ => [])
       (mkMainWindow "" [] 2 0 [mkUserRow "ann" "pws1" "s1"])
       "ann" "guess" true true "mine" "s2") = 1%Z /\
  verifyUser (fun t => t)
    (users (signInButtonClicked (fun t => t) (fun _ => [])
       (mkMainWindow "" [] 2 0 [mkUserRow "ann" "pws1" "s1"])
       "ann" "guess" true true "mine" "s2")) "ann" "mine" = true.
Proof.
  apply (signInButtonClicked_spec (fun t => t) (fun _ => [])
           (mkMainWindow "" [] 2 0 [mkUserRow "ann" "pws1" "s1"]) _
           "ann" "guess" true true "mine" "s2" eq_refl);
    first [discriminate | reflexivity | by eexists].
Defined.
